(** * InsightLite SDK: sampling, sanitization, batching and retry

    A shallow embedding of the client-side core of the InsightLite SDK
    (src/sdk/session.ts, privacy.ts, transport.ts, events.ts, performance.ts
    and core.ts) together with the properties its specification states.

    Conventions of the embedding.
    - A JavaScript string is the list of its UTF-16 code units ([jsstring]);
      [String.prototype.length] is [length], [charCodeAt] is the element.
    - 32-bit integer operators ([<<], [&]) are written on [Z] with the
      wrap-around of [ToInt32] spelled out.
    - A JavaScript number that only carries integers is a [Z]; where
      fractions matter it is a rational ([Q]) with the special values of
      IEEE-754 kept apart ([number]).  Binary rounding of doubles is not
      modelled: arithmetic on finite numbers is exact.
    - Mutable objects are records threaded through the functions that
      mutate them; thrown exceptions are the [Throw] case of [result]. *)

From Stdlib Require Import ZArith QArith Qminmax Qround Qabs Bool Lia Lqa Ascii String
  Sorted List.
Import ListNotations.

Local Open Scope Z_scope.

(* ================================================================== *)
(** * JavaScript values                                                *)
(* ================================================================== *)

Module JS.

(** UTF-16 code unit and string. *)
Definition char := Z.
Definition jsstring := list char.

(** Literals: an ASCII literal of Rocq read as a JavaScript string. *)
Definition lit (s : string) : jsstring :=
  map (fun a => Z.of_N (N_of_ascii a)) (list_ascii_of_string s).

(** [ToInt32]: reduction modulo 2^32 into [-2^31, 2^31). *)
Definition toInt32 (x : Z) : Z := (x + 2 ^ 31) mod 2 ^ 32 - 2 ^ 31.

(** [x << n] on numbers. *)
Definition shl32 (x n : Z) : Z := toInt32 (Z.shiftl (toInt32 x) (n mod 32)).

(** [x & y] on numbers. *)
Definition and32 (x y : Z) : Z := toInt32 (Z.land (toInt32 x) (toInt32 y)).

(** JavaScript numbers where the special values matter. *)
Inductive number : Type :=
| NaN
| Fin (q : Q)
| PosInf
| NegInf.

Definition Qltb (x y : Q) : bool := negb (Qle_bool y x).

(** [a < b] on numbers (false as soon as one side is NaN). *)
Definition num_ltb (a b : number) : bool :=
  match a, b with
  | NaN, _ | _, NaN => false
  | Fin x, Fin y => Qltb x y
  | Fin _, PosInf => true
  | Fin _, NegInf => false
  | PosInf, _ => false
  | NegInf, NegInf => false
  | NegInf, _ => true
  end.

(** Digits of [Number.prototype.toString(radix)]: 0-9 then a-z. *)
Definition digitChar (d : Z) : char := if d <? 10 then 48 + d else 87 + d.

(** [n.toString(radix)] for an integer [n >= 0], most significant digit
    first; [fuel] bounds the number of digits. *)
Fixpoint digits (radix : Z) (fuel : nat) (n : Z) : jsstring :=
  match fuel with
  | O => [digitChar (n mod radix)]
  | S f => if n <? radix then [digitChar n]
           else digits radix f (n / radix) ++ [digitChar (n mod radix)]
  end.

Definition toStringRadix (radix n : Z) : jsstring :=
  digits radix (Z.to_nat (Z.log2 n)) n.

(** [String.prototype.startsWith] and [String.prototype.includes]. *)
Fixpoint startsWith (needle hay : jsstring) : bool :=
  match needle, hay with
  | [], _ => true
  | _ :: _, [] => false
  | a :: needle', b :: hay' => (a =? b) && startsWith needle' hay'
  end.

Fixpoint includes (needle hay : jsstring) : bool :=
  startsWith needle hay ||
  match hay with
  | [] => false
  | _ :: hay' => includes needle hay'
  end.

(** Thrown values: an [Error] with its message ([None] when the thrown
    value has no [message]). *)
Record error : Type := Error { message : option jsstring }.

(** Outcome of a call that may throw. *)
Inductive result (A : Type) : Type :=
| Ok (a : A)
| Throw (e : error).
Arguments Ok {A} a.
Arguments Throw {A} e.

(** Lines written to the console. *)
Inductive logEntry : Type :=
| ConsoleLog (text : string)
| ConsoleWarn (text : string) (e : error)
| ConsoleError (text : string) (e : error).

End JS.

Import JS.

(* ================================================================== *)
(** * SessionManager (session.ts)                                      *)
(* ================================================================== *)

Module SessionManager.

(** The fields of [SessionManager] that the sampling code reads or writes. *)
Record t : Type := mk {
  siteId : jsstring;                 (* this.config.siteId *)
  sessionId : jsstring;              (* this.sessionId *)
  samplingDecision : option bool     (* boolean | null *)
}.

(** One round of the loop of [hashString]. *)
Definition hashStep (hash : Z) (c : char) : Z :=
  let hash := (shl32 hash 5 - hash) + c in
  and32 hash hash.

(** [hashString(str)]. *)
Definition hashString (str : jsstring) : Z :=
  Z.abs (fold_left hashStep str 0).

(** [makeSamplingDecision(sampleRate)]. *)
Definition makeSamplingDecision (m : t) (sampleRate : number) : bool :=
  let hash := hashString (sessionId m) in
  let normalized := Fin ((hash mod 10000) # 10000) in
  num_ltb normalized sampleRate.

(** [shouldTrackSession(sampleRate)]: the returned boolean and the manager
    after the call. *)
Definition shouldTrackSession (sampleRate : number) (m : t) : bool * t :=
  match samplingDecision m with
  | None =>
      let d := makeSamplingDecision m sampleRate in
      (d, mk (siteId m) (sessionId m) (Some d))
  | Some d => (d, m)
  end.

(** [getAnonymizedSessionId()]. *)
Definition getAnonymizedSessionId (m : t) : jsstring :=
  let hash := hashString (sessionId m ++ lit ":" ++ siteId m) in
  toStringRadix 36 hash.

(** A manager right after construction: no decision taken yet. *)
Definition fresh (site sid : jsstring) : t := mk site sid None.

(** The booleans returned by a sequence of calls of [shouldTrackSession]. *)
Fixpoint calls (rates : list number) (m : t) : list bool :=
  match rates with
  | [] => []
  | r :: rates' =>
      let (d, m') := shouldTrackSession r m in d :: calls rates' m'
  end.

End SessionManager.

(* ================================================================== *)
(** * Regular expressions of the SDK, with JavaScript's backtracking    *)
(* ================================================================== *)

Module Regex.

Local Open Scope nat_scope.

(** [\w], [\d] and [\s] without the unicode flag. *)
Definition isWord (c : char) : bool :=
  ((48 <=? c) && (c <=? 57) || (65 <=? c) && (c <=? 90) ||
   (97 <=? c) && (c <=? 122) || (c =? 95))%Z.

Definition isDigit (c : char) : bool := ((48 <=? c) && (c <=? 57))%Z.

Definition isSpace (c : char) : bool :=
  ((9 <=? c) && (c <=? 13) || (c =? 32) || (c =? 160) || (c =? 5760) ||
   (8192 <=? c) && (c <=? 8202) || (c =? 8232) || (c =? 8233) ||
   (c =? 8239) || (c =? 8287) || (c =? 12288) || (c =? 65279))%Z.

(** The fragment of the pattern language that the SDK uses.  Quantifiers
    are greedy; [Plus] is [c+] for a one-character class [c]. *)
Inductive re : Type :=
| Eps                                  (* empty pattern *)
| Cls (p : char -> bool)               (* one code unit of a class *)
| Cat (r1 r2 : re)                     (* r1 r2 *)
| Opt (r : re)                         (* r? *)
| Plus (p : char -> bool)              (* c+ *)
| Rep (n : nat) (r : re)               (* r{n} *)
| RepRange (n extra : nat) (r : re)    (* r{n,n+extra} *)
| WordB.                               (* \b *)

(** [\b] at position [i] of [s]. *)
Definition wordAt (s : jsstring) (i : nat) : bool :=
  match nth_error s i with
  | Some c => isWord c
  | None => false
  end.

Definition isWordBoundary (s : jsstring) (i : nat) : bool :=
  let a := match i with O => false | S j => wordAt s j end in
  let b := wordAt s i in
  xorb a b.

(** Length of the longest prefix of [l] inside the class [p]. *)
Fixpoint run (p : char -> bool) (l : jsstring) : nat :=
  match l with
  | c :: l' => if p c then S (run p l') else 0
  | [] => 0
  end.

(** [n] mandatory iterations of a pattern whose ends are given by [f]. *)
Fixpoint iter (f : nat -> list nat) (n : nat) (i : nat) : list nat :=
  match n with
  | O => [i]
  | S n' => flat_map (iter f n') (f i)
  end.

(** Up to [k] further greedy iterations: one more is tried before none. *)
Fixpoint upto (f : nat -> list nat) (k : nat) (i : nat) : list nat :=
  match k with
  | O => [i]
  | S k' => flat_map (upto f k') (f i) ++ [i]
  end.

(** [ends r s i]: every position at which a match of [r] that starts at
    position [i] of [s] can end, in the order in which the backtracking
    matcher of ECMAScript tries them.  The first one is the match found. *)
Fixpoint ends (r : re) (s : jsstring) (i : nat) : list nat :=
  match r with
  | Eps => [i]
  | Cls p =>
      match nth_error s i with
      | Some c => if p c then [S i] else []
      | None => []
      end
  | Cat r1 r2 => flat_map (ends r2 s) (ends r1 s i)
  | Opt r1 => ends r1 s i ++ [i]
  | Plus p => map (fun k => i + k) (rev (seq 1 (run p (skipn i s))))
  | Rep n r1 => iter (ends r1 s) n i
  | RepRange n extra r1 => flat_map (upto (ends r1 s) extra) (iter (ends r1 s) n i)
  | WordB => if isWordBoundary s i then [i] else []
  end.

(** [s.substring(i, e)]. *)
Definition substring (s : jsstring) (i e : nat) : jsstring :=
  firstn (e - i) (skipn i s).

(** [s.replace(r, replacer)] for a pattern [r] with the global flag: the
    scan resumes where the previous match ended, or one position further
    when no match starts at the current position (or the match is empty). *)
Fixpoint replaceFrom (fuel : nat) (r : re) (replacer : jsstring -> jsstring)
    (s : jsstring) (i : nat) : jsstring :=
  match fuel with
  | O => skipn i s
  | S fuel' =>
      let advance :=
        match nth_error s i with
        | Some c => c :: replaceFrom fuel' r replacer s (S i)
        | None => []
        end in
      match ends r s i with
      | e :: _ =>
          replacer (substring s i e) ++
          (if e =? i then advance else replaceFrom fuel' r replacer s e)
      | [] => advance
      end
  end.

Definition replace (r : re) (replacer : jsstring -> jsstring) (s : jsstring) : jsstring :=
  replaceFrom (S (length s)) r replacer s 0.

(** A pattern written as a sequence. *)
Fixpoint cat (rs : list re) : re :=
  match rs with
  | [] => Eps
  | [r] => r
  | r :: rs' => Cat r (cat rs')
  end.

(** [\b r \b]. *)
Definition bounded (r : re) : re := Cat WordB (Cat r WordB).

Definition chr (a : string) (c : char) : bool :=
  existsb (Z.eqb c) (lit a).

End Regex.

(* ================================================================== *)
(** * PrivacyEngine (privacy.ts): text                                 *)
(* ================================================================== *)

Module PrivacyText.
Import Regex.

Definition maskChar : char := 9679.    (* U+25CF *)
Definition blockChar : char := 9608.   (* U+2588 *)

(** [[\w\.-]] *)
Definition wordDotDash (c : char) : bool := isWord c || chr ".-" c.
(** [[-.\s]] *)
Definition sep (c : char) : bool := chr "-." c || isSpace c.
(** [[-\s]] *)
Definition dashSpace (c : char) : bool := chr "-" c || isSpace c.

(** /\b[\w\.-]+@[\w\.-]+\.\w+\b/g *)
Definition emailBody : re :=
  cat [Plus wordDotDash; Cls (chr "@"); Plus wordDotDash; Cls (chr "."); Plus isWord].

(** /\b(?:\+1[-.\s]?)?\(?[0-9]{3}\)?[-.\s]?[0-9]{3}[-.\s]?[0-9]{4}\b/g *)
Definition phoneBody : re :=
  cat [Opt (cat [Cls (chr "+"); Cls (chr "1"); Opt (Cls sep)]);
       Opt (Cls (chr "(")); Rep 3 (Cls isDigit); Opt (Cls (chr ")"));
       Opt (Cls sep); Rep 3 (Cls isDigit); Opt (Cls sep); Rep 4 (Cls isDigit)].

(** /\b\d{3}[-\s]?\d{2}[-\s]?\d{4}\b/g *)
Definition ssnBody : re :=
  cat [Rep 3 (Cls isDigit); Opt (Cls dashSpace); Rep 2 (Cls isDigit);
       Opt (Cls dashSpace); Rep 4 (Cls isDigit)].

(** /\b(?:\d{4}[-\s]?){3}\d{4}\b/g *)
Definition creditCardBody : re :=
  cat [Rep 3 (cat [Rep 4 (Cls isDigit); Opt (Cls dashSpace)]); Rep 4 (Cls isDigit)].

(** /\b(?:[0-9]{1,3}\.){3}[0-9]{1,3}\b/g *)
Definition ipAddressBody : re :=
  cat [Rep 3 (cat [RepRange 1 2 (Cls isDigit); Cls (chr ".")]);
       RepRange 1 2 (Cls isDigit)].

(** [this.dataPatterns], in the insertion order of the Map. *)
Definition dataPatterns : list (string * re) :=
  [("email"%string, bounded emailBody);
   ("phone"%string, bounded phoneBody);
   ("ssn"%string, bounded ssnBody);
   ("creditCard"%string, bounded creditCardBody);
   ("ipAddress"%string, bounded ipAddressBody)].

(** The replacer of [sanitizeTextPatterns]:
    [(match) => this.maskChar.repeat(match.length)]. *)
Definition maskMatch (m : jsstring) : jsstring := repeat maskChar (length m).

(** [sanitizeTextPatterns(text)] on a string. *)
Definition sanitizeTextPatterns (text : jsstring) : jsstring :=
  fold_left (fun sanitized pattern => replace (snd pattern) maskMatch sanitized)
            dataPatterns text.

(** [anonymizeText(text)] on a string. *)
Definition anonymizeText (text : jsstring) : jsstring :=
  repeat blockChar (length text).

End PrivacyText.

(* ================================================================== *)
(** * PrivacyEngine (privacy.ts): structured data                      *)
(* ================================================================== *)

Module PrivacyEngine.
Import Regex PrivacyText.

#[local] Unset Elimination Schemes.
(** Values handed to [sanitizeData]: finite trees of primitives, arrays
    and plain objects.  The entries of an object are its own enumerable
    properties in the order of [Object.entries].  [JTrap e] is the object
    [{ get trap() { throw e } }], whose enumeration throws [e]. *)
Inductive JsValue : Type :=
| JUndefined
| JNull
| JBool (b : bool)
| JNumber (n : number)
| JString (s : jsstring)
| JArray (items : list JsValue)
| JObject (entries : list (jsstring * JsValue))
| JTrap (e : error).
#[local] Set Elimination Schemes.

Inductive PrivacyMode : Type := strict | balanced | permissive.

(** The engine: its only configuration is the mode. *)
Record t : Type := mk { mode : PrivacyMode }.

(** [result[key] = v] on the own properties of a plain object: the value
    of an existing key is replaced in place, a new key is appended; an
    assignment to [__proto__] reaches the setter of [Object.prototype] and
    creates no own property. *)
Fixpoint assign (o : list (jsstring * JsValue)) (key : jsstring) (v : JsValue)
    : list (jsstring * JsValue) :=
  match o with
  | [] => [(key, v)]
  | (k, w) :: o' =>
      if list_eq_dec Z.eq_dec k key then (k, v) :: o'
      else (k, w) :: assign o' key v
  end.

Definition setProperty (o : list (jsstring * JsValue)) (key : jsstring) (v : JsValue)
    : list (jsstring * JsValue) :=
  if list_eq_dec Z.eq_dec key (lit "__proto__") then o else assign o key v.

(** [Array.prototype.join] of already converted items. *)
Fixpoint join (sep : jsstring) (parts : list jsstring) : jsstring :=
  match parts with
  | [] => []
  | [p] => p
  | p :: parts' => p ++ sep ++ join sep parts'
  end.

Section Host.

(** Built-ins of the host whose tables are not part of the SDK:
    [String.prototype.toLowerCase] and the number-to-string conversion. *)
Variable toLowerCase : jsstring -> jsstring.
Variable numberToString : number -> jsstring.

(** [String(value)]. *)
Fixpoint toStr (value : JsValue) : jsstring :=
  match value with
  | JUndefined => lit "undefined"
  | JNull => lit "null"
  | JBool true => lit "true"
  | JBool false => lit "false"
  | JNumber n => numberToString n
  | JString s => s
  | JArray items =>
      join (lit ",")
           (map (fun item => match item with
                             | JUndefined | JNull => []
                             | _ => toStr item
                             end) items)
  | JObject _ => lit "[object Object]"
  | JTrap _ => lit "[object Object]"
  end.

(** [isSensitiveField(fieldName)]. *)
Definition sensitiveFields : list jsstring :=
  map lit ["email"; "password"; "pass"; "pwd"; "token"; "key";
           "firstname"; "lastname"; "phone"; "tel"; "mobile";
           "ssn"; "social"; "creditcard"; "cardnumber";
           "userid"; "customerid"; "sessionid"]%string.

Definition isSensitiveField (fieldName : jsstring) : bool :=
  let normalizedField :=
    filter (fun c => negb (chr "-_" c)) (toLowerCase fieldName) in
  existsb (fun sensitive => includes sensitive normalizedField) sensitiveFields.

(** [maskValue(value)]. *)
Definition maskValue (value : JsValue) : jsstring :=
  match value with
  | JNull | JUndefined => []
  | _ => let stringValue := toStr value in
         repeat maskChar (length stringValue)
  end.

(** [_sanitizeValue(value, visited)].  On finite trees no value is its own
    ancestor, so the [visited] test never fires and the set is left out. *)
Fixpoint _sanitizeValue (value : JsValue) : result JsValue :=
  match value with
  | JString s => Ok (JString (sanitizeTextPatterns s))
  | JArray items =>
      let fix mapItems (l : list JsValue) : result (list JsValue) :=
        match l with
        | [] => Ok []
        | item :: l' =>
            match _sanitizeValue item with
            | Throw e => Throw e
            | Ok item' =>
                match mapItems l' with
                | Throw e => Throw e
                | Ok rest => Ok (item' :: rest)
                end
            end
        end in
      match mapItems items with
      | Throw e => Throw e
      | Ok result => Ok (JArray result)
      end
  | JObject entries =>
      let fix loop (l : list (jsstring * JsValue)) (result : list (jsstring * JsValue))
          : JS.result (list (jsstring * JsValue)) :=
        match l with
        | [] => Ok result
        | (key, val) :: l' =>
            if isSensitiveField key
            then loop l' (setProperty result key (JString (maskValue val)))
            else match _sanitizeValue val with
                 | Throw e => Throw e
                 | Ok val' => loop l' (setProperty result key val')
                 end
        end in
      match loop entries [] with
      | Throw e => Throw e
      | Ok result => Ok (JObject result)
      end
  | JTrap e => Throw e
  | JUndefined | JNull | JBool _ | JNumber _ => Ok value
  end.

(** [sanitizeData(data)]: the outcome for the caller and the console
    output of the call. *)
Definition sanitizeData (this : t) (data : JsValue) : result JsValue * list logEntry :=
  match data with
  | JNull | JUndefined => (Ok data, [])
  | _ =>
      match _sanitizeValue data with
      | Ok v => (Ok v, [])
      | Throw error =>
          (Ok data, [ConsoleWarn "[PrivacyEngine] Error sanitizing data:" error])
      end
  end.

End Host.

(** [hashSessionId(sessionId, siteId)]. *)
Definition hashSessionId (sessionId siteId : jsstring) : jsstring :=
  let combined := sessionId ++ lit ":" ++ siteId in
  let hash :=
    fold_left (fun hash c => let hash := (shl32 hash 5 - hash) + c in and32 hash hash)
              combined 0 in
  toStringRadix 36 (Z.abs hash).

End PrivacyEngine.

(* ================================================================== *)
(** * EventTransport (transport.ts): classification and retry          *)
(* ================================================================== *)

Module EventTransport.
Import Regex.

(** [parseInt(digits, 10)] on a string of decimal digits. *)
Definition parseInt (digits : jsstring) : Z :=
  fold_left (fun acc c => 10 * acc + (c - 48)) digits 0.

(** /HTTP (\d+)/ *)
Definition httpPrefix : re :=
  cat [Cls (chr "H"); Cls (chr "T"); Cls (chr "T"); Cls (chr "P"); Cls (chr " ")].
Definition httpStatusPattern : re := Cat httpPrefix (Plus isDigit).

(** [s.match(r)] for a pattern without the global flag: the leftmost
    position at which a match starts, with the end of that match. *)
Fixpoint execFrom (fuel : nat) (r : re) (s : jsstring) (i : nat) : option (nat * nat) :=
  match ends r s i with
  | e :: _ => Some (i, e)
  | [] => match fuel with
          | O => None
          | S fuel' => execFrom fuel' r s (S i)
          end
  end.

Definition exec (r : re) (s : jsstring) : option (nat * nat) :=
  execFrom (length s) r s 0%nat.

(** [extractHttpStatus(error)]; the capture group starts after the five
    characters of the prefix and extends to the end of the match. *)
Definition extractHttpStatus (error : JS.error) : option Z :=
  match message error with
  | None => None
  | Some msg =>
      match exec httpStatusPattern msg with
      | Some (i, e) => Some (parseInt (substring msg (i + 5) e))
      | None => None
      end
  end.

(** [error.message?.includes(needle)], undefined counting as false. *)
Definition messageIncludes (error : JS.error) (needle : string) : bool :=
  match message error with
  | Some msg => includes (lit needle) msg
  | None => false
  end.

(** [isRetryableError(error)]. *)
Definition isRetryableError (error : JS.error) : bool :=
  if messageIncludes error "Network error" then true
  else if messageIncludes error "timeout" then true
  else
    match extractHttpStatus error with
    | Some status =>
        if status =? 0 then true            (* if (status) fails on 0 *)
        else (status >=? 500) || (status =? 429)
    | None => true                          (* default to retryable *)
    end.

(** What an observer of the transport can see of one batch. *)
Inductive action : Type :=
| AttemptSend                 (* a call of _attemptSend *)
| SetTimeout (delay : Z)      (* the backoff timer *)
| Emit (event : string) (e : option JS.error)   (* this.emit(event, ...) *)
| Console (entry : logEntry).

(** [QueuedEvent]: the batch is opaque here, only its retry counter moves. *)
Record QueuedEvent : Type := mkQueued { retryCount : Z }.

(** The transport while it works on a batch: its own retry counter, the
    number of send attempts made so far and what it did, oldest first. *)
Record t : Type := mk {
  maxRetries : Z;             (* this.config.maxRetries *)
  transportRetryCount : Z;    (* this.retryCount *)
  attempts : nat;
  trace : list action
}.

Definition record (a : action) (w : t) : t :=
  mk (maxRetries w) (transportRetryCount w) (attempts w) (trace w ++ [a]).

Definition setRetryCount (n : Z) (w : t) : t :=
  mk (maxRetries w) n (attempts w) (trace w).

Section Network.

(** The network: the outcome of the [n]-th call of [_attemptSend] for the
    batch ([None] when the promise resolves, the rejection otherwise). *)
Variable network : nat -> option JS.error.

(** [await this._attemptSend(queuedEvent)]. *)
Definition _attemptSend (w : t) : option JS.error * t :=
  (network (attempts w),
   mk (maxRetries w) (transportRetryCount w) (S (attempts w)) (trace w ++ [AttemptSend])).

(** [retryWithBackoff(queuedEvent)], the recursive call of
    [handleSendError] being the argument [handle]. *)
Definition retryWithBackoff (handle : QueuedEvent -> JS.error -> t -> option t)
    (queuedEvent : QueuedEvent) (w : t) : option t :=
  let queuedEvent := mkQueued (retryCount queuedEvent + 1) in
  let w := setRetryCount (transportRetryCount w + 1) w in
  let delay := Z.min (1000 * 2 ^ (retryCount queuedEvent - 1)) 30000 in
  let w := record (SetTimeout delay) w in
  match _attemptSend w with
  | (None, w) =>
      let w := setRetryCount 0 w in
      Some (record (Emit "success" None) w)
  | (Some error, w) => handle queuedEvent error w
  end.

(** [handleSendError(queuedEvent, error)]; [None] when the recursion depth
    [fuel] does not suffice. *)
Fixpoint handleSendError (fuel : nat) (queuedEvent : QueuedEvent) (error : JS.error)
    (w : t) : option t :=
  match fuel with
  | O => None
  | S fuel' =>
      if isRetryableError error && (retryCount queuedEvent <? maxRetries w)
      then retryWithBackoff (handleSendError fuel') queuedEvent w
      else
        let w := record (Emit "error" (Some error)) w in
        Some (record (Console (ConsoleError "[Transport] Failed to send events after retries:" error)) w)
  end.

(** [sendBatch(events)]. *)
Definition sendBatch (fuel : nat) (w : t) : option t :=
  let queuedEvent := mkQueued 0 in
  match _attemptSend w with
  | (None, w) =>
      let w := setRetryCount 0 w in
      Some (record (Emit "success" None) w)
  | (Some error, w) => handleSendError fuel queuedEvent error w
  end.

End Network.

(** A transport that has not sent anything yet. *)
Definition init (maxRetries : Z) : t := mk maxRetries 0 0 [].

(** Observations on a trace. *)
Definition isAttempt (a : action) : bool :=
  match a with AttemptSend => true | _ => false end.
Definition isEmit (event : string) (a : action) : bool :=
  match a with Emit ev _ => String.eqb ev event | _ => false end.
Fixpoint delays (tr : list action) : list Z :=
  match tr with
  | [] => []
  | SetTimeout d :: tr' => d :: delays tr'
  | _ :: tr' => delays tr'
  end.

End EventTransport.

(* ================================================================== *)
(** * EventCollector (events.ts): the pending buffer                   *)
(* ================================================================== *)

Module EventCollector.

(** [EventData], reduced to the fields the buffer code reads. *)
Record EventData : Type := mkEvent {
  evSessionId : jsstring;
  evTimestamp : Z;
  evType : jsstring
}.

(** [array.slice(start)]: a negative start counts from the end. *)
Definition slice (start : Z) (a : list EventData) : list EventData :=
  let len := Z.of_nat (length a) in
  let k := if start <? 0 then Z.max (len + start) 0 else Z.min start len in
  skipn (Z.to_nat k) a.

(** What [shouldCollectEvent] reads besides the event type: the verdict of
    the performance monitor and the draw of [Math.random()]. *)
Record environment : Type := mkEnv {
  shouldReduceActivity : bool;
  random : Q
}.

(** The collector: [this.config.flushSize], [this.effectiveSampleRate] and
    [this.events]. *)
Record t : Type := mk {
  flushSize : Z;
  effectiveSampleRate : Q;
  events : list EventData
}.

(** [shouldCollectEvent(eventType)]. *)
Definition shouldCollectEvent (this : t) (env : environment) (eventType : jsstring) : bool :=
  if list_eq_dec Z.eq_dec eventType (lit "error") then true
  else if shouldReduceActivity env then false
  else Qltb (random env) (effectiveSampleRate this).

(** [addEvent(event)]. *)
Definition addEvent (env : environment) (event : EventData) (this : t) : t :=
  if negb (shouldCollectEvent this env (evType event)) then this
  else
    let events := events this ++ [event] in
    if Z.of_nat (length events) >? flushSize this * 2
    then mk (flushSize this) (effectiveSampleRate this) (slice (- flushSize this) events)
    else mk (flushSize this) (effectiveSampleRate this) events.

(** [getAndClearEvents()]. *)
Definition getAndClearEvents (this : t) : list EventData * t :=
  (events this, mk (flushSize this) (effectiveSampleRate this) []).

(** [getEventCount()]. *)
Definition getEventCount (this : t) : Z := Z.of_nat (length (events this)).

(** A collector right after construction. *)
Definition init (flushSize : Z) (sampleRate : Q) : t := mk flushSize sampleRate [].

(** Calls made on a collector. *)
Inductive call : Type :=
| CallAdd (env : environment) (event : EventData)
| CallGetAndClear.

Definition step (this : t) (c : call) : t :=
  match c with
  | CallAdd env event => addEvent env event this
  | CallGetAndClear => snd (getAndClearEvents this)
  end.

Definition run (cs : list call) (this : t) : t := fold_left step cs this.

End EventCollector.

(* ================================================================== *)
(** * PerformanceMonitor (performance.ts): the device score            *)
(* ================================================================== *)

Module PerformanceMonitor.

Local Open Scope Q_scope.

(** [connection.effectiveType]: the four classes of the table, anything
    else (or a missing field) being [unlisted]. *)
Inductive effectiveType : Type := slow2g | net2g | net3g | net4g | unlisted.

(** What the score reads from [navigator]; [None] is [undefined]. *)
Record navigator : Type := mkNavigator {
  deviceMemory : option Q;
  hardwareConcurrency : option Q;
  connection : option effectiveType
}.

(** [x || d] on an optional number: [undefined] and 0 give the default. *)
Definition orDefault (x : option Q) (d : Q) : Q :=
  match x with
  | Some q => if Qeq_bool q 0 then d else q
  | None => d
  end.

(** The table [effectiveTypes] of [getDevicePerformanceScore]. *)
Definition effectiveTypes (ty : effectiveType) : option Q :=
  match ty with
  | slow2g => Some 0
  | net2g => Some 0.05
  | net3g => Some 0.1
  | net4g => Some 0.2
  | unlisted => None
  end.

(** [getDevicePerformanceScore()]. *)
Definition getDevicePerformanceScore (nav : navigator) : Q :=
  let memory := orDefault (deviceMemory nav) 4 in
  let cores := orDefault (hardwareConcurrency nav) 4 in
  let score := 0.5 in
  let score := score + Qmin (memory / 16) 0.3 in
  let score := score + Qmin (cores / 8) 0.2 in
  let score :=
    match connection nav with
    | Some ty => score + orDefault (effectiveTypes ty) 0.2
    | None => score
    end in
  Qmin score 1.0.

End PerformanceMonitor.

(* ================================================================== *)
(** * InsightLiteSDK (core.ts): construction and initialisation        *)
(* ================================================================== *)

Module InsightLiteSDK.
Import PrivacyEngine.

(** [typeof v]. *)
Inductive jstype : Type :=
  TUndefined | TObject | TBoolean | TNumber | TString.

Definition typeof (v : JsValue) : jstype :=
  match v with
  | JUndefined => TUndefined
  | JNull | JArray _ | JObject _ | JTrap _ => TObject
  | JBool _ => TBoolean
  | JNumber _ => TNumber
  | JString _ => TString
  end.

Definition isType (a b : jstype) : bool :=
  match a, b with
  | TUndefined, TUndefined | TObject, TObject | TBoolean, TBoolean
  | TNumber, TNumber | TString, TString => true
  | _, _ => false
  end.

(** [!!v]. *)
Definition truthy (v : JsValue) : bool :=
  match v with
  | JUndefined | JNull => false
  | JBool b => b
  | JNumber NaN => false
  | JNumber (Fin q) => negb (Qeq_bool q 0)
  | JNumber _ => true
  | JString s => match s with [] => false | _ => true end
  | JArray _ | JObject _ | JTrap _ => true
  end.

(** [v.key] for a data property: [undefined] when [v] has no such own
    property (arrays and the trap object have none of the names read here). *)
Definition getProp (v : JsValue) (key : string) : JsValue :=
  match v with
  | JObject entries =>
      match find (fun kv => if list_eq_dec Z.eq_dec (fst kv) (lit key) then true else false)
                 entries with
      | Some (_, w) => w
      | None => JUndefined
      end
  | _ => JUndefined
  end.

(** [String.prototype.trim]. *)
Fixpoint trimStart (s : jsstring) : jsstring :=
  match s with
  | c :: s' => if Regex.isSpace c then trimStart s' else s
  | [] => []
  end.
Definition trim (s : jsstring) : jsstring := rev (trimStart (rev (trimStart s))).

(** [v < bound] for a value already known to be a number. *)
Definition below (v : JsValue) (bound : Q) : bool :=
  match v with JNumber n => num_ltb n (Fin bound) | _ => false end.
Definition above (v : JsValue) (bound : Q) : bool :=
  match v with JNumber n => num_ltb (Fin bound) n | _ => false end.

Definition fail (text : string) : result unit := Throw (Error (Some (lit text))).

(** [validateConfig(config)]. *)
Definition validateConfig (config : JsValue) : result unit :=
  if negb (truthy config) || negb (isType (typeof config) TObject)
  then fail "Configuration object is required"
  else
    let siteId := getProp config "siteId" in
    if negb (truthy siteId) || negb (isType (typeof siteId) TString) ||
       match siteId with JString s => match trim s with [] => true | _ => false end
                       | _ => false end
    then fail "siteId is required and must be a non-empty string"
    else
      let sampleRate := getProp config "sampleRate" in
      if negb (isType (typeof sampleRate) TUndefined) &&
         (negb (isType (typeof sampleRate) TNumber) || below sampleRate 0 || above sampleRate 1)
      then fail "sampleRate must be a number between 0 and 1"
      else
        let flushInterval := getProp config "flushInterval" in
        if negb (isType (typeof flushInterval) TUndefined) &&
           (negb (isType (typeof flushInterval) TNumber) || below flushInterval 1000)
        then fail "flushInterval must be a number >= 1000ms"
        else
          let flushSize := getProp config "flushSize" in
          if negb (isType (typeof flushSize) TUndefined) &&
             (negb (isType (typeof flushSize) TNumber) || below flushSize 1)
          then fail "flushSize must be a positive number"
          else Ok tt.

(** The part of the merged configuration read below. *)
Record Config : Type := mkConfig {
  sampleRate : number;
  privacyMode : PrivacyMode;
  debug : bool
}.

(** The engine the constructor builds: [new PrivacyEngine(this.config.privacyMode)]. *)
Definition privacyEngine (config : Config) : PrivacyEngine.t :=
  PrivacyEngine.mk (privacyMode config).

(** The three ways out of [shouldInitialize]. *)
Inductive verdict : Type :=
| ExcludedBySampling
| ExcludedByPerformance
| Accepted.

(** [shouldInitialize()]: the path taken, the console output and the
    session manager after the call. *)
Definition shouldInitializePath (config : Config) (sessionManager : SessionManager.t)
    (nav : PerformanceMonitor.navigator) : verdict * list logEntry * SessionManager.t :=
  let (samplingDecision, sessionManager) :=
    SessionManager.shouldTrackSession (sampleRate config) sessionManager in
  if negb samplingDecision
  then (ExcludedBySampling,
        if debug config then [ConsoleLog "[InsightLite] Session excluded by sampling"] else [],
        sessionManager)
  else
    let performanceScore := PerformanceMonitor.getDevicePerformanceScore nav in
    if Qltb performanceScore 0.3
    then (ExcludedByPerformance,
          if debug config
          then [ConsoleLog "[InsightLite] Session excluded due to low device performance"]
          else [],
          sessionManager)
    else (Accepted, [], sessionManager).

Definition shouldInitialize (config : Config) (sessionManager : SessionManager.t)
    (nav : PerformanceMonitor.navigator) : bool :=
  match shouldInitializePath config sessionManager nav with
  | (Accepted, _, _) => true
  | _ => false
  end.

End InsightLiteSDK.

(* ================================================================== *)
(** * PerformanceMonitor (performance.ts): load metrics                *)
(* ================================================================== *)

Module PerformanceLoad.

Local Open Scope Q_scope.

(** [PerformanceMetrics] ([this.metrics]). *)
Record metrics : Type := mkMetrics {
  cpuUsage : Q;
  memoryUsage : Q;
  networkLatency : Q;
  renderTime : Q
}.

(** The metrics set by the constructor. *)
Definition init : metrics := mkMetrics 0 0 0 0.

(** [processlongTasks(entries)], each entry given by its [duration]. *)
Definition processlongTasks (entries : list Q) (m : metrics) : metrics :=
  let totalBlockingTime :=
    fold_left (fun total duration =>
                 if Qltb 50 duration then total + (duration - 50) else total)
              entries 0 in
  let windowSize := 5000 in
  mkMetrics (Qmin (totalBlockingTime / windowSize) 1.0)
            (memoryUsage m) (networkLatency m) (renderTime m).

(** What [measureBlockingTime(fn)] and [measureAsyncBlockingTime(fn)] do
    to the metrics, [blockingTime] being the time that [fn] took. *)
Definition measureBlockingTime (blockingTime : Q) (m : metrics) : metrics :=
  if Qltb 50 blockingTime
  then mkMetrics (Qmin (cpuUsage m + blockingTime / 1000) 1.0)
                 (memoryUsage m) (networkLatency m) (renderTime m)
  else m.

(** [updateMemoryMetrics()] and [updateNetworkLatency()], the reading of
    the host being the argument. *)
Definition updateMemoryMetrics (usedJSHeapSize : Q) (m : metrics) : metrics :=
  mkMetrics (cpuUsage m) usedJSHeapSize (networkLatency m) (renderTime m).
Definition updateNetworkLatency (rtt : Q) (m : metrics) : metrics :=
  if Qeq_bool rtt 0 then m      (* if (connection && connection.rtt) *)
  else mkMetrics (cpuUsage m) (memoryUsage m) rtt (renderTime m).

(** [measureNetworkLatency()], the fallback of [updateNetworkLatency()],
    when its request succeeds after [elapsed] milliseconds. *)
Definition measureNetworkLatency (elapsed : Q) (m : metrics) : metrics :=
  mkMetrics (cpuUsage m) (memoryUsage m) elapsed (renderTime m).

(** [processLayoutShifts(entries)], each entry given by its [value] when it
    has a numeric one. *)
Definition processLayoutShifts (entries : list (option Q)) (m : metrics) : metrics :=
  fold_left (fun m entry =>
               match entry with
               | Some value =>
                   mkMetrics (cpuUsage m) (memoryUsage m) (networkLatency m)
                             (renderTime m + value)
               | None => m
               end) entries m.

(** [processPaintTiming(entries)], each entry given by its [name] and
    [startTime]. *)
Definition processPaintTiming (entries : list (jsstring * Q)) (m : metrics) : metrics :=
  fold_left (fun m entry =>
               if list_eq_dec Z.eq_dec (fst entry) (lit "first-contentful-paint")
               then mkMetrics (cpuUsage m) (memoryUsage m) (networkLatency m) (snd entry)
               else m) entries m.

(** [cleanupOldMetrics()]. *)
Definition cleanupOldMetrics (m : metrics) : metrics :=
  mkMetrics (cpuUsage m) (memoryUsage m) (networkLatency m)
            (Qmax (renderTime m - 1) 0).

(** [shouldReduceActivity()] and [shouldThrottleEvents()]. *)
Definition shouldReduceActivity (m : metrics) : bool :=
  Qltb 0.8 (cpuUsage m) ||
  Qltb (50 * 1024 * 1024) (memoryUsage m) ||
  Qltb 1000 (networkLatency m).

Definition shouldThrottleEvents (m : metrics) : bool :=
  Qltb 0.6 (cpuUsage m) ||
  Qltb (20 * 1024 * 1024) (memoryUsage m) ||
  Qltb 500 (networkLatency m).

(** [calculatePerformanceScore()]. *)
Definition calculatePerformanceScore (m : metrics) : Q :=
  let score := 1.0 in
  let score := score - Qmin (cpuUsage m * 0.4) 0.4 in
  let memoryPenalty := Qmin (memoryUsage m / (100 * 1024 * 1024)) 1.0 * 0.3 in
  let score := score - memoryPenalty in
  let latencyPenalty := Qmin (networkLatency m / 2000) 1.0 * 0.2 in
  let score := score - latencyPenalty in
  let renderPenalty := Qmin (renderTime m / 3000) 1.0 * 0.1 in
  let score := score - renderPenalty in
  Qmax score 0.

(** [getPerformanceGrade()]. *)
Inductive grade : Type := A | B | C | D | F.

Definition getPerformanceGrade (m : metrics) : grade :=
  let score := calculatePerformanceScore m in
  if Qle_bool 0.9 score then A
  else if Qle_bool 0.8 score then B
  else if Qle_bool 0.7 score then C
  else if Qle_bool 0.6 score then D
  else F.

(** [getAdaptiveSampleRate(baseSampleRate)]. *)
Definition getAdaptiveSampleRate (m : metrics) (baseSampleRate : Q) : Q :=
  let performanceScore := calculatePerformanceScore m in
  if Qltb performanceScore 0.5 then baseSampleRate * 0.5
  else if Qltb performanceScore 0.7 then baseSampleRate * 0.75
  else baseSampleRate.

(** The updates of the metrics that the monitor makes while it runs. *)
Inductive update : Type :=
| LongTasks (entries : list Q)
| Blocking (blockingTime : Q)
| Memory (usedJSHeapSize : Q)
| Latency (rtt : Q)
| MeasuredLatency (elapsed : Q)
| LayoutShifts (entries : list (option Q))
| PaintTiming (entries : list (jsstring * Q))
| Cleanup.

Definition apply (m : metrics) (u : update) : metrics :=
  match u with
  | LongTasks entries => processlongTasks entries m
  | Blocking blockingTime => measureBlockingTime blockingTime m
  | Memory usedJSHeapSize => updateMemoryMetrics usedJSHeapSize m
  | Latency rtt => updateNetworkLatency rtt m
  | MeasuredLatency elapsed => measureNetworkLatency elapsed m
  | LayoutShifts entries => processLayoutShifts entries m
  | PaintTiming entries => processPaintTiming entries m
  | Cleanup => cleanupOldMetrics m
  end.

Definition run (us : list update) : metrics := fold_left apply us init.

End PerformanceLoad.

(* ================================================================== *)
(** * PrivacyEngine (privacy.ts): coordinates, form and click events   *)
(* ================================================================== *)

Module PrivacyEvents.
Import Regex PrivacyText PrivacyEngine.

(** [{ x: number; y: number }], finite coordinates. *)
Record coords : Type := mkCoords { x : Q; y : Q }.

(** [truncateCoordinates(coords)]. *)
Definition truncateCoordinates (c : coords) : coords :=
  let precision := 10%Q in
  mkCoords (inject_Z (Qfloor (x c / precision)) * precision)%Q
           (inject_Z (Qfloor (y c / precision)) * precision)%Q.

(** What the engine and the collector read of an [HTMLElement].  The
    document is the host's: its answers are fields of the element. *)
Record element : Type := mkElement {
  elTagName : jsstring;
  elClassName : jsstring;
  elId : jsstring;
  elTextContent : option jsstring;            (* null on some nodes *)
  hasAttribute : jsstring -> bool;
  getAttribute : jsstring -> option jsstring;
  attributes : option (list jsstring)         (* the names, in order *)
}.

(** [String.prototype.endsWith], [slice] and the first piece of [split]
    by a one-character separator. *)
Definition endsWith (needle hay : jsstring) : bool :=
  startsWith (rev needle) (rev hay).

Definition slice (start stop : Z) (s : jsstring) : jsstring :=
  let len := Z.of_nat (length s) in
  let from := if start <? 0 then Z.max (len + start) 0 else Z.min start len in
  let to := if stop <? 0 then Z.max (len + stop) 0 else Z.min stop len in
  substring s (Z.to_nat from) (Z.to_nat to).

Fixpoint splitHead (separator : char) (s : jsstring) : jsstring :=
  match s with
  | [] => []
  | c :: s' => if c =? separator then [] else c :: splitHead separator s'
  end.

(** [this.sensitiveInputSelectors]; [input[attr op "text"]] is written
    with the code unit 34 of the quotation mark. *)
Definition inputSelector (attr op text : string) : jsstring :=
  lit "input[" ++ lit attr ++ lit op ++ [34] ++ lit text ++ [34] ++ lit "]".

Definition sensitiveInputSelectors : list jsstring :=
  [inputSelector "type" "=" "password"; inputSelector "type" "=" "email";
   inputSelector "name" "*=" "email"; inputSelector "name" "*=" "password";
   inputSelector "name" "*=" "pass"; inputSelector "name" "*=" "pwd";
   inputSelector "name" "*=" "firstName"; inputSelector "name" "*=" "first_name";
   inputSelector "name" "*=" "first-name"; inputSelector "name" "*=" "lastName";
   inputSelector "name" "*=" "last_name"; inputSelector "name" "*=" "last-name";
   inputSelector "name" "*=" "phone"; inputSelector "name" "*=" "tel";
   inputSelector "name" "*=" "mobile"; inputSelector "name" "*=" "ssn";
   inputSelector "name" "*=" "social"; inputSelector "name" "*=" "creditcard";
   inputSelector "name" "*=" "credit_card"; inputSelector "name" "*=" "credit-card";
   inputSelector "name" "*=" "cardnumber"; inputSelector "name" "*=" "card_number";
   inputSelector "name" "*=" "card-number";
   lit "[data-sensitive]"; lit "[data-private]"; lit "[data-personal]"].

(** [FormEvent]: the target as [collectFormEvent] builds it. *)
Record FormTarget : Type := mkTarget {
  tagName : jsstring;
  type : jsstring;
  name : jsstring;
  value : JsValue;
  placeholder : jsstring
}.

Record FormEvent : Type := mkFormEvent {
  target : option FormTarget;
  eventType : jsstring
}.

Section Host.

Variable toLowerCase : jsstring -> jsstring.
Variable numberToString : number -> jsstring.

(** [isSensitiveFieldName(name)]. *)
Definition isSensitiveFieldName (name : jsstring) : bool :=
  isSensitiveField toLowerCase name.

(** [isSensitiveInput(target, element)]. *)
Definition isSensitiveInput (target : FormTarget) (element : option element) : bool :=
  if match type target with [] => false | _ => true end &&
     existsb (fun t => if list_eq_dec Z.eq_dec t (type target) then true else false)
             [lit "password"; lit "email"]
  then true
  else if match name target with [] => false | _ => true end &&
          isSensitiveFieldName (name target)
  then true
  else
    match element with
    | Some element =>
        existsb (fun selector =>
                   startsWith (lit "[") selector && endsWith (lit "]") selector &&
                   let attrName := splitHead 61 (slice 1 (-1) selector) in
                   hasAttribute element attrName)
                sensitiveInputSelectors
    | None => false
    end.

(** [shouldMaskInput(target, element)]. *)
Definition shouldMaskInput (this : PrivacyEngine.t) (target : option FormTarget)
    (element : option element) : bool :=
  match target with
  | None => false
  | Some target =>
      match mode this with
      | strict => true
      | permissive =>
          match element with
          | Some element =>
              hasAttribute element (lit "data-sensitive") ||
              hasAttribute element (lit "data-private") ||
              (if list_eq_dec Z.eq_dec (type target) (lit "password") then true else false)
          | None =>
              if list_eq_dec Z.eq_dec (type target) (lit "password") then true else false
          end
      | balanced => isSensitiveInput target element
      end
  end.

(** [sanitizeFormEvent(formEvent, element)]. *)
Definition sanitizeFormEvent (this : PrivacyEngine.t) (formEvent : FormEvent)
    (element : option element) : FormEvent :=
  match target formEvent with
  | None => formEvent
  | Some t =>
      if shouldMaskInput this (Some t) element
      then mkFormEvent
             (Some (mkTarget (tagName t) (type t) (name t)
                             (JString (maskValue numberToString (value t)))
                             (placeholder t)))
             (eventType formEvent)
      else mkFormEvent (Some t) (eventType formEvent)
  end.

End Host.

(** Case-insensitive comparison of [Canonicalize] for a pattern character
    of the ASCII range: a code unit outside that range never folds to
    one inside it. *)
Definition canonicalize (c : char) : char :=
  if (97 <=? c) && (c <=? 122) then c - 32 else c.

Definition literal (text : string) : re :=
  cat (map (fun c => Cls (fun d => canonicalize d =? canonicalize c)) (lit text)).

(** The three shapes of [this.sensitiveAttributePatterns], all with the
    [i] flag. *)
Inductive attributePattern : Type :=
| AtStart (text : string)      (* /^text/i *)
| Exactly (text : string)      (* /^text$/i *)
| Anywhere (text : string).    (* /text/i *)

Definition sensitiveAttributePatterns : list attributePattern :=
  [AtStart "data-user"; AtStart "data-customer"; AtStart "data-session";
   AtStart "data-auth"; AtStart "data-token"; AtStart "data-key";
   Exactly "data-id"; Anywhere "userid"; Anywhere "customerid";
   Anywhere "sessionid"].

(** [pattern.test(attrName)]. *)
Definition test (pattern : attributePattern) (attrName : jsstring) : bool :=
  match pattern with
  | AtStart text =>
      match ends (literal text) attrName 0 with [] => false | _ => true end
  | Exactly text =>
      existsb (Nat.eqb (length attrName)) (ends (literal text) attrName 0)
  | Anywhere text =>
      match EventTransport.exec (literal text) attrName with
      | Some _ => true
      | None => false
      end
  end.

(** [isSensitiveAttribute(attrName)]. *)
Definition isSensitiveAttribute (attrName : jsstring) : bool :=
  existsb (fun pattern => test pattern attrName) sensitiveAttributePatterns.

(** [delete target[key]] on the own properties of a plain object. *)
Definition deleteProperty (o : list (jsstring * JsValue)) (key : jsstring)
    : list (jsstring * JsValue) :=
  filter (fun kv => if list_eq_dec Z.eq_dec (fst kv) key then false else true) o.

(** [removeSensitiveAttributes(target, element)]. *)
Definition removeSensitiveAttributes (target : list (jsstring * JsValue))
    (element : element) : list (jsstring * JsValue) :=
  match attributes element with
  | None => target
  | Some names =>
      fold_left (fun target attrName =>
                   if isSensitiveAttribute attrName
                   then deleteProperty target attrName
                   else target)
                names target
  end.

(** [anonymizeText(text)] on any value. *)
Definition anonymizeText (text : JsValue) : JsValue :=
  match text with
  | JString s => JString (PrivacyText.anonymizeText s)
  | _ => text
  end.

(** [ClickEvent] as [collectClickEvent] builds it; the target is the
    object of [extractElementInfo], or null. *)
Record ClickEvent : Type := mkClickEvent {
  clickX : Q;
  clickY : Q;
  clickTarget : option (list (jsstring * JsValue));
  button : Z;
  isRageClick : bool;
  modifiers : bool * bool * bool * bool
}.

(** [sanitizeClickEvent(clickEvent, element)]. *)
Definition sanitizeClickEvent (clickEvent : ClickEvent) (element : option element)
    : ClickEvent :=
  match clickTarget clickEvent with
  | None => clickEvent
  | Some t =>
      let t := match element with
               | Some element => removeSensitiveAttributes t element
               | None => t
               end in
      let textContent := InsightLiteSDK.getProp (JObject t) "textContent" in
      let t := if InsightLiteSDK.truthy textContent
               then assign t (lit "textContent") (anonymizeText textContent)
               else t in
      mkClickEvent (clickX clickEvent) (clickY clickEvent) (Some t)
                   (button clickEvent) (isRageClick clickEvent) (modifiers clickEvent)
  end.

End PrivacyEvents.

(* ================================================================== *)
(** * SessionManager (session.ts): quality, rate limit and bots        *)
(* ================================================================== *)

Module SessionActivity.

(** [this.maxEventsPerMinute]. *)
Definition maxEventsPerMinute : Z := 1000.

(** [getSessionQuality()], from the duration and the two counters. *)
Definition getSessionQuality (duration pageCount eventCount : Q) : Q :=
  let score := 0%Q in
  let score := if Qltb 30000 duration then (score + 0.1)%Q else score in
  let score := if Qltb 120000 duration then (score + 0.1)%Q else score in
  let score := if Qltb 300000 duration then (score + 0.1)%Q else score in
  let score := if Qltb 600000 duration then (score + 0.1)%Q else score in
  let score := (score + Qmin (pageCount * 0.1) 0.3)%Q in
  let score := (score + Qmin (eventCount * 0.01) 0.3)%Q in
  Qmin score 1.0.

(** The rate limiter: [this.eventTimestamps]. *)
Record t : Type := mk { eventTimestamps : list Z }.

Definition init : t := mk [].

(** [shouldRateLimit()], [now] being the reading of [Date.now()]: the
    answer and the manager after the call. *)
Definition shouldRateLimit (now : Z) (this : t) : bool * t :=
  let oneMinuteAgo := now - 60000 in
  let this := mk (filter (fun ts => ts >? oneMinuteAgo) (eventTimestamps this)) in
  if Z.of_nat (length (eventTimestamps this)) >=? maxEventsPerMinute
  then (true, this)
  else (false, mk (eventTimestamps this ++ [now])).

(** A run of calls, one per clock reading, with the log of the readings
    and the answers. *)
Definition step (st : t * list (Z * bool)) (now : Z) : t * list (Z * bool) :=
  let (limited, this) := shouldRateLimit now (fst st) in
  (this, snd st ++ [(now, limited)]).

Definition run (clock : list Z) : t * list (Z * bool) :=
  fold_left step clock (init, []).

(** [isProbablyBot()], the user agent being the argument. *)
Definition botPatterns : list jsstring :=
  map lit ["bot"; "crawl"; "spider"; "scrape"; "curl"; "wget";
           "facebookexternalhit"; "twitterbot"; "linkedinbot";
           "slackbot"; "whatsapp"; "telegrambot"; "googlebot";
           "bingbot"; "yandexbot"; "duckduckbot"; "baiduspider"]%string.

Definition isProbablyBot (toLowerCase : jsstring -> jsstring) (navigatorUserAgent : jsstring)
    : bool :=
  let userAgent := toLowerCase navigatorUserAgent in
  existsb (fun pattern => includes pattern userAgent) botPatterns.

End SessionActivity.

(* ================================================================== *)
(** * EventTransport (transport.ts): fallback compression              *)
(* ================================================================== *)

Module Compression.

(** [`${current}`]: a code unit as a string, [undefined] by its name. *)
Definition show (current : option char) : jsstring :=
  match current with
  | Some c => [c]
  | None => lit "undefined"
  end.

(** [count > 1 ? `${count}${current}` : current], appended to a string. *)
Definition emitRun (count : Z) (current : option char) : jsstring :=
  if count >? 1 then toStringRadix 10 count ++ show current else show current.

(** The loop of [simpleCompress] over [data[1]], [data[2]], ... *)
Fixpoint loop (data : jsstring) (compressed : jsstring) (count : Z)
    (current : option char) : jsstring :=
  match data with
  | [] => compressed ++ emitRun count current
  | d :: data' =>
      if match current with Some c => d =? c | None => false end && (count <? 255)
      then loop data' compressed (count + 1) current
      else loop data' (compressed ++ emitRun count current) 1 (Some d)
  end.

(** [simpleCompress(data)]: the string handed to [TextEncoder]. *)
Definition simpleCompress (data : jsstring) : jsstring :=
  let compressed := [] in
  let count := 1 in
  let current := hd_error data in
  loop (tl data) compressed count current.

End Compression.

(* ================================================================== *)
(** * EventTransport (transport.ts): the batch queue and its timer     *)
(* ================================================================== *)

Module BatchQueue.
Import EventCollector.

(** [batchSize] and [batchTimeout], as the constructor sets them; the
    constructor sets no [rateLimit], so [send] never waits. *)
Definition batchSize : Z := 100.
Definition batchTimeout : Z := 5000.

(** The transport as far as batching goes.  The host's timers are part of
    the state: [timers] holds the handle and delay of every timer that was
    set and has neither fired nor been cleared, [nextHandle] is the handle
    that the next [setTimeout] returns (handles are positive numbers). *)
Record t : Type := mk {
  batchQueue : list EventData;
  batchTimer : option positive;             (* number | null *)
  timers : list (positive * Z);
  nextHandle : positive;
  dispatched : list (list EventData)        (* arguments of sendBatch, oldest first *)
}.

Definition init : t := mk [] None [] 1%positive [].

(** [clearTimeout(handle)]. *)
Definition clearTimeout (handle : positive) (w : t) : t :=
  mk (batchQueue w) (batchTimer w)
     (filter (fun timer => negb (Pos.eqb (fst timer) handle)) (timers w))
     (nextHandle w) (dispatched w).

(** The part of [processBatch()] and of [disconnect()] that drops the
    timer: [if (this.batchTimer) { clearTimeout(...); this.batchTimer = null }]. *)
Definition dropTimer (w : t) : t :=
  match batchTimer w with
  | Some handle =>
      let w := clearTimeout handle w in
      mk (batchQueue w) None (timers w) (nextHandle w) (dispatched w)
  | None => w
  end.

(** [processBatch()], up to the call of [sendBatch]. *)
Definition processBatch (w : t) : t :=
  match batchQueue w with
  | [] => w
  | _ :: _ =>
      let batch := batchQueue w in
      let w := mk [] (batchTimer w) (timers w) (nextHandle w) (dispatched w) in
      let w := dropTimer w in
      mk (batchQueue w) (batchTimer w) (timers w) (nextHandle w) (dispatched w ++ [batch])
  end.

(** [send(events)], up to its first suspension. *)
Definition send (events : list EventData) (w : t) : t :=
  match events with
  | [] => w
  | _ :: _ =>
      let w := mk (batchQueue w ++ events) (batchTimer w) (timers w) (nextHandle w)
                  (dispatched w) in
      if Z.of_nat (length (batchQueue w)) >=? batchSize
      then processBatch w
      else
        match batchTimer w with
        | None =>
            let handle := nextHandle w in
            mk (batchQueue w) (Some handle) (timers w ++ [(handle, batchTimeout)])
               (Pos.succ handle) (dispatched w)
        | Some _ => w
        end
  end.

(** [disconnect()], as far as batching goes. *)
Definition disconnect (w : t) : t := dropTimer w.

(** The host runs the callback of the timer [handle], if it is still set:
    [() => { this.processBatch() }]. *)
Definition fire (handle : positive) (w : t) : t :=
  if existsb (fun timer => Pos.eqb (fst timer) handle) (timers w)
  then processBatch (clearTimeout handle w)
  else w.

(** What happens to a transport, in order. *)
Inductive call : Type :=
| Send (events : list EventData)
| Fire (handle : positive)
| Disconnect.

Definition step (w : t) (c : call) : t :=
  match c with
  | Send events => send events w
  | Fire handle => fire handle w
  | Disconnect => disconnect w
  end.

Definition run (cs : list call) : t := fold_left step cs init.

End BatchQueue.

(* ================================================================== *)
(** * EventTransport (transport.ts): the WebSocket and its reconnection *)
(* ================================================================== *)

Module Reconnect.

Definition maxReconnectAttempts : Z := 5.
Definition reconnectDelay : Z := 1000.

(** What the handlers of the socket do that can be seen from outside. *)
Inductive action : Type :=
| Emit (event : string)           (* this.emit(event, ...) *)
| SetTimeout (delay : Z)          (* the timer of scheduleReconnect *)
| ConsoleError (text : string).

(** [this.isConnected], [this.reconnectAttempts], and the actions so far.
    [this.eventQueue], which [handleWebSocketOpen] flushes, is left out:
    no method of the class adds to it, so it is always empty. *)
Record t : Type := mk {
  isConnected : bool;
  reconnectAttempts : Z;
  trace : list action
}.

Definition init : t := mk false 0 [].

Definition emit (event : string) (w : t) : t :=
  mk (isConnected w) (reconnectAttempts w) (trace w ++ [Emit event]).

(** [handleWebSocketOpen()]. *)
Definition handleWebSocketOpen (w : t) : t :=
  let w := mk true 0 (trace w) in
  emit "connected" w.

(** [scheduleReconnect()]. *)
Definition scheduleReconnect (w : t) : t :=
  let w := mk (isConnected w) (reconnectAttempts w + 1) (trace w) in
  let delay := Z.min (reconnectDelay * 2 ^ (reconnectAttempts w - 1)) 30000 in
  mk (isConnected w) (reconnectAttempts w) (trace w ++ [SetTimeout delay]).

(** [handleWebSocketClose(event)], [code] being [event.code]. *)
Definition handleWebSocketClose (code : Z) (w : t) : t :=
  let w := mk false (reconnectAttempts w) (trace w) in
  let w := emit "disconnected" w in
  if negb (code =? 1000) && (reconnectAttempts w <? maxReconnectAttempts)
  then scheduleReconnect w
  else w.

(** [handleWebSocketError(error)]. *)
Definition handleWebSocketError (w : t) : t :=
  let w := mk (isConnected w) (reconnectAttempts w)
              (trace w ++ [ConsoleError "[Transport] WebSocket error:"]) in
  emit "error" w.

(** [disconnect()], as far as the connection goes. *)
Definition disconnect (w : t) : t := mk false 0 (trace w).

(** [fallbackToHttp()], and the [catch] branch of [connect()] that calls
    it when the socket cannot be created. *)
Definition fallbackToHttp (w : t) : t := mk false (reconnectAttempts w) (trace w).

Definition connectFailed (w : t) : t :=
  let w := mk (isConnected w) (reconnectAttempts w)
              (trace w ++ [ConsoleError "[Transport] WebSocket creation failed:"]) in
  fallbackToHttp w.

(** What happens to the connection, in order. *)
Inductive event : Type :=
| Open
| Close (code : Z)
| SocketError
| Disconnect
| ConnectFailed.

Definition step (w : t) (e : event) : t :=
  match e with
  | Open => handleWebSocketOpen w
  | Close code => handleWebSocketClose code w
  | SocketError => handleWebSocketError w
  | Disconnect => disconnect w
  | ConnectFailed => connectFailed w
  end.

Definition run (es : list event) : t := fold_left step es init.

Fixpoint delays (tr : list action) : list Z :=
  match tr with
  | [] => []
  | SetTimeout d :: tr' => d :: delays tr'
  | _ :: tr' => delays tr'
  end.

End Reconnect.

(* ================================================================== *)
(** * EventCollector (events.ts): clicks, mouse moves and scrolling    *)
(* ================================================================== *)

Module EventCollection.
Import PrivacyEngine PrivacyEvents.

(** An entry of [this.clickHistory]. *)
Record click : Type := mkClick { x : Q; y : Q; timestamp : Z }.

(** What the collector reads of a [MouseEvent]. *)
Record MouseEvent : Type := mkMouseEvent {
  target : option element;
  clientX : Q;
  clientY : Q;
  evButton : Z;
  ctrlKey : bool;
  shiftKey : bool;
  altKey : bool;
  metaKey : bool
}.

(** [MouseMoveEvent]. *)
Record MouseMoveEvent : Type := mkMouseMove { moveX : Q; moveY : Q; moveTimestamp : Z }.

(** What the collector reads of the window for a [ScrollEvent]. *)
Record window : Type := mkWindow {
  scrollX : Q;
  scrollY : Q;
  scrollHeight : Q;        (* document.documentElement.scrollHeight *)
  scrollWidth : Q;
  innerHeight : Q;
  innerWidth : Q
}.

(** What a call reads of its surroundings: the metrics of the performance
    monitor, the draw of [Math.random()], [Date.now()] and the window. *)
Record environment : Type := mkEnv {
  metrics : PerformanceLoad.metrics;
  random : Q;
  now : Z;
  win : window
}.

(** The state of a function returned by [throttle(func, limit)]: its
    [inThrottle] flag. *)
Record throttle : Type := mkThrottle { inThrottle : bool }.

(** The collector. *)
Record t : Type := mk {
  buffer : EventCollector.t;     (* flushSize, effectiveSampleRate, events *)
  sampleRate : Q;                (* this.config.sampleRate *)
  enableHeatmaps : bool;         (* this.config.enableHeatmaps *)
  clickHistory : list click;
  lastScrollTime : Z;
  lastMouseMoveTime : Z;
  mouseMoveCounter : Z;
  throttledScrollHandler : throttle;
  throttledMouseMoveHandler : throttle
}.

(** The result of a handler that may return an event, [null], or nothing
    at all. *)
Inductive outcome (A : Type) : Type :=
| Null
| Undefined
| Value (a : A).
Arguments Null {A}.
Arguments Undefined {A}.
Arguments Value {A} a.

(** [shouldCollectEvent(eventType)] in these surroundings. *)
Definition shouldCollectEvent (this : t) (env : environment) (eventType : string) : bool :=
  EventCollector.shouldCollectEvent (buffer this)
    (EventCollector.mkEnv (PerformanceLoad.shouldReduceActivity (metrics env)) (random env))
    (lit eventType).

(** [detectRageClick(clickData)]. *)
Definition detectRageClick (clickHistory : list click) (clickData : click) : bool :=
  let recentClicks :=
    filter (fun click =>
              (timestamp clickData - timestamp click <? 1000) &&
              Qltb (Qabs (x click - x clickData)) 50 &&
              Qltb (Qabs (y click - y clickData)) 50)
           clickHistory in
  (3 <=? length recentClicks)%nat.

(** [extractRelevantAttributes(element)]. *)
Definition relevantAttrs : list jsstring :=
  map lit ["href"; "src"; "alt"; "title"; "role"; "aria-label"]%string.

Definition extractRelevantAttributes (element : element) : list (jsstring * JsValue) :=
  fold_left (fun attrs attr =>
               match getAttribute element attr with
               | Some (c :: value) =>
                   assign attrs attr (JString (Regex.substring (c :: value) 0 100))
               | _ => attrs
               end)
            relevantAttrs [].

(** [extractElementInfo(element)]: the object, or [null]. *)
Definition extractElementInfo (element : option element)
    : option (list (jsstring * JsValue)) :=
  match element with
  | None => None
  | Some element =>
      Some [(lit "tagName", JString (elTagName element));
            (lit "className", JString (elClassName element));
            (lit "id", JString (elId element));
            (lit "textContent",
             match elTextContent element with
             | Some text => JString (Regex.substring text 0 100)
             | None => JUndefined
             end);
            (lit "attributes", JObject (extractRelevantAttributes element))]
  end.

(** [collectClickEvent(event)]. *)
Definition collectClickEvent (env : environment) (event : MouseEvent) (this : t)
    : option ClickEvent * t :=
  match target event with
  | None => (None, this)
  | Some target =>
      if negb (shouldCollectEvent this env "click") then (None, this)
      else
        let now := now env in
        let clickData := mkClick (clientX event) (clientY event) now in
        let history := clickHistory this ++ [clickData] in
        let history := filter (fun click => now - timestamp click <? 2000) history in
        let this := mk (buffer this) (sampleRate this) (enableHeatmaps this) history
                       (lastScrollTime this) (lastMouseMoveTime this)
                       (mouseMoveCounter this) (throttledScrollHandler this)
                       (throttledMouseMoveHandler this) in
        let isRageClick := detectRageClick (clickHistory this) clickData in
        let clickEvent :=
          mkClickEvent (clientX event) (clientY event)
                       (extractElementInfo (Some target)) (evButton event) isRageClick
                       (ctrlKey event, shiftKey event, altKey event, metaKey event) in
        (Some (sanitizeClickEvent clickEvent (Some target)), this)
  end.

(** [getMouseMoveSampleRate()]. *)
Definition getMouseMoveSampleRate (env : environment) : Z :=
  if PerformanceLoad.shouldThrottleEvents (metrics env) then 10
  else if PerformanceLoad.shouldReduceActivity (metrics env) then 20
  else 5.

(** [collectMouseMoveEventInternal(event)]. *)
Definition collectMouseMoveEventInternal (env : environment) (event : MouseEvent)
    (this : t) : option MouseMoveEvent * t :=
  let now := now env in
  if now - lastMouseMoveTime this <? 100 then (None, this)
  else
    let this := mk (buffer this) (sampleRate this) (enableHeatmaps this)
                   (clickHistory this) (lastScrollTime this) now
                   (mouseMoveCounter this + 1) (throttledScrollHandler this)
                   (throttledMouseMoveHandler this) in
    let sampleRate := getMouseMoveSampleRate env in
    if negb (Z.rem (mouseMoveCounter this) sampleRate =? 0) then (None, this)
    else (Some (mkMouseMove (clientX event) (clientY event) now), this).

(** The function that [throttle(func, limit)] returns, for the two
    functions it is applied to.  It calls [func] when it is not throttled,
    and has no [return]: its value is [undefined]. *)
Definition callThrottledMouseMove (env : environment) (event : MouseEvent) (this : t)
    : outcome MouseMoveEvent * t :=
  if negb (inThrottle (throttledMouseMoveHandler this))
  then
    let (_, this) := collectMouseMoveEventInternal env event this in
    (Undefined,
     mk (buffer this) (sampleRate this) (enableHeatmaps this) (clickHistory this)
        (lastScrollTime this) (lastMouseMoveTime this) (mouseMoveCounter this)
        (throttledScrollHandler this) (mkThrottle true))
  else (Undefined, this).

(** [collectMouseMoveEvent(event)]. *)
Definition collectMouseMoveEvent (env : environment) (event : MouseEvent) (this : t)
    : outcome MouseMoveEvent * t :=
  if negb (enableHeatmaps this) || negb (shouldCollectEvent this env "mousemove")
  then (Null, this)
  else callThrottledMouseMove env event this.

(** [Math.round]. *)
Definition round (q : Q) : Z := Qfloor (q + (1 # 2))%Q.

(** [calculateScrollPercentage()]. *)
Definition calculateScrollPercentage (w : window) : Z :=
  let scrollTop := scrollY w in
  let documentHeight := scrollHeight w in
  let windowHeight := innerHeight w in
  let scrollableHeight := (documentHeight - windowHeight)%Q in
  if Qle_bool scrollableHeight 0 then 100
  else round ((scrollTop / scrollableHeight) * 100)%Q.

(** [ScrollEvent], as far as the page position goes. *)
Record ScrollEvent : Type := mkScroll {
  evScrollX : Q;
  evScrollY : Q;
  documentHeight : Q;
  documentWidth : Q;
  viewportHeight : Q;
  viewportWidth : Q;
  scrollPercentage : Z
}.

(** [collectScrollEventInternal()]. *)
Definition collectScrollEventInternal (env : environment) (this : t)
    : option ScrollEvent * t :=
  let now := now env in
  if now - lastScrollTime this <? 150 then (None, this)
  else
    let this := mk (buffer this) (sampleRate this) (enableHeatmaps this)
                   (clickHistory this) now (lastMouseMoveTime this)
                   (mouseMoveCounter this) (throttledScrollHandler this)
                   (throttledMouseMoveHandler this) in
    let w := win env in
    (Some (mkScroll (scrollX w) (scrollY w) (scrollHeight w) (scrollWidth w)
                    (innerHeight w) (innerWidth w) (calculateScrollPercentage w)),
     this).

Definition callThrottledScroll (env : environment) (this : t)
    : outcome ScrollEvent * t :=
  if negb (inThrottle (throttledScrollHandler this))
  then
    let (_, this) := collectScrollEventInternal env this in
    (Undefined,
     mk (buffer this) (sampleRate this) (enableHeatmaps this) (clickHistory this)
        (lastScrollTime this) (lastMouseMoveTime this) (mouseMoveCounter this)
        (mkThrottle true) (throttledMouseMoveHandler this))
  else (Undefined, this).

(** [collectScrollEvent()]. *)
Definition collectScrollEvent (env : environment) (this : t)
    : outcome ScrollEvent * t :=
  if negb (shouldCollectEvent this env "scroll") then (Null, this)
  else callThrottledScroll env this.

(** A collector right after construction. *)
Definition init (flushSize : Z) (sampleRate : Q) (enableHeatmaps : bool) : t :=
  mk (EventCollector.init flushSize sampleRate) sampleRate enableHeatmaps
     [] 0 0 0 (mkThrottle false) (mkThrottle false).

(** A run of clicks, each with its surroundings, and the click events
    returned. *)
Definition clickStep (st : t * list (option ClickEvent))
    (c : environment * MouseEvent) : t * list (option ClickEvent) :=
  let (r, this) := collectClickEvent (fst c) (snd c) (fst st) in
  (this, snd st ++ [r]).

Definition clicks (cs : list (environment * MouseEvent)) (this : t)
    : t * list (option ClickEvent) :=
  fold_left clickStep cs (this, []).

End EventCollection.

(* ================================================================== *)
(** * InsightLiteSDK (core.ts): tracking, flushing and the life cycle  *)
(* ================================================================== *)

Module Tracking.
Import PrivacyEngine EventCollection.

(** The SDK after its constructor has built the parts.  Of the session
    manager only the sampling decision and the two counters are kept: its
    [updateActivity()] writes [lastActivity] and the local storage, and
    [saveMetadata] warns on the console when the local storage refuses the
    write; the last activity, the storage and that warning are not part of
    this state.  The transport is its batch queue with the timers of the
    host; [console] is the output of the SDK itself so far, without the
    warnings of the session manager. *)
Record t : Type := mk {
  debug : bool;                          (* this.config.debug *)
  isInitialized : bool;
  isDestroyed : bool;
  sessionManager : SessionManager.t;
  pageCount : Z;                         (* sessionManager.metadata.pageCount *)
  eventCount : Z;                        (* sessionManager.metadata.eventCount *)
  privacyEngine : PrivacyEngine.t;
  eventCollector : EventCollection.t;
  transport : BatchQueue.t;
  console : list logEntry
}.

(** [this.config.flushSize]: the collector holds the same configuration. *)
Definition flushSize (this : t) : Z :=
  EventCollector.flushSize (buffer (eventCollector this)).

Definition setCollector (c : EventCollection.t) (this : t) : t :=
  mk (debug this) (isInitialized this) (isDestroyed this) (sessionManager this)
     (pageCount this) (eventCount this) (privacyEngine this) c (transport this)
     (console this).

Definition setBuffer (b : EventCollector.t) (this : t) : t :=
  let c := eventCollector this in
  setCollector (EventCollection.mk b (sampleRate c) (enableHeatmaps c) (clickHistory c)
                  (lastScrollTime c) (lastMouseMoveTime c) (mouseMoveCounter c)
                  (throttledScrollHandler c) (throttledMouseMoveHandler c)) this.

Definition setTransport (w : BatchQueue.t) (this : t) : t :=
  mk (debug this) (isInitialized this) (isDestroyed this) (sessionManager this)
     (pageCount this) (eventCount this) (privacyEngine this) (eventCollector this) w
     (console this).

Definition log (entries : list logEntry) (this : t) : t :=
  mk (debug this) (isInitialized this) (isDestroyed this) (sessionManager this)
     (pageCount this) (eventCount this) (privacyEngine this) (eventCollector this)
     (transport this) (console this ++ entries).

Definition debugLog (text : string) (this : t) : t :=
  if debug this then log [ConsoleLog text] this else this.

(** [shouldTrackEvent()]: the SDK is running and the session manager
    answers [this.samplingDecision === true].  This is the value returned;
    the [updateActivity()] that the session manager runs before answering,
    with its write to the local storage and its warning when the write
    fails, is left out. *)
Definition shouldTrackEvent (this : t) : bool :=
  isInitialized this && negb (isDestroyed this) &&
  match SessionManager.samplingDecision (sessionManager this) with
  | Some true => true
  | _ => false
  end.

(** [flush()], up to its first suspension (the debug message of a flush
    is written after the transport has answered). *)
Definition flush (this : t) : t :=
  if negb (isInitialized this) || isDestroyed this then this
  else
    let (events, b) := EventCollector.getAndClearEvents (buffer (eventCollector this)) in
    let this := setBuffer b this in
    if (0 <? length events)%nat
    then setTransport (BatchQueue.send events (transport this)) this
    else this.

Section Host.

Variable toLowerCase : jsstring -> jsstring.
Variable numberToString : number -> jsstring.

(** [track(eventType, data)]. *)
Definition track (env : environment) (eventType : string) (data : JsValue) (this : t) : t :=
  if negb (shouldTrackEvent this) then this
  else
    let sanitized := sanitizeData toLowerCase numberToString (privacyEngine this) data in
    let this := log (snd sanitized) this in
    let eventData :=
      EventCollector.mkEvent (SessionManager.sessionId (sessionManager this))
                             (now env) (lit eventType) in
    let collectorEnv :=
      EventCollector.mkEnv (PerformanceLoad.shouldReduceActivity (metrics env))
                           (random env) in
    let this :=
      setBuffer (EventCollector.addEvent collectorEnv eventData
                   (buffer (eventCollector this))) this in
    let this :=                               (* incrementEventCount() *)
      mk (debug this) (isInitialized this) (isDestroyed this) (sessionManager this)
         (pageCount this) (eventCount this + 1) (privacyEngine this)
         (eventCollector this) (transport this) (console this) in
    let this := debugLog "[InsightLite] Event tracked:" this in
    if EventCollector.getEventCount (buffer (eventCollector this)) >=? flushSize this
    then flush this
    else this.

(** [trackPageView()], [pageData] being the object it builds. *)
Definition trackPageView (env : environment) (pageData : JsValue) (this : t) : t :=
  let this := track env "page" pageData this in
  mk (debug this) (isInitialized this) (isDestroyed this) (sessionManager this)
     (pageCount this + 1) (eventCount this) (privacyEngine this)
     (eventCollector this) (transport this) (console this).

(** [initialize()].  Registering the listeners, opening the socket and
    starting the monitor and the periodic flush touch none of the fields
    kept here. *)
Definition initialize (env : environment) (pageData : JsValue) (this : t) : t :=
  if isInitialized this || isDestroyed this then this
  else
    let this := trackPageView env pageData this in
    let this :=
      mk (debug this) true (isDestroyed this) (sessionManager this)
         (pageCount this) (eventCount this) (privacyEngine this)
         (eventCollector this) (transport this) (console this) in
    debugLog "[InsightLite] SDK initialized successfully" this.

(** [handleMouseMove(event)] and [handleScroll()]. *)
Definition handleMouseMove (env : environment) (event : MouseEvent) (this : t) : t :=
  if negb (shouldTrackEvent this) || negb (enableHeatmaps (eventCollector this)) then this
  else
    let (mouseMoveData, c) := collectMouseMoveEvent env event (eventCollector this) in
    let this := setCollector c this in
    match mouseMoveData with
    | Value d =>
        track env "mousemove"
              (JObject [(lit "x", JNumber (Fin (moveX d)));
                        (lit "y", JNumber (Fin (moveY d)));
                        (lit "timestamp", JNumber (Fin (inject_Z (moveTimestamp d))))])
              this
    | _ => this
    end.

Definition handleScroll (env : environment) (this : t) : t :=
  if negb (shouldTrackEvent this) then this
  else
    let (scrollData, c) := collectScrollEvent env (eventCollector this) in
    let this := setCollector c this in
    match scrollData with
    | Value d =>
        track env "scroll"
              (JObject [(lit "scrollX", JNumber (Fin (evScrollX d)));
                        (lit "scrollY", JNumber (Fin (evScrollY d)));
                        (lit "scrollPercentage",
                         JNumber (Fin (inject_Z (scrollPercentage d))))])
              this
    | _ => this
    end.

End Host.

(** [eventCollector.destroy()]. *)
Definition destroyCollector (c : EventCollection.t) : EventCollection.t :=
  EventCollection.mk
    (EventCollector.mk (EventCollector.flushSize (buffer c))
                       (EventCollector.effectiveSampleRate (buffer c)) [])
    (sampleRate c) (enableHeatmaps c) []
    (lastScrollTime c) (lastMouseMoveTime c) (mouseMoveCounter c)
    (throttledScrollHandler c) (throttledMouseMoveHandler c).

(** [destroy()]. *)
Definition destroy (this : t) : t :=
  if isDestroyed this then this
  else
    let this := flush this in
    let this := setTransport (BatchQueue.disconnect (transport this)) this in
    let this := setCollector (destroyCollector (eventCollector this)) this in
    let this :=
      mk (debug this) false true (sessionManager this)
         (pageCount this) (eventCount this) (privacyEngine this)
         (eventCollector this) (transport this) (console this) in
    debugLog "[InsightLite] SDK destroyed" this.

(** The SDK as the constructor leaves it before it calls
    [shouldInitialize()]. *)
Definition construct (flushSize : Z) (sampleRate : Q) (enableHeatmaps debug : bool)
    (mode : PrivacyMode) (siteId sessionId : jsstring) : t :=
  mk debug false false (SessionManager.fresh siteId sessionId) 0 0
     (PrivacyEngine.mk mode)
     (EventCollection.init flushSize sampleRate enableHeatmaps)
     BatchQueue.init [].

End Tracking.

(* ================================================================== *)
(** * Reference definitions used to state the properties               *)
(* ================================================================== *)

Module HashSpec.

(** The polynomial of the rolling hash, before any wrap-around. *)
Definition poly31 (s : jsstring) (h : Z) : Z :=
  fold_left (fun h c => 31 * h + c) s h.

(** The 32-bit rolling hash in the words of the specification: the
    polynomial reduced to a signed 32-bit integer, sign dropped. *)
Definition rollingHash32 (s : jsstring) : Z := Z.abs (toInt32 (poly31 s 0)).

(** Reading back the digits of [toStringRadix]. *)
Definition digitValue (c : char) : Z := if c <? 58 then c - 48 else c - 87.
Definition parseRadix (radix : Z) (s : jsstring) : Z :=
  fold_left (fun acc c => radix * acc + digitValue c) s 0.

End HashSpec.

Module Samples.

(** Three click events and a quiet environment that accepts every event. *)
Definition sampleEvent (n : Z) : EventCollector.EventData :=
  EventCollector.mkEvent (lit "s") n (lit "click").
Definition calm : EventCollector.environment := EventCollector.mkEnv false 0%Q.

(** A desktop with 8 GB, 4 cores and a 4g connection. *)
Definition desktop : PerformanceMonitor.navigator :=
  PerformanceMonitor.mkNavigator (Some 8%Q) (Some 4%Q) (Some PerformanceMonitor.net4g).

End Samples.

Module TransportSpec.
Import EventTransport.

(** The delay before the [k]-th retry, as the specification gives it. *)
Definition backoff (k : Z) : Z := Z.min (1000 * 2 ^ (k - 1)) 30000.

(** Retries number [from], [from + 1], ... ([n] of them): a timer, then a
    send attempt. *)
Definition retryRounds (from n : nat) : list action :=
  flat_map (fun k => [SetTimeout (backoff (Z.of_nat k)); AttemptSend]) (seq from n).

(** The end of a batch that is given up. *)
Definition giveUp (e : error) : list action :=
  [Emit "error" (Some e);
   Console (ConsoleError "[Transport] Failed to send events after retries:" e)].

(** The ways in which the transport itself makes a send fail, with the
    error object it builds for each. *)
Inductive failure : Type :=
| NetworkFailure                                   (* xhr 'error' event *)
| RequestTimeout                                   (* xhr 'timeout' event *)
| HttpFailure (status : Z) (statusText : jsstring) (* response not ok *)
| NoValidEvents                                    (* validation left nothing *)
| SocketNotReady.                                  (* socket closed meanwhile *)

Definition errorOf (f : failure) : error :=
  Error (Some
    match f with
    | NetworkFailure => lit "Network error"
    | RequestTimeout => lit "Request timeout"
    | HttpFailure status statusText =>
        lit "HTTP " ++ toStringRadix 10 status ++ lit ": " ++ statusText
    | NoValidEvents => lit "No valid events to send"
    | SocketNotReady => lit "WebSocket not ready"
    end).

(** The retryable class in the words of the specification. *)
Definition retryableClass (f : failure) : bool :=
  match f with
  | NetworkFailure | RequestTimeout => true
  | HttpFailure status _ => (500 <=? status) || (status =? 429)
  | NoValidEvents | SocketNotReady => false
  end.

(** What the code treats as terminal: no mention of a network error or a
    timeout, and an HTTP status that is neither 0, nor 429, nor 500 or more. *)
Definition terminalError (e : error) : Prop :=
  messageIncludes e "Network error" = false /\
  messageIncludes e "timeout" = false /\
  exists status, extractHttpStatus e = Some status /\
                 status <> 0 /\ status < 500 /\ status <> 429.

(** The trace of a finished call, empty when it did not finish. *)
Definition traceOf (r : option t) : list action :=
  match r with Some w => trace w | None => [] end.

(** A retry was scheduled: a backoff timer was set. *)
Definition retryScheduled (tr : list action) : Prop :=
  exists d, In (SetTimeout d) tr.

End TransportSpec.

Module TransportSamples.
Import EventTransport TransportSpec.

(** A collector that answers every request with the same status. *)
Definition alwaysFails (f : failure) : nat -> option error := fun _ => Some (errorOf f).

Definition serverError : failure := HttpFailure 500 (lit "Internal Server Error").
Definition badRequest : failure := HttpFailure 400 (lit "Bad Request").

End TransportSamples.

Module ConfigSpec.
Import PrivacyEngine InsightLiteSDK.

Local Open Scope Q_scope.

Definition throws {A : Type} (r : result A) : Prop := exists e, r = Throw e.

(** The invalid configurations in the words of the specification. *)
Definition finiteBelow (v : JsValue) (bound : Q) : Prop :=
  exists q, v = JNumber (Fin q) /\ q < bound.
Definition finiteAbove (v : JsValue) (bound : Q) : Prop :=
  exists q, v = JNumber (Fin q) /\ bound < q.

Definition statedInvalid (config : JsValue) : Prop :=
  getProp config "siteId" = JUndefined \/ getProp config "siteId" = JString [] \/
  finiteBelow (getProp config "sampleRate") 0 \/
  finiteAbove (getProp config "sampleRate") 1 \/
  finiteBelow (getProp config "flushInterval") 1000 \/
  finiteBelow (getProp config "flushSize") 1 \/
  finiteBelow (getProp config "maxRetries") 0.

(** What the validation accepts.  A number is compared the way JavaScript
    compares: NaN is below nothing and above nothing. *)
Definition notBelow (n : number) (bound : Q) : Prop :=
  match n with
  | Fin q => bound <= q
  | NegInf => False
  | NaN | PosInf => True
  end.
Definition notAbove (n : number) (bound : Q) : Prop :=
  match n with
  | Fin q => q <= bound
  | PosInf => False
  | NaN | NegInf => True
  end.

Definition isObject (v : JsValue) : Prop :=
  (exists items, v = JArray items) \/ (exists entries, v = JObject entries) \/
  (exists e, v = JTrap e).
Definition nonBlankString (v : JsValue) : Prop :=
  exists s, v = JString s /\ trim s <> [].
Definition absentOr (P : number -> Prop) (v : JsValue) : Prop :=
  v = JUndefined \/ exists n, v = JNumber n /\ P n.

Definition acceptable (config : JsValue) : Prop :=
  isObject config /\
  nonBlankString (getProp config "siteId") /\
  absentOr (fun n => notBelow n 0 /\ notAbove n 1) (getProp config "sampleRate") /\
  absentOr (fun n => notBelow n 1000) (getProp config "flushInterval") /\
  absentOr (fun n => notBelow n 1) (getProp config "flushSize").

(** [{ siteId: 'site-1', maxRetries: -1 }] *)
Definition negativeRetries : JsValue :=
  JObject [(lit "siteId", JString (lit "site-1"));
           (lit "maxRetries", JNumber (Fin (-1)))].

End ConfigSpec.

Module HostSamples.

(** Stand-ins for the two built-ins of the host, used to run examples:
    lower-casing of the ASCII letters, and the decimal form of integers
    (the only numbers the examples contain). *)
Definition asciiLowerCase (s : jsstring) : jsstring :=
  map (fun c => if (65 <=? c) && (c <=? 90) then c + 32 else c) s.

Definition integerToString (n : number) : jsstring :=
  match n with
  | NaN => lit "NaN"
  | PosInf => lit "Infinity"
  | NegInf => lit "-Infinity"
  | Fin q =>
      let z := (Qnum q / Z.pos (Qden q)) in
      if z <? 0 then lit "-" ++ toStringRadix 10 (- z) else toStringRadix 10 z
  end.

End HostSamples.

Module SanitizeSpec.
Import PrivacyEngine InsightLiteSDK HostSamples.

(** [sanitizeData] of the engine that the SDK builds from a configuration. *)
Definition sanitizeFor (config : Config) (data : JsValue) : result JsValue * list logEntry :=
  sanitizeData asciiLowerCase integerToString (privacyEngine config) data.

(** [{ user: { get trap() { throw new Error('boom') } } }] *)
Definition boom : error := Error (Some (lit "boom")).
Definition hostile : JsValue := JObject [(lit "user", JTrap boom)].

(** A configuration with [debug: false]. *)
Definition quiet : Config := mkConfig (Fin 1) balanced false.

End SanitizeSpec.

Module RegexSpec.
Import Regex.

Local Open Scope nat_scope.

(** [Match s r i e]: the pattern [r] matches [s] from position [i] to
    position [e], as a relation. *)
Inductive Match (s : jsstring) : re -> nat -> nat -> Prop :=
| MEps i : Match s Eps i i
| MCls p i c : nth_error s i = Some c -> p c = true -> Match s (Cls p) i (S i)
| MCat r1 r2 i j k : Match s r1 i j -> Match s r2 j k -> Match s (Cat r1 r2) i k
| MOptSome r i j : Match s r i j -> Match s (Opt r) i j
| MOptNone r i : Match s (Opt r) i i
| MPlus p i k :
    1 <= k ->
    (forall j, j < k -> exists c, nth_error s (i + j) = Some c /\ p c = true) ->
    Match s (Plus p) i (i + k)
| MRep0 r i : Match s (Rep 0 r) i i
| MRepS r n i j k : Match s r i j -> Match s (Rep n r) j k -> Match s (Rep (S n) r) i k
| MRange r n extra m i j k :
    Match s (Rep n r) i j -> m <= extra -> Match s (Rep m r) j k ->
    Match s (RepRange n extra r) i k
| MWordB i : isWordBoundary s i = true -> Match s WordB i i.

(** [nullable r = false]: no match of [r] is empty. *)
Fixpoint nullable (r : re) : bool :=
  match r with
  | Eps | Opt _ | WordB => true
  | Cls _ | Plus _ => false
  | Cat r1 r2 => nullable r1 && nullable r2
  | Rep n r1 | RepRange n _ r1 => (n =? 0) || nullable r1
  end.

(** [avoids m r = true]: no class of [r] contains the code unit [m]. *)
Fixpoint avoids (m : char) (r : re) : bool :=
  match r with
  | Eps | WordB => true
  | Cls p | Plus p => negb (p m)
  | Cat r1 r2 => avoids m r1 && avoids m r2
  | Opt r1 | Rep _ r1 | RepRange _ _ r1 => avoids m r1
  end.

(** The spans that a global replacement replaces, found by the same scan
    as [replaceFrom]. *)
Fixpoint spansFrom (fuel : nat) (r : re) (s : jsstring) (i : nat) : list (nat * nat) :=
  match fuel with
  | O => []
  | S fuel' =>
      let advance :=
        match nth_error s i with
        | Some _ => spansFrom fuel' r s (S i)
        | None => []
        end in
      match ends r s i with
      | e :: _ => if e =? i then advance else (i, e) :: spansFrom fuel' r s e
      | [] => advance
      end
  end.

(** The spans of the scan of the whole string. *)
Definition spans (r : re) (s : jsstring) : list (nat * nat) :=
  spansFrom (S (length s)) r s 0.

Definition covered (spans : list (nat * nat)) (p : nat) : bool :=
  existsb (fun span => (fst span <=? p) && (p <? snd span)) spans.

(** [l], whose first element has index [i], with the positions selected
    by [cov] overwritten by [m]. *)
Fixpoint maskAt (m : char) (cov : nat -> bool) (i : nat) (l : jsstring) : jsstring :=
  match l with
  | [] => []
  | c :: l' => (if cov i then m else c) :: maskAt m cov (S i) l'
  end.

(** [t] is [s] with some code units overwritten by [m], no word boundary
    appearing that [s] did not have. *)
Definition masked (m : char) (t s : jsstring) : Prop :=
  length t = length s /\
  (forall i c, nth_error t i = Some c -> c = m \/ nth_error s i = Some c) /\
  (forall i, isWordBoundary t i = true -> isWordBoundary s i = true).

(** No match of [r] starts anywhere in [t]. *)
Definition matchFree (r : re) (t : jsstring) : Prop :=
  forall i, ends r t i = [].

(** The patterns the idempotence argument applies to: [\b body \b] with a
    body that cannot match the empty string nor the mask character. *)
Definition maskable (m : char) (r : re) : Prop :=
  exists body, r = bounded body /\ nullable body = false /\ avoids m body = true.

End RegexSpec.

Module TextSpec.
Import Regex PrivacyText.

(** Masking with an arbitrary list of patterns, in order. *)
Definition maskAll (patterns : list (string * re)) (text : jsstring) : jsstring :=
  fold_left (fun sanitized pattern => replace (snd pattern) maskMatch sanitized)
            patterns text.

End TextSpec.

Module ValueSpec.
Import PrivacyEngine PrivacyText.

(** The two loops of [_sanitizeValue] with the recursive call as a
    parameter [f]. *)
Definition mapItems (f : JsValue -> result JsValue)
    : list JsValue -> result (list JsValue) :=
  fix mapItems (l : list JsValue) : result (list JsValue) :=
    match l with
    | [] => Ok []
    | item :: l' =>
        match f item with
        | Throw e => Throw e
        | Ok item' =>
            match mapItems l' with
            | Throw e => Throw e
            | Ok rest => Ok (item' :: rest)
            end
        end
    end.

Definition loop (sensitive : jsstring -> bool) (mask : JsValue -> jsstring)
    (f : JsValue -> result JsValue)
    : list (jsstring * JsValue) -> list (jsstring * JsValue) ->
      JS.result (list (jsstring * JsValue)) :=
  fix loop (l : list (jsstring * JsValue)) (result : list (jsstring * JsValue))
      : JS.result (list (jsstring * JsValue)) :=
    match l with
    | [] => Ok result
    | (key, val) :: l' =>
        if sensitive key
        then loop l' (setProperty result key (JString (mask val)))
        else match f val with
             | Throw e => Throw e
             | Ok val' => loop l' (setProperty result key val')
             end
    end.

(** The value that [sanitizeData] hands back. *)
Definition returned (r : result JsValue * list logEntry) : option JsValue :=
  match fst r with Ok v => Some v | Throw _ => None end.

End ValueSpec.

Module ObjectSpec.
Import PrivacyEngine PrivacyText.

(** The names of the own properties of an object. *)
Definition keys (o : list (jsstring * JsValue)) : list jsstring := map fst o.

(** An entry that sanitizing leaves as it is: a mask under a sensitive
    name, a value that sanitizes to itself under any other name. *)
Definition settled (sensitive : jsstring -> bool) (f : JsValue -> result JsValue)
    (kv : jsstring * JsValue) : Prop :=
  if sensitive (fst kv)
  then exists n, snd kv = JString (repeat maskChar n)
  else f (snd kv) = Ok (snd kv).

(** An object as [_sanitizeValue] builds it. *)
Definition wellKept (sensitive : jsstring -> bool) (f : JsValue -> result JsValue)
    (o : list (jsstring * JsValue)) : Prop :=
  NoDup (keys o) /\ ~ In (lit "__proto__") (keys o) /\ Forall (settled sensitive f) o.

End ObjectSpec.

Module SessionSpec.
Import SessionActivity.

(** The clock readings of the calls that were let through. *)
Definition admitted (log : list (Z * bool)) : list Z :=
  map fst (filter (fun entry => negb (snd entry)) log).

(** How many of the readings [l] fall in the minute that ends at [now]. *)
Definition inLastMinute (now : Z) (l : list Z) : Z :=
  Z.of_nat (length (filter (fun ts => ts >? now - 60000) l)).

(** The names of [botPatterns] that contain no other name of the list. *)
Definition minimalBotPatterns : list jsstring :=
  map lit ["bot"; "crawl"; "spider"; "scrape"; "curl"; "wget";
           "facebookexternalhit"; "whatsapp"]%string.

End SessionSpec.

Module RecoverySamples.
Import EventTransport TransportSpec TransportSamples.

(** A collector that answers the first two requests with status 500 and
    accepts the third. *)
Definition flaky : nat -> option error :=
  fun n => if (n <? 2)%nat then Some (errorOf serverError) else None.

End RecoverySamples.

Module CompressionSpec.

(** No two neighbours in the string are the same code unit. *)
Fixpoint noRepeat (s : jsstring) : bool :=
  match s with
  | [] => true
  | a :: s' =>
      match s' with
      | [] => true
      | b :: _ => negb (a =? b) && noRepeat s'
      end
  end.

End CompressionSpec.

Module BatchSpec.
Import EventCollector BatchQueue.

(** The events handed to [send], in order. *)
Definition submitted (cs : list call) : list EventData :=
  flat_map (fun c => match c with Send events => events | _ => [] end) cs.

Definition isDisconnect (c : call) : bool :=
  match c with Disconnect => true | _ => false end.

(** The handles of the timers that are set. *)
Definition handles (w : t) : list positive := map fst (timers w).

(** The invariant of the queue and its timer. *)
Definition steady (w : t) : Prop :=
  handles w = match batchTimer w with Some h => [h] | None => [] end /\
  (batchTimer w <> None -> batchQueue w <> []) /\
  Z.of_nat (length (batchQueue w)) < batchSize /\
  Forall (fun batch => batch <> []) (dispatched w).

End BatchSpec.

Module ReconnectSpec.
Import Reconnect.

(** The invariant of the reconnection counter and of the timers set. *)
Definition withinLimits (w : t) : Prop :=
  0 <= reconnectAttempts w <= maxReconnectAttempts /\
  Forall (fun d => exists k, 1 <= k <= maxReconnectAttempts /\
                             d = reconnectDelay * 2 ^ (k - 1) /\ d <= 16000)
         (delays (trace w)).

End ReconnectSpec.

Module EventSpec.
Import PrivacyEngine PrivacyEvents EventCollection.

(** The click that [collectClickEvent] records for a call. *)
Definition clickOf (c : environment * MouseEvent) : click :=
  mkClick (clientX (snd c)) (clientY (snd c)) (now (fst c)).

(** The calls that get past the two tests at the top of
    [collectClickEvent]. *)
Definition accepted (this : t) (c : environment * MouseEvent) : bool :=
  match target (snd c) with
  | Some _ => shouldCollectEvent this (fst c) "click"
  | None => false
  end.

(** Every click recorded during a run, pruned or not. *)
Definition recorded (cs : list (environment * MouseEvent)) (this : t) : list click :=
  map clickOf (filter (accepted this) cs).

(** [click] lies within a second and 50 pixels of [clickData]. *)
Definition near (clickData click : click) : bool :=
  (timestamp clickData - timestamp click <? 1000) &&
  Qltb (Qabs (x click - x clickData)) 50 &&
  Qltb (Qabs (y click - y clickData)) 50.

(** The text of a click target after sanitizing: as many block characters
    as the first hundred code units of the text. *)
Definition blockedText (element : element) : JsValue :=
  match elTextContent element with
  | Some [] => JString []
  | Some text => JString (repeat PrivacyText.blockChar (Nat.min (length text) 100))
  | None => JUndefined
  end.

(** Three clicks on the same button within a fifth of a second, in
    surroundings that let every event through. *)
Definition someButton : element :=
  mkElement (lit "BUTTON") (lit "buy") (lit "b1") (Some (lit "Buy now"))
            (fun _ => false) (fun _ => None) (Some []).
Definition clickAt (t : Z) : environment * MouseEvent :=
  (mkEnv PerformanceLoad.init 0 t (mkWindow 0 0 0 0 0 0),
   mkMouseEvent (Some someButton) 10 20 0 false false false false).
Definition thirdClick : ClickEvent :=
  mkClickEvent 10 20
    (Some [(lit "tagName", JString (lit "BUTTON"));
           (lit "className", JString (lit "buy"));
           (lit "id", JString (lit "b1"));
           (lit "textContent", JString (repeat PrivacyText.blockChar 7));
           (lit "attributes", JObject [])])
    0 true (false, false, false, false).

(** A mouse move one second after the collector was built. *)
Definition lateMove : environment :=
  mkEnv PerformanceLoad.init 0 1000 (mkWindow 0 0 0 0 0 0).
Definition moveAt (x y : Q) : MouseEvent :=
  mkMouseEvent None x y 0 false false false false.
(** A collector whose next mouse move is the fifth. *)
Definition fourMoves : t :=
  mk (EventCollector.init 50 1) 1 true [] 0 0 4 (mkThrottle false) (mkThrottle false).

End EventSpec.

Module TrackingSpec.
Import EventCollection Tracking.

(** The events that the transport has taken over: the batches handed to
    [sendBatch], in order, then the events still queued. *)
Definition takenOver (w : BatchQueue.t) : list EventCollector.EventData :=
  concat (BatchQueue.dispatched w) ++ BatchQueue.batchQueue w.

(** The events in the buffer of the collector. *)
Definition buffered (this : t) : list EventCollector.EventData :=
  EventCollector.events (buffer (eventCollector this)).

(** The event that [track] builds and the surroundings that it hands to
    the collector. *)
Definition eventOf (env : environment) (eventType : string) (this : t)
    : EventCollector.EventData :=
  EventCollector.mkEvent (SessionManager.sessionId (sessionManager this))
                         (now env) (lit eventType).

Definition collectorEnv (env : environment) : EventCollector.environment :=
  EventCollector.mkEnv (PerformanceLoad.shouldReduceActivity (metrics env)) (random env).

(** A running SDK of a sampled session with two events buffered. *)
Definition running : t :=
  mk false true false
     (SessionManager.mk (lit "site-1") (lit "s") (Some true)) 1 2
     (PrivacyEngine.mk PrivacyEngine.balanced)
     (EventCollection.mk
        (EventCollector.mk 50 1 [Samples.sampleEvent 1; Samples.sampleEvent 2])
        1 true [] 0 0 0 (mkThrottle false) (mkThrottle false))
     BatchQueue.init [].

Definition quietEnv : environment :=
  mkEnv PerformanceLoad.init 0 5000 (mkWindow 0 0 0 0 0 0).

End TrackingSpec.

Module StageSpec.
Import Regex PrivacyText.

(** The patterns of a list, each with the text that its replacement is
    applied to: the input for the first, the output of the one before for
    the others. *)
Fixpoint stages (patterns : list (string * re)) (text : jsstring)
    : list (re * jsstring) :=
  match patterns with
  | [] => []
  | pattern :: patterns' =>
      (snd pattern, text) ::
      stages patterns' (replace (snd pattern) maskMatch text)
  end.

End StageSpec.

(* End of the reference definitions. *)

(* ================================================================== *)
(** * Properties: comparison of numbers                                *)
(* ================================================================== *)

Module NumberFacts.

Lemma Qltb_true_iff x y : Qltb x y = true <-> (x < y)%Q.
Proof.
  unfold Qltb. rewrite negb_true_iff.
  split.
  - intros H. apply Qnot_le_lt. intros Hle. apply Qle_bool_iff in Hle. congruence.
  - intros H. destruct (Qle_bool y x) eqn:E; [|reflexivity].
    apply Qle_bool_iff in E. exfalso. exact (Qlt_not_le _ _ H E).
Qed.

Lemma Qltb_false_iff x y : Qltb x y = false <-> (y <= x)%Q.
Proof. unfold Qltb. rewrite negb_false_iff. apply Qle_bool_iff. Qed.

End NumberFacts.

(* ================================================================== *)
(** * Properties: hashing and the sampling decision                    *)
(* ================================================================== *)

Module HashFacts.
Import SessionManager HashSpec.

Lemma toInt32_range x : - 2 ^ 31 <= toInt32 x < 2 ^ 31.
Proof.
  unfold toInt32.
  pose proof (Z.mod_pos_bound (x + 2 ^ 31) (2 ^ 32) ltac:(lia)). lia.
Qed.

Lemma toInt32_eqm x y :
  (x mod 2 ^ 32 = y mod 2 ^ 32) -> toInt32 x = toInt32 y.
Proof.
  intros H. unfold toInt32.
  rewrite (Z.add_mod x), (Z.add_mod y), H by lia. reflexivity.
Qed.

Lemma toInt32_mod x : toInt32 x mod 2 ^ 32 = x mod 2 ^ 32.
Proof.
  unfold toInt32.
  rewrite Zminus_mod, Zmod_mod, <- Zminus_mod.
  f_equal. lia.
Qed.

Lemma toInt32_idem x : toInt32 (toInt32 x) = toInt32 x.
Proof. apply toInt32_eqm, toInt32_mod. Qed.

Lemma and32_diag x : and32 x x = toInt32 x.
Proof. unfold and32. rewrite Z.land_diag. apply toInt32_idem. Qed.

Lemma shl32_5 x : shl32 x 5 = toInt32 (32 * x).
Proof.
  unfold shl32. change (5 mod 32) with 5. rewrite Z.shiftl_mul_pow2 by lia.
  apply toInt32_eqm. change (2 ^ 5) with 32.
  rewrite Z.mul_mod, toInt32_mod, <- Z.mul_mod by lia. f_equal. lia.
Qed.

(** One round of the loop is one Horner step modulo 2^32. *)
Lemma hashStep_spec h c : hashStep h c = toInt32 (31 * h + c).
Proof.
  unfold hashStep. rewrite and32_diag, shl32_5.
  apply toInt32_eqm.
  rewrite Z.add_mod, Zminus_mod, toInt32_mod, <- Zminus_mod, <- Z.add_mod by lia.
  f_equal. lia.
Qed.

Lemma fold_left_step {A B : Type} (f : A -> B -> A) b l a :
  fold_left f (b :: l) a = fold_left f l (f a b).
Proof. reflexivity. Qed.

Lemma poly31_cons c s h : poly31 (c :: s) h = poly31 s (31 * h + c).
Proof. unfold poly31. rewrite fold_left_step. reflexivity. Qed.

Lemma poly31_eqm s : forall a b,
  a mod 2 ^ 32 = b mod 2 ^ 32 -> poly31 s a mod 2 ^ 32 = poly31 s b mod 2 ^ 32.
Proof.
  induction s as [|c s IH]; intros a b H; [exact H|].
  rewrite !poly31_cons. apply IH.
  rewrite (Z.add_mod (31 * a)), (Z.add_mod (31 * b)) by lia.
  rewrite (Z.mul_mod 31 a), (Z.mul_mod 31 b), H by lia. reflexivity.
Qed.

Lemma fold_hashStep s : forall h,
  fold_left hashStep s (toInt32 h) = toInt32 (poly31 s h).
Proof.
  induction s as [|c s IH]; intros h; [reflexivity|].
  rewrite poly31_cons, fold_left_step, hashStep_spec, IH.
  apply toInt32_eqm, poly31_eqm.
  rewrite (Z.add_mod (31 * toInt32 h)), (Z.mul_mod 31 (toInt32 h)), toInt32_mod by lia.
  rewrite <- Z.mul_mod, <- Z.add_mod by lia. reflexivity.
Qed.

(** [hashString] is the 32-bit rolling hash. *)
Lemma hashString_rolling s : hashString s = rollingHash32 s.
Proof.
  unfold hashString, rollingHash32.
  change 0 with (toInt32 0) at 1. rewrite fold_hashStep. reflexivity.
Qed.

Lemma hashString_range s : 0 <= hashString s <= 2 ^ 31.
Proof.
  rewrite hashString_rolling. unfold rollingHash32.
  pose proof (toInt32_range (poly31 s 0)). lia.
Qed.

(** A decision once taken is returned by every later call, whatever the
    rate passed. *)
Lemma calls_memoized rates : forall m d,
  samplingDecision m = Some d -> Forall (fun b => b = d) (calls rates m).
Proof.
  induction rates as [|r rates IH]; intros m d H; simpl; [constructor|].
  unfold shouldTrackSession. rewrite H. constructor; [reflexivity|].
  apply IH, H.
Qed.

(** C1. The first call of [shouldTrackSession] in a session returns
    [(hash(sessionId) mod 10000) / 10000 < sampleRate], where [hash] is the
    32-bit rolling hash of the session identifier (a value between 0 and
    2^31), and every later call in that session, whatever rate it is given,
    returns the boolean of the first call. *)
Theorem sampling_decision_deterministic_and_memoized :
  forall (site sid : jsstring) (rate : number) (rates : list number),
    let first := shouldTrackSession rate (fresh site sid) in
    fst first = num_ltb (Fin ((rollingHash32 sid mod 10000) # 10000)) rate /\
    hashString sid = rollingHash32 sid /\
    0 <= rollingHash32 sid <= 2 ^ 31 /\
    sessionId (snd first) = sid /\
    Forall (fun b => b = fst first) (calls rates (snd first)).
Proof.
  intros site sid rate rates first.
  assert (Hr := hashString_rolling sid).
  assert (Hb := hashString_range sid).
  subst first. unfold shouldTrackSession, fresh, makeSamplingDecision. simpl.
  rewrite Hr in *. repeat split; try lia.
  apply calls_memoized. reflexivity.
Qed.

Lemma digitValue_digitChar d : 0 <= d < 36 -> digitValue (digitChar d) = d.
Proof.
  intros H. unfold digitValue, digitChar.
  destruct (Z.ltb_spec d 10).
  - destruct (Z.ltb_spec (48 + d) 58); lia.
  - destruct (Z.ltb_spec (87 + d) 58); lia.
Qed.

Lemma parseRadix_snoc radix l c :
  parseRadix radix (l ++ [c]) = radix * parseRadix radix l + digitValue c.
Proof. unfold parseRadix. rewrite fold_left_app. reflexivity. Qed.

Lemma parseRadix_digits radix : 2 <= radix <= 36 -> forall fuel n,
  0 <= n < radix ^ (Z.of_nat fuel + 1) ->
  parseRadix radix (digits radix fuel n) = n.
Proof.
  intros Hr. induction fuel as [|f IH]; intros n Hn.
  - change (Z.of_nat 0 + 1) with 1 in Hn. rewrite Z.pow_1_r in Hn.
    cbn [digits]. rewrite Z.mod_small by lia.
    unfold parseRadix. simpl. rewrite digitValue_digitChar; lia.
  - cbn [digits]. destruct (Z.ltb_spec n radix) as [Hlt|Hge].
    + unfold parseRadix. simpl. rewrite digitValue_digitChar; lia.
    + rewrite parseRadix_snoc, IH.
      * rewrite digitValue_digitChar.
        -- pose proof (Z.div_mod n radix ltac:(lia)). lia.
        -- pose proof (Z.mod_pos_bound n radix ltac:(lia)). lia.
      * split; [apply Z.div_pos; lia|].
        apply Z.div_lt_upper_bound; [lia|].
        replace (Z.of_nat (S f) + 1) with (Z.succ (Z.of_nat f + 1)) in Hn by lia.
        rewrite Z.pow_succ_r in Hn by lia. lia.
Qed.

(** The digits of a non-negative integer determine it. *)
Lemma parseRadix_toStringRadix radix n :
  2 <= radix <= 36 -> 0 <= n -> parseRadix radix (toStringRadix radix n) = n.
Proof.
  intros Hr Hn. unfold toStringRadix. apply parseRadix_digits; [exact Hr|].
  split; [exact Hn|].
  rewrite Z2Nat.id by apply Z.log2_nonneg.
  destruct (Z.eq_dec n 0) as [->|Hz].
  - simpl. lia.
  - pose proof (Z.log2_spec n ltac:(lia)) as [_ Hlt].
    pose proof (Z.log2_nonneg n).
    replace (Z.succ (Z.log2 n)) with (Z.log2 n + 1) in Hlt by lia.
    assert (2 ^ (Z.log2 n + 1) <= radix ^ (Z.log2 n + 1))
      by (apply Z.pow_le_mono_l; lia).
    lia.
Qed.

Lemma toStringRadix_inj radix a b :
  2 <= radix <= 36 -> 0 <= a -> 0 <= b ->
  toStringRadix radix a = toStringRadix radix b -> a = b.
Proof.
  intros Hr Ha Hb H.
  rewrite <- (parseRadix_toStringRadix radix a), <- (parseRadix_toStringRadix radix b), H by assumption.
  reflexivity.
Qed.

Lemma hashSessionId_hashString sid site :
  PrivacyEngine.hashSessionId sid site =
  toStringRadix 36 (hashString (sid ++ lit ":" ++ site)).
Proof. unfold PrivacyEngine.hashSessionId, hashString, hashStep. reflexivity. Qed.

(** C9 as stated fails: for one and the same session identifier the site
    identifiers [site-Aa] and [site-BB] are different and hash to the same
    anonymized identifier. *)
Lemma hashSessionId_collision :
  ~ (lit "site-Aa" <> lit "site-BB" ->
     PrivacyEngine.hashSessionId (lit "3f2b8c1e-5d4a-4e6f-9a7b-0c1d2e3f4a5b") (lit "site-Aa") <>
     PrivacyEngine.hashSessionId (lit "3f2b8c1e-5d4a-4e6f-9a7b-0c1d2e3f4a5b") (lit "site-BB")).
Proof.
  intros H.
  assert (D : lit "site-Aa" <> lit "site-BB")
    by (intros E; vm_compute in E; discriminate E).
  specialize (H D). apply H.
  vm_compute. reflexivity.
Qed.

(** C9, amended.  The anonymized identifier is a function of the pair
    (sessionId, siteId) alone, so equal pairs give equal outputs; two site
    identifiers give the same output for a session exactly when the 32-bit
    rolling hashes of [sessionId:siteId] coincide (which different site
    identifiers may do), and [getAnonymizedSessionId] of the session manager
    computes the same identifier. *)
Theorem hashSessionId_equal_iff_hash_equal :
  forall (sid a b : jsstring),
    (PrivacyEngine.hashSessionId sid a = PrivacyEngine.hashSessionId sid b <->
     rollingHash32 (sid ++ lit ":" ++ a) = rollingHash32 (sid ++ lit ":" ++ b)) /\
    (forall m : SessionManager.t,
        getAnonymizedSessionId m = PrivacyEngine.hashSessionId (sessionId m) (siteId m)).
Proof.
  intros sid a b. split; [|reflexivity].
  rewrite !hashSessionId_hashString, !hashString_rolling.
  split.
  - apply toStringRadix_inj; unfold rollingHash32; lia.
  - intros ->. reflexivity.
Qed.

End HashFacts.

(* ================================================================== *)
(** * Properties: the pending buffer is bounded                        *)
(* ================================================================== *)

Module EventCollectorFacts.
Import EventCollector Samples.

Lemma addEvent_flushSize env event this :
  flushSize (addEvent env event this) = flushSize this.
Proof.
  unfold addEvent.
  destruct (negb _); [reflexivity|].
  destruct (_ >? _); reflexivity.
Qed.

Lemma step_flushSize this c : flushSize (step this c) = flushSize this.
Proof. destruct c; [apply addEvent_flushSize|reflexivity]. Qed.

Lemma run_cons c cs this : run (c :: cs) this = run cs (step this c).
Proof. reflexivity. Qed.

Lemma run_flushSize cs : forall this, flushSize (run cs this) = flushSize this.
Proof.
  induction cs as [|c cs IH]; intros this; [reflexivity|].
  rewrite run_cons, IH. apply step_flushSize.
Qed.

(** [slice(-n)] of an array of at least [n >= 1] elements keeps its last
    [n] elements. *)
Lemma slice_negative n (a : list EventData) :
  1 <= n <= Z.of_nat (length a) ->
  exists dropped, a = dropped ++ slice (- n) a /\
                  Z.of_nat (length (slice (- n) a)) = n.
Proof.
  intros H. unfold slice.
  destruct (Z.ltb_spec (- n) 0) as [_|H0]; [|lia].
  rewrite Z.max_l by lia.
  exists (firstn (Z.to_nat (Z.of_nat (length a) + - n)) a).
  split; [symmetry; apply firstn_skipn|].
  rewrite length_skipn. lia.
Qed.

(** One call of [addEvent] keeps the bound. *)
Lemma addEvent_bounded env event this :
  1 <= flushSize this ->
  getEventCount this <= 2 * flushSize this ->
  getEventCount (addEvent env event this) <= 2 * flushSize this.
Proof.
  unfold getEventCount, addEvent. intros Hf Hb.
  destruct (negb _); [exact Hb|].
  destruct (Z.gtb_spec (Z.of_nat (length (events this ++ [event]))) (flushSize this * 2))
    as [Hgt|Hle]; cbn [events].
  - destruct (slice_negative (flushSize this) (events this ++ [event])) as (d & _ & Hl).
    + lia.
    + rewrite Hl. lia.
  - lia.
Qed.

Lemma run_bounded cs : forall this,
  1 <= flushSize this ->
  getEventCount this <= 2 * flushSize this ->
  getEventCount (run cs this) <= 2 * flushSize this.
Proof.
  induction cs as [|c cs IH]; intros this Hf Hb; [exact Hb|].
  rewrite run_cons, <- (step_flushSize this c).
  apply IH; rewrite step_flushSize; [exact Hf|].
  destruct c.
  - apply addEvent_bounded; assumption.
  - unfold step, getAndClearEvents, getEventCount. cbn [snd events length]. lia.
Qed.

(** C7. With [flushSize >= 1], after any sequence of [addEvent] and
    [getAndClearEvents] calls on a new collector the buffer holds at most
    [2 * flushSize] events; and when an accepted event would take the buffer
    past that bound, the buffer becomes exactly the last [flushSize] events
    of the extended sequence, the ones dropped being the oldest. *)
Theorem buffer_bounded_keeps_most_recent :
  forall (size : Z) (rate : Q) (cs : list call),
    1 <= size ->
    let this := run cs (init size rate) in
    getEventCount this <= 2 * size /\
    forall env event,
      shouldCollectEvent this env (evType event) = true ->
      Z.of_nat (length (events this ++ [event])) > 2 * size ->
      exists dropped,
        events this ++ [event] = dropped ++ events (addEvent env event this) /\
        getEventCount (addEvent env event this) = size.
Proof.
  intros size rate cs Hs this.
  assert (Hf : flushSize this = size) by (subst this; apply run_flushSize).
  split.
  - pose proof (run_bounded cs (init size rate)) as Hb.
    change (flushSize (init size rate)) with size in Hb.
    apply Hb; [exact Hs|].
    unfold getEventCount, init. cbn [events length]. lia.
  - intros env event Hc Hgt. unfold addEvent, getEventCount. rewrite Hc. cbn [negb].
    destruct (Z.gtb_spec (Z.of_nat (length (events this ++ [event]))) (flushSize this * 2))
      as [_|Hle]; [|lia].
    cbn [events]. rewrite Hf.
    apply slice_negative. lia.
Qed.

(** Three accepted events on a collector of [flushSize] 1. *)

Lemma buffer_bounded_keeps_most_recent_witness :
  let this := run [CallAdd calm (sampleEvent 1); CallAdd calm (sampleEvent 2)] (init 1 1%Q) in
  getEventCount this <= 2 * 1 /\
  events (addEvent calm (sampleEvent 3) this) = [sampleEvent 3] /\
  exists dropped,
    events this ++ [sampleEvent 3] = dropped ++ events (addEvent calm (sampleEvent 3) this) /\
    getEventCount (addEvent calm (sampleEvent 3) this) = 1.
Proof.
  pose proof (buffer_bounded_keeps_most_recent 1 1%Q
                [CallAdd calm (sampleEvent 1); CallAdd calm (sampleEvent 2)]
                ltac:(lia)) as [Hb Ht].
  intros this. split; [exact Hb|]. split; [reflexivity|].
  apply Ht; [reflexivity|]. vm_compute. reflexivity.
Defined.

End EventCollectorFacts.

(* ================================================================== *)
(** * Properties: the device score never excludes a session            *)
(* ================================================================== *)

Module PerformanceFacts.
Import PerformanceMonitor InsightLiteSDK Samples NumberFacts.

Local Open Scope Q_scope.

Lemma orDefault_nonneg x d :
  0 <= d -> (forall q, x = Some q -> 0 <= q) -> 0 <= orDefault x d.
Proof.
  intros Hd Hx. unfold orDefault. destruct x as [q|]; [|exact Hd].
  destruct (Qeq_bool q 0); [exact Hd|]. apply Hx. reflexivity.
Qed.

Lemma connection_share_nonneg ty : 0 <= orDefault (effectiveTypes ty) 0.2.
Proof. destruct ty; vm_compute; discriminate. Qed.

(** The score before the final cap is at least the base score. *)
Lemma score_range nav :
  (forall q, deviceMemory nav = Some q -> 0 <= q) ->
  (forall q, hardwareConcurrency nav = Some q -> 0 <= q) ->
  0.5 <= getDevicePerformanceScore nav <= 1.0.
Proof.
  intros Hm Hc. unfold getDevicePerformanceScore.
  pose proof (orDefault_nonneg (deviceMemory nav) 4 ltac:(lra) Hm) as Hm'.
  pose proof (orDefault_nonneg (hardwareConcurrency nav) 4 ltac:(lra) Hc) as Hc'.
  set (memory := orDefault (deviceMemory nav) 4) in *.
  set (cores := orDefault (hardwareConcurrency nav) 4) in *.
  assert (H1 : 0 <= Qmin (memory / 16) 0.3)
    by (apply Q.min_glb; [apply Qle_shift_div_l; lra | lra]).
  assert (H2 : 0 <= Qmin (cores / 8) 0.2)
    by (apply Q.min_glb; [apply Qle_shift_div_l; lra | lra]).
  split.
  - apply Q.min_glb; [|lra].
    destruct (connection nav) as [ty|].
    + pose proof (connection_share_nonneg ty). lra.
    + lra.
  - apply Q.le_min_r.
Qed.

(** C10. Whatever non-negative memory size and core count the browser
    reports (or leaves out), and whatever the connection class, the device
    score lies in [0.5, 1.0]; hence the test [performanceScore < 0.3] of
    [shouldInitialize] always fails and no session is excluded on
    device-performance grounds. *)
Theorem device_score_never_excludes :
  forall nav : navigator,
    (forall q, deviceMemory nav = Some q -> 0 <= q) ->
    (forall q, hardwareConcurrency nav = Some q -> 0 <= q) ->
    0.5 <= getDevicePerformanceScore nav <= 1.0 /\
    forall config sessionManager,
      fst (fst (shouldInitializePath config sessionManager nav)) <> ExcludedByPerformance /\
      shouldInitialize config sessionManager nav =
      fst (SessionManager.shouldTrackSession (sampleRate config) sessionManager).
Proof.
  intros nav Hm Hc.
  pose proof (score_range nav Hm Hc) as Hs.
  split; [exact Hs|].
  intros config sm.
  assert (Hlt : Qltb (getDevicePerformanceScore nav) 0.3 = false)
    by (apply Qltb_false_iff; lra).
  unfold shouldInitialize, shouldInitializePath.
  destruct (SessionManager.shouldTrackSession (sampleRate config) sm) as [d sm'].
  cbn [fst]. destruct d; cbn [negb].
  - rewrite Hlt. split; [discriminate|reflexivity].
  - split; [discriminate|reflexivity].
Qed.

Lemma device_score_never_excludes_witness :
  0.5 <= getDevicePerformanceScore desktop <= 1.0 /\
  forall config sessionManager,
    fst (fst (shouldInitializePath config sessionManager desktop)) <> ExcludedByPerformance /\
    shouldInitialize config sessionManager desktop =
    fst (SessionManager.shouldTrackSession (sampleRate config) sessionManager).
Proof.
  apply (device_score_never_excludes desktop).
  - intros q E. injection E as <-. vm_compute. discriminate.
  - intros q E. injection E as <-. vm_compute. discriminate.
Defined.

End PerformanceFacts.

(* ================================================================== *)
(** * Properties: retry with backoff                                   *)
(* ================================================================== *)

Module TransportFacts.
Import EventTransport TransportSpec TransportSamples.

Section WithNetwork.

Variable network : nat -> option error.

Lemma handleSendError_unfold fuel q e w :
  handleSendError network (S fuel) q e w =
  if isRetryableError e && (retryCount q <? maxRetries w)
  then retryWithBackoff network (handleSendError network fuel) q w
  else Some (record (Console (ConsoleError "[Transport] Failed to send events after retries:" e))
                    (record (Emit "error" (Some e)) w)).
Proof. reflexivity. Qed.

Lemma giveUp_trace e w :
  record (Console (ConsoleError "[Transport] Failed to send events after retries:" e))
         (record (Emit "error" (Some e)) w) =
  mk (maxRetries w) (transportRetryCount w) (attempts w) (trace w ++ giveUp e).
Proof.
  unfold record, giveUp. cbn [maxRetries transportRetryCount attempts trace].
  rewrite <- app_assoc. reflexivity.
Qed.

Lemma retryWithBackoff_failed handle q w e :
  network (attempts w) = Some e ->
  retryWithBackoff network handle q w =
  handle (mkQueued (retryCount q + 1)) e
         (mk (maxRetries w) (transportRetryCount w + 1) (S (attempts w))
             (trace w ++ [SetTimeout (backoff (retryCount q + 1)); AttemptSend])).
Proof.
  intros H. unfold retryWithBackoff, _attemptSend, record, setRetryCount, backoff.
  cbn [maxRetries transportRetryCount attempts trace retryCount].
  rewrite H, <- app_assoc. reflexivity.
Qed.

Lemma retryWithBackoff_sent handle q w :
  network (attempts w) = None ->
  retryWithBackoff network handle q w =
  Some (mk (maxRetries w) 0 (S (attempts w))
           (trace w ++ [SetTimeout (backoff (retryCount q + 1)); AttemptSend;
                        Emit "success" None])).
Proof.
  intros H. unfold retryWithBackoff, _attemptSend, record, setRetryCount, backoff.
  cbn [maxRetries transportRetryCount attempts trace retryCount].
  rewrite H. cbn [maxRetries transportRetryCount attempts trace].
  rewrite <- !app_assoc. reflexivity.
Qed.

(** With every attempt failing on a retryable error, the [n] retries that
    remain are all made and the batch is then given up. *)
Lemma retries_exhausted :
  (forall i, exists e, network i = Some e /\ isRetryableError e = true) ->
  forall n fuel k q e w,
    isRetryableError e = true ->
    retryCount q = Z.of_nat k ->
    maxRetries w = Z.of_nat (k + n) ->
    (n < fuel)%nat ->
    exists e',
      handleSendError network fuel q e w =
      Some (mk (maxRetries w) (transportRetryCount w + Z.of_nat n) (attempts w + n)
               (trace w ++ retryRounds (S k) n ++ giveUp e')).
Proof.
  intros Hnet. induction n as [|n IH]; intros fuel k q e w He Hq Hm Hfuel.
  - destruct fuel as [|fuel]; [lia|].
    rewrite handleSendError_unfold, He.
    destruct (Z.ltb_spec (retryCount q) (maxRetries w)) as [Hlt|_]; [lia|].
    cbn [andb]. rewrite giveUp_trace. exists e.
    rewrite Z.add_0_r, Nat.add_0_r. reflexivity.
  - destruct fuel as [|fuel]; [lia|].
    rewrite handleSendError_unfold, He.
    destruct (Z.ltb_spec (retryCount q) (maxRetries w)) as [_|Hge]; [|lia].
    cbn [andb].
    destruct (Hnet (attempts w)) as (e1 & Hn1 & He1).
    rewrite (retryWithBackoff_failed _ _ _ _ Hn1).
    destruct (IH fuel (S k) (mkQueued (retryCount q + 1)) e1
                 (mk (maxRetries w) (transportRetryCount w + 1) (S (attempts w))
                     (trace w ++ [SetTimeout (backoff (retryCount q + 1)); AttemptSend]))
                 He1) as (e' & Hres).
    + cbn [retryCount]. lia.
    + cbn [maxRetries]. lia.
    + lia.
    + exists e'. rewrite Hres. cbn [maxRetries transportRetryCount attempts trace].
      f_equal. f_equal.
      * lia.
      * lia.
      * rewrite <- app_assoc. f_equal.
        unfold retryRounds. cbn [seq flat_map]. rewrite Hq.
        replace (Z.of_nat k + 1) with (Z.of_nat (S k)) by lia.
        rewrite <- app_assoc. reflexivity.
Qed.

End WithNetwork.

Lemma delays_app a b : delays (a ++ b) = delays a ++ delays b.
Proof.
  induction a as [|x a IH]; [reflexivity|].
  destruct x; cbn [app delays]; rewrite IH; reflexivity.
Qed.

Lemma delays_retryRounds n : forall from,
  delays (retryRounds from n) = map (fun k => backoff (Z.of_nat k)) (seq from n).
Proof.
  unfold retryRounds.
  induction n as [|n IH]; intros from; [reflexivity|].
  cbn [seq flat_map map app delays]. rewrite IH. reflexivity.
Qed.

Lemma filter_retryRounds_attempts n : forall from,
  length (filter isAttempt (retryRounds from n)) = n.
Proof.
  unfold retryRounds.
  induction n as [|n IH]; intros from; [reflexivity|].
  cbn [seq flat_map app filter isAttempt length]. rewrite IH. reflexivity.
Qed.

Lemma filter_retryRounds_emit ev n : forall from,
  filter (isEmit ev) (retryRounds from n) = [].
Proof.
  unfold retryRounds.
  induction n as [|n IH]; intros from; [reflexivity|].
  cbn [seq flat_map app filter isEmit]. apply IH.
Qed.

(** C5. When every send of a batch fails with a retryable error and
    [maxRetries >= 0], [sendBatch] terminates having made exactly
    [maxRetries + 1] attempts; the timer before the k-th retry is
    [min(1000 * 2^(k-1), 30000)] ms; the batch is then dropped: the last
    actions are one ['error'] notification and the console message, and no
    ['success'] is ever emitted. *)
Theorem retry_backoff_schedule_and_exhaustion :
  forall (network : nat -> option error) (limit : Z) (fuel : nat),
    0 <= limit ->
    (forall i, exists e, network i = Some e /\ isRetryableError e = true) ->
    (Z.to_nat limit < fuel)%nat ->
    exists w e,
      sendBatch network fuel (init limit) = Some w /\
      trace w = AttemptSend :: retryRounds 1 (Z.to_nat limit) ++ giveUp e /\
      attempts w = S (Z.to_nat limit) /\
      length (filter isAttempt (trace w)) = S (Z.to_nat limit) /\
      delays (trace w) =
        map (fun k => Z.min (1000 * 2 ^ (Z.of_nat k - 1)) 30000) (seq 1 (Z.to_nat limit)) /\
      length (filter (isEmit "error") (trace w)) = 1%nat /\
      filter (isEmit "success") (trace w) = [].
Proof.
  intros network limit fuel Hl Hnet Hfuel.
  destruct (Hnet 0%nat) as (e0 & Hn0 & He0).
  unfold sendBatch, _attemptSend, init.
  cbn [maxRetries transportRetryCount attempts trace app]. rewrite Hn0.
  destruct (retries_exhausted network Hnet (Z.to_nat limit) fuel 0 (mkQueued 0) e0
              (mk limit 0 1 [AttemptSend]) He0) as (e' & Hres).
  - reflexivity.
  - cbn [maxRetries]. lia.
  - exact Hfuel.
  - rewrite Hres. cbn [maxRetries transportRetryCount attempts trace].
    eexists. exists e'. split; [reflexivity|].
    cbn [trace attempts app].
    split; [reflexivity|]. split; [reflexivity|].
    split; [|split; [|split]].
    + cbn [filter isAttempt length]. rewrite filter_app, length_app, filter_retryRounds_attempts.
      cbn. lia.
    + cbn [delays]. rewrite delays_app, delays_retryRounds. cbn [giveUp delays].
      rewrite app_nil_r. reflexivity.
    + cbn [filter isEmit]. rewrite filter_app, filter_retryRounds_emit. reflexivity.
    + cbn [filter isEmit]. rewrite filter_app, filter_retryRounds_emit. reflexivity.
Qed.

Lemma retry_backoff_schedule_and_exhaustion_witness :
  exists w e,
    sendBatch (alwaysFails serverError) 4 (init 3) = Some w /\
    trace w = AttemptSend :: retryRounds 1 (Z.to_nat 3) ++ giveUp e /\
    attempts w = S (Z.to_nat 3) /\
    length (filter isAttempt (trace w)) = S (Z.to_nat 3) /\
    delays (trace w) =
      map (fun k => Z.min (1000 * 2 ^ (Z.of_nat k - 1)) 30000) (seq 1 (Z.to_nat 3)) /\
    length (filter (isEmit "error") (trace w)) = 1%nat /\
    filter (isEmit "success") (trace w) = [].
Proof.
  apply (retry_backoff_schedule_and_exhaustion (alwaysFails serverError) 3 4).
  - lia.
  - intros i. exists (errorOf serverError). split; [reflexivity|]. vm_compute. reflexivity.
  - vm_compute. lia.
Defined.

(** Three consecutive retryable failures wait 1000, 2000 and 4000 ms. *)
Example backoff_1000_2000_4000 :
  delays (traceOf (sendBatch (alwaysFails serverError) 4 (init 3))) = [1000; 2000; 4000] /\
  map backoff [1; 2; 3; 4; 5; 6; 7] = [1000; 2000; 4000; 8000; 16000; 30000; 30000].
Proof. split; vm_compute; reflexivity. Qed.

(** ** Classification of errors *)

Lemma isRetryableError_false_iff e :
  isRetryableError e = false <-> terminalError e.
Proof.
  unfold isRetryableError, terminalError.
  destruct (messageIncludes e "Network error").
  { split; [discriminate|]. intros [H _]. discriminate H. }
  destruct (messageIncludes e "timeout").
  { split; [discriminate|]. intros (_ & H & _). discriminate H. }
  destruct (extractHttpStatus e) as [status|].
  - destruct (Z.eqb_spec status 0) as [H0|H0].
    { split; [discriminate|]. intros (_ & _ & st & [= <-] & Hz & _). contradiction. }
    destruct (Z.geb_spec status 500) as [H5|H5].
    { split; [discriminate|]. intros (_ & _ & st & [= <-] & _ & Hlt & _). lia. }
    destruct (Z.eqb_spec status 429) as [H4|H4].
    { split; [discriminate|]. intros (_ & _ & st & [= <-] & _ & _ & Hne). contradiction. }
    split; [|reflexivity]. intros _.
    split; [reflexivity|]. split; [reflexivity|].
    exists status. repeat split; try assumption; lia.
  - split; [discriminate|]. intros (_ & _ & st & Hst & _). discriminate Hst.
Qed.

Lemma isRetryableError_true_iff e :
  isRetryableError e = true <-> ~ terminalError e.
Proof.
  rewrite <- isRetryableError_false_iff.
  destruct (isRetryableError e); split; congruence.
Qed.

Section Scheduling.

Variable network : nat -> option error.

(** [handleSendError] terminates once the recursion depth exceeds the
    retries that remain, whatever the network does; it either sets the
    backoff timer first or gives the batch up at once. *)
Lemma handleSendError_total : forall n fuel q e w,
  maxRetries w - retryCount q <= Z.of_nat n ->
  (n < fuel)%nat ->
  exists w' ext,
    handleSendError network fuel q e w = Some w' /\
    trace w' = trace w ++ ext /\
    (isRetryableError e && (retryCount q <? maxRetries w) = true ->
     exists rest, ext = SetTimeout (backoff (retryCount q + 1)) :: AttemptSend :: rest) /\
    (isRetryableError e && (retryCount q <? maxRetries w) = false ->
     ext = giveUp e /\ attempts w' = attempts w).
Proof.
  induction n as [|n IH]; intros fuel q e w Hn Hfuel.
  - destruct fuel as [|fuel]; [lia|].
    rewrite handleSendError_unfold.
    destruct (Z.ltb_spec (retryCount q) (maxRetries w)) as [Hlt|_]; [lia|].
    rewrite andb_false_r, giveUp_trace.
    eexists. exists (giveUp e). split; [reflexivity|]. cbn [trace attempts].
    split; [reflexivity|]. split; [discriminate|]. intros _. split; reflexivity.
  - destruct fuel as [|fuel]; [lia|].
    rewrite handleSendError_unfold.
    destruct (isRetryableError e && (retryCount q <? maxRetries w)) eqn:Hc.
    + destruct (network (attempts w)) as [e1|] eqn:Hn1.
      * rewrite (retryWithBackoff_failed _ _ _ _ _ Hn1).
        destruct (IH fuel (mkQueued (retryCount q + 1)) e1
                     (mk (maxRetries w) (transportRetryCount w + 1) (S (attempts w))
                         (trace w ++ [SetTimeout (backoff (retryCount q + 1)); AttemptSend])))
          as (w' & ext & Hres & Htr & _).
        -- cbn [maxRetries retryCount]. lia.
        -- lia.
        -- exists w', ([SetTimeout (backoff (retryCount q + 1)); AttemptSend] ++ ext).
           split; [exact Hres|]. cbn [trace] in Htr. rewrite Htr, <- app_assoc.
           split; [reflexivity|]. split; [|discriminate].
           intros _. exists ext. reflexivity.
      * rewrite (retryWithBackoff_sent _ _ _ _ Hn1).
        eexists. eexists. split; [reflexivity|]. cbn [trace].
        split; [reflexivity|]. split; [|discriminate].
        intros _. eexists. reflexivity.
    + rewrite giveUp_trace.
      eexists. exists (giveUp e). split; [reflexivity|]. cbn [trace attempts].
      split; [reflexivity|]. split; [discriminate|]. intros _. split; reflexivity.
Qed.

End Scheduling.

Lemma giveUp_no_timer e : ~ retryScheduled (giveUp e).
Proof. intros (d & [H|[H|[]]]); discriminate H. Qed.

(** ** Errors of HTTP responses: the status is read back from the message *)

Lemma digitChar_isDigit d : 0 <= d < 10 -> Regex.isDigit (digitChar d) = true.
Proof.
  intros H. unfold Regex.isDigit, digitChar.
  destruct (Z.ltb_spec d 10); [|lia].
  apply andb_true_iff. split; apply Z.leb_le; lia.
Qed.

Lemma digits_decimal fuel : forall n,
  0 <= n -> Forall (fun c => Regex.isDigit c = true) (digits 10 fuel n) /\
            digits 10 fuel n <> [].
Proof.
  induction fuel as [|fuel IH]; intros n Hn; cbn [digits].
  - split; [|discriminate]. constructor; [|constructor].
    apply digitChar_isDigit, Z.mod_pos_bound. lia.
  - destruct (Z.ltb_spec n 10).
    + split; [|discriminate]. constructor; [|constructor].
      apply digitChar_isDigit. lia.
    + destruct (IH (n / 10)) as [Hall _]; [apply Z.div_pos; lia|].
      split.
      * apply Forall_app. split; [exact Hall|]. constructor; [|constructor].
        apply digitChar_isDigit, Z.mod_pos_bound. lia.
      * intros E. apply app_eq_nil in E as [_ E]. discriminate E.
Qed.

Lemma parseInt_digits l :
  Forall (fun c => Regex.isDigit c = true) l -> parseInt l = HashSpec.parseRadix 10 l.
Proof.
  unfold parseInt, HashSpec.parseRadix. generalize 0.
  induction l as [|c l IH]; intros acc H; [reflexivity|].
  inversion H as [|? ? Hc Hl]; subst.
  rewrite !HashFacts.fold_left_step, IH by exact Hl. f_equal.
  unfold HashSpec.digitValue, Regex.isDigit in *.
  apply andb_true_iff in Hc as [_ Hc]. apply Z.leb_le in Hc.
  destruct (Z.ltb_spec c 58); [reflexivity|lia].
Qed.

Lemma run_digits l rest :
  Forall (fun c => Regex.isDigit c = true) l ->
  Regex.run Regex.isDigit (l ++ lit ": " ++ rest) = length l.
Proof.
  induction 1 as [|c l Hc _ IH]; [reflexivity|].
  cbn [app Regex.run length]. rewrite Hc, IH. reflexivity.
Qed.

Lemma rev_seq_head n : exists tl, rev (seq 1 (S n)) = S n :: tl.
Proof.
  exists (rev (seq 1 n)). rewrite seq_S, rev_app_distr. reflexivity.
Qed.

Lemma ends_httpStatus l rest :
  Forall (fun c => Regex.isDigit c = true) l -> l <> [] ->
  exists tl,
    Regex.ends httpStatusPattern (lit "HTTP " ++ l ++ lit ": " ++ rest) 0 =
    (5 + length l)%nat :: tl.
Proof.
  intros Hl Hne.
  change (Regex.ends httpStatusPattern (lit "HTTP " ++ l ++ lit ": " ++ rest) 0)
    with (map (fun k => (5 + k)%nat)
              (rev (seq 1 (Regex.run Regex.isDigit (l ++ lit ": " ++ rest)))) ++ []).
  rewrite run_digits by exact Hl.
  destruct l as [|c l]; [contradiction|]. cbn [length].
  destruct (rev_seq_head (length l)) as (tl & ->).
  cbn [map app]. eexists. reflexivity.
Qed.

Lemma extractHttpStatus_errorOf status statusText :
  0 <= status ->
  extractHttpStatus (errorOf (HttpFailure status statusText)) = Some status.
Proof.
  intros Hs. unfold extractHttpStatus, errorOf. cbn [message].
  destruct (digits_decimal (Z.to_nat (Z.log2 status)) status Hs) as [Hall Hne].
  fold (toStringRadix 10 status) in Hall, Hne.
  destruct (ends_httpStatus (toStringRadix 10 status) statusText Hall Hne) as (tl & He).
  unfold exec.
  destruct (length (lit "HTTP " ++ toStringRadix 10 status ++ lit ": " ++ statusText));
    cbn [execFrom]; rewrite He.
  all: f_equal; unfold Regex.substring.
  all: change (skipn (0 + 5) (lit "HTTP " ++ toStringRadix 10 status ++ lit ": " ++ statusText))
         with (toStringRadix 10 status ++ lit ": " ++ statusText).
  all: replace (5 + length (toStringRadix 10 status) - (0 + 5))%nat
         with (length (toStringRadix 10 status) + 0)%nat by lia.
  all: rewrite firstn_app_2, firstn_O, app_nil_r, parseInt_digits by exact Hall.
  all: apply HashFacts.parseRadix_toStringRadix; lia.
Qed.

Lemma startsWith_head c needle h hay :
  h <> c -> startsWith (c :: needle) (h :: hay) = false.
Proof.
  intros H. cbn [startsWith]. destruct (Z.eqb_spec c h); [congruence|reflexivity].
Qed.

(** A needle whose first character does not occur in a prefix can only
    be found after it. *)
Lemma includes_after c needle prefix rest :
  Forall (fun h => h <> c) prefix ->
  includes (c :: needle) (prefix ++ rest) = includes (c :: needle) rest.
Proof.
  induction 1 as [|h prefix Hh _ IH]; [reflexivity|].
  cbn [app includes]. rewrite startsWith_head by exact Hh. exact IH.
Qed.

Lemma messageIncludes_httpFailure status statusText (needle : string) c tl :
  0 <= status ->
  lit needle = c :: tl -> c <> 72 -> c <> 84 -> c <> 80 -> c <> 32 -> c <> 58 ->
  Regex.isDigit c = false ->
  messageIncludes (errorOf (HttpFailure status statusText)) needle =
  includes (lit needle) statusText.
Proof.
  intros Hs Hn H1 H2 H3 H4 H5 Hd. unfold messageIncludes, errorOf. cbn [message].
  rewrite Hn.
  rewrite !app_assoc. apply includes_after.
  destruct (digits_decimal (Z.to_nat (Z.log2 status)) status Hs) as [Hall _].
  fold (toStringRadix 10 status) in Hall.
  apply Forall_app; split; [apply Forall_app; split|].
  - change (lit "HTTP ") with [72; 84; 84; 80; 32].
    repeat (apply Forall_cons; [congruence|]). apply Forall_nil.
  - eapply Forall_impl; [|exact Hall]. cbn beta. intros a Ha ->. congruence.
  - change (lit ": ") with [58; 32].
    repeat (apply Forall_cons; [congruence|]). apply Forall_nil.
Qed.

(** Failures of the classes the specification lists are retryable, and
    an HTTP failure below 500 other than 429 is terminal unless its status
    text mentions a timeout or a network error. *)
Lemma listed_classes_retryable f :
  retryableClass f = true -> isRetryableError (errorOf f) = true.
Proof.
  destruct f as [| |status statusText| |]; cbn [retryableClass]; try discriminate; intros H.
  1, 2: vm_compute; reflexivity.
  assert (Hs : 0 <= status).
  { apply orb_true_iff in H as [H|H]; [apply Z.leb_le in H|apply Z.eqb_eq in H]; lia. }
  unfold isRetryableError.
  destruct (messageIncludes _ "Network error"); [reflexivity|].
  destruct (messageIncludes _ "timeout"); [reflexivity|].
  rewrite extractHttpStatus_errorOf by exact Hs.
  destruct (Z.eqb_spec status 0); [reflexivity|].
  apply orb_true_iff in H as [H|H]; apply orb_true_iff; [left|right; exact H].
  apply Z.leb_le in H. apply Z.geb_le. exact H.
Qed.

Lemma client_error_terminal status statusText :
  400 <= status < 500 -> status <> 429 ->
  includes (lit "Network error") statusText = false ->
  includes (lit "timeout") statusText = false ->
  terminalError (errorOf (HttpFailure status statusText)).
Proof.
  intros Hs H429 Hn Ht. unfold terminalError.
  rewrite (messageIncludes_httpFailure status statusText "Network error" 78
             (lit "etwork error")) by (try reflexivity; lia).
  rewrite (messageIncludes_httpFailure status statusText "timeout" 116
             (lit "imeout")) by (try reflexivity; lia).
  split; [exact Hn|]. split; [exact Ht|].
  exists status. split; [apply extractHttpStatus_errorOf; lia|]. lia.
Qed.

(** C4 as stated fails: a batch whose events are all rejected by the
    validation of [_attemptSend] fails with [No valid events to send], which
    belongs to none of the retryable classes, and is retried all the same. *)
Lemma unclassified_error_is_retried :
  ~ (retryScheduled (traceOf (sendBatch (alwaysFails NoValidEvents) 4 (init 3))) <->
     retryableClass NoValidEvents = true).
Proof.
  intros [H _].
  assert (Hs : retryScheduled (traceOf (sendBatch (alwaysFails NoValidEvents) 4 (init 3)))).
  { exists 1000. vm_compute. right. left. reflexivity. }
  apply H in Hs. discriminate Hs.
Qed.

(** C4, amended.  Given enough recursion depth, [handleSendError]
    terminates, and it schedules a retry if and only if retries remain
    ([retryCount < maxRetries]) and the error is not terminal, an error
    being terminal when its message mentions neither [Network error] nor
    [timeout] and carries an HTTP status other than 0 and 429 below 500
    (errors without a status are retried by default).  No failure of the
    listed retryable classes is terminal.  A terminal error gives the batch
    up at once: one ['error'] notification and no further attempt; so a
    batch whose first send fails with HTTP 400, or any other 4xx status but
    429 (the status text not mentioning a timeout or a network error), sees
    exactly one attempt, one ['error'] notification and no retry. *)
Theorem retry_iff_budget_and_not_terminal :
  forall (network : nat -> option error) (fuel : nat) (q : QueuedEvent) (e : error) (w : t),
    (Z.to_nat (maxRetries w - retryCount q) < fuel)%nat ->
    (exists w' ext,
        handleSendError network fuel q e w = Some w' /\
        trace w' = trace w ++ ext /\
        (retryScheduled ext <-> (~ terminalError e /\ retryCount q < maxRetries w)) /\
        (terminalError e -> ext = giveUp e /\ attempts w' = attempts w)) /\
    (forall f, retryableClass f = true -> ~ terminalError (errorOf f)) /\
    (forall status statusText limit,
        400 <= status < 500 -> status <> 429 ->
        includes (lit "Network error") statusText = false ->
        includes (lit "timeout") statusText = false ->
        network 0%nat = Some (errorOf (HttpFailure status statusText)) ->
        sendBatch network fuel (init limit) =
        Some (mk limit 0 1 (AttemptSend :: giveUp (errorOf (HttpFailure status statusText))))).
Proof.
  intros network fuel q e w Hfuel. split; [|split].
  - destruct (handleSendError_total network (Z.to_nat (maxRetries w - retryCount q)) fuel q e w)
      as (w' & ext & Hres & Htr & Hyes & Hno); [lia|exact Hfuel|].
    exists w', ext. split; [exact Hres|]. split; [exact Htr|].
    destruct (isRetryableError e && (retryCount q <? maxRetries w)) eqn:Hc.
    + apply andb_true_iff in Hc as [Hr Hlt].
      apply isRetryableError_true_iff in Hr. apply Z.ltb_lt in Hlt.
      destruct (Hyes eq_refl) as (rest & ->).
      split.
      * split; [intros _; split; assumption|].
        intros _. eexists. left. reflexivity.
      * intros Ht. contradiction.
    + destruct (Hno eq_refl) as [-> Ha].
      split.
      * split; [intros Hs; destruct (giveUp_no_timer e Hs)|].
        intros [Hnt Hlt]. apply isRetryableError_true_iff in Hnt.
        apply Z.ltb_lt in Hlt. rewrite Hnt, Hlt in Hc. discriminate Hc.
      * intros _. split; [reflexivity|exact Ha].
  - intros f Hf. apply isRetryableError_true_iff, listed_classes_retryable, Hf.
  - intros status statusText limit Hs H429 Hn Ht Hn0.
    pose proof (client_error_terminal status statusText Hs H429 Hn Ht) as Hterm.
    apply isRetryableError_false_iff in Hterm.
    unfold sendBatch, _attemptSend, init.
    cbn [maxRetries transportRetryCount attempts trace app]. rewrite Hn0.
    destruct fuel as [|fuel]; [lia|].
    rewrite handleSendError_unfold, Hterm. cbn [andb].
    rewrite giveUp_trace. reflexivity.
Qed.

Lemma retry_iff_budget_and_not_terminal_witness :
  (exists w' ext,
      handleSendError (alwaysFails badRequest) 4 (mkQueued 0) (errorOf badRequest)
                      (mk 3 0 1 [AttemptSend]) = Some w' /\
      trace w' = [AttemptSend] ++ ext /\
      (retryScheduled ext <-> (~ terminalError (errorOf badRequest) /\ 0 < 3)) /\
      (terminalError (errorOf badRequest) ->
       ext = giveUp (errorOf badRequest) /\ attempts w' = 1%nat)) /\
  sendBatch (alwaysFails badRequest) 4 (init 3) =
  Some (mk 3 0 1 (AttemptSend :: giveUp (errorOf badRequest))).
Proof.
  destruct (retry_iff_budget_and_not_terminal (alwaysFails badRequest) 4 (mkQueued 0)
              (errorOf badRequest) (mk 3 0 1 [AttemptSend])) as (H1 & _ & H3).
  - vm_compute. lia.
  - split; [exact H1|].
    apply (H3 400 (lit "Bad Request") 3); try reflexivity; lia.
Defined.

End TransportFacts.

(* ================================================================== *)
(** * Properties: validation of the configuration                      *)
(* ================================================================== *)

Module ConfigFacts.
Import PrivacyEngine InsightLiteSDK ConfigSpec NumberFacts.

Lemma below_false_iff n bound :
  num_ltb n (Fin bound) = false <-> notBelow n bound.
Proof.
  destruct n; cbn [num_ltb notBelow]; [tauto|apply Qltb_false_iff|tauto|].
  split; [discriminate|contradiction].
Qed.

Lemma above_false_iff n bound :
  num_ltb (Fin bound) n = false <-> notAbove n bound.
Proof.
  destruct n; cbn [num_ltb notAbove]; [tauto|apply Qltb_false_iff| |tauto].
  split; [discriminate|contradiction].
Qed.

Lemma object_test_iff config :
  negb (truthy config) || negb (isType (typeof config) TObject) = false <-> isObject config.
Proof.
  unfold isObject.
  destruct config as [| |b|n|s|items|entries|e]; cbn [truthy typeof isType negb orb];
    try (split; [discriminate|intros [[? H]|[[? H]|[? H]]]; discriminate H]).
  - destruct b; split; try discriminate; intros [[? H]|[[? H]|[? H]]]; discriminate H.
  - rewrite orb_true_r. split; [discriminate|intros [[? H]|[[? H]|[? H]]]; discriminate H].
  - rewrite orb_true_r. split; [discriminate|intros [[? H]|[[? H]|[? H]]]; discriminate H].
  - split; [intros _; left; eexists; reflexivity|reflexivity].
  - split; [intros _; right; left; eexists; reflexivity|reflexivity].
  - split; [intros _; right; right; eexists; reflexivity|reflexivity].
Qed.

Lemma siteId_test_iff v :
  negb (truthy v) || negb (isType (typeof v) TString) ||
  match v with
  | JString s => match trim s with [] => true | _ => false end
  | _ => false
  end = false <-> nonBlankString v.
Proof.
  unfold nonBlankString.
  destruct v as [| |b|n|s|items|entries|e]; cbn [truthy typeof isType negb orb];
    try (split; [discriminate|intros (? & H & _); discriminate H]).
  - destruct b; split; try discriminate; intros (? & H & _); discriminate H.
  - rewrite orb_true_r. split; [discriminate|intros (? & H & _); discriminate H].
  - rewrite orb_false_r.
    destruct s as [|c s].
    + split; [discriminate|]. intros (s' & [= <-] & H). exfalso. apply H. reflexivity.
    + cbn [negb orb]. destruct (trim (c :: s)) eqn:Et.
      * split; [discriminate|]. intros (s' & [= <-] & H). congruence.
      * split; [|reflexivity]. intros _. exists (c :: s). split; [reflexivity|]. congruence.
Qed.

Lemma range_test_iff (v : JsValue) (outside : bool) (P : number -> Prop) :
  (forall n, v = JNumber n -> (outside = false <-> P n)) ->
  negb (isType (typeof v) TUndefined) &&
  (negb (isType (typeof v) TNumber) || outside) = false <-> absentOr P v.
Proof.
  intros H. unfold absentOr.
  destruct v as [| |b|n|s|items|entries|e]; cbn [typeof isType negb andb orb];
    try (split; [discriminate|intros [E|(? & E & _)]; discriminate E]).
  - split; [intros _; left; reflexivity|reflexivity].
  - rewrite (H n eq_refl). split.
    + intros Hp. right. exists n. split; [reflexivity|exact Hp].
    + intros [E|(n' & [= <-] & Hp)]; [discriminate E|exact Hp].
Qed.

Lemma validateConfig_ok_iff config :
  validateConfig config = Ok tt <-> acceptable config.
Proof.
  unfold validateConfig, acceptable, fail.
  rewrite <- object_test_iff, <- siteId_test_iff.
  rewrite <- (range_test_iff (getProp config "sampleRate")
                (below (getProp config "sampleRate") 0 || above (getProp config "sampleRate") 1)
                (fun n => notBelow n 0 /\ notAbove n 1)).
  2:{ intros n ->. cbn [below above]. rewrite orb_false_iff, below_false_iff, above_false_iff.
      reflexivity. }
  rewrite <- (range_test_iff (getProp config "flushInterval")
                (below (getProp config "flushInterval") 1000)
                (fun n => notBelow n 1000)).
  2:{ intros n ->. cbn [below]. apply below_false_iff. }
  rewrite <- (range_test_iff (getProp config "flushSize")
                (below (getProp config "flushSize") 1)
                (fun n => notBelow n 1)).
  2:{ intros n ->. cbn [below]. apply below_false_iff. }
  rewrite <- !orb_assoc.
  destruct (negb (truthy config) || negb (isType (typeof config) TObject));
    [split; [discriminate|intros [H _]; discriminate H]|].
  destruct (negb (truthy (getProp config "siteId")) ||
            (negb (isType (typeof (getProp config "siteId")) TString) || _));
    [split; [discriminate|intros (_ & H & _); discriminate H]|].
  destruct (negb (isType (typeof (getProp config "sampleRate")) TUndefined) && _);
    [split; [discriminate|intros (_ & _ & H & _); discriminate H]|].
  destruct (negb (isType (typeof (getProp config "flushInterval")) TUndefined) && _);
    [split; [discriminate|intros (_ & _ & _ & H & _); discriminate H]|].
  destruct (negb (isType (typeof (getProp config "flushSize")) TUndefined) && _);
    [split; [discriminate|intros (_ & _ & _ & _ & H); discriminate H]|].
  split; [intros _; repeat split|reflexivity].
Qed.

Lemma validateConfig_cases config :
  validateConfig config = Ok tt \/ throws (validateConfig config).
Proof.
  unfold validateConfig, throws, fail.
  repeat match goal with
         | |- context [if ?c then _ else _] => destruct c; [right; eexists; reflexivity|]
         end.
  left. reflexivity.
Qed.

(** ** The validation at work *)

Example validateConfig_examples :
  validateConfig (JObject []) =
    fail "siteId is required and must be a non-empty string" /\
  validateConfig (JObject [(lit "siteId", JString []); (lit "sampleRate", JNumber (Fin (-1)))]) =
    fail "siteId is required and must be a non-empty string" /\
  validateConfig (JObject [(lit "siteId", JString (lit "   "))]) =
    fail "siteId is required and must be a non-empty string" /\
  validateConfig JNull = fail "Configuration object is required" /\
  validateConfig (JObject [(lit "siteId", JString (lit "test-site"))]) = Ok tt /\
  validateConfig (JObject [(lit "siteId", JString (lit "test-site"));
                           (lit "sampleRate", JNumber (Fin 1.5))]) =
    fail "sampleRate must be a number between 0 and 1" /\
  validateConfig (JObject [(lit "siteId", JString (lit "test-site"));
                           (lit "sampleRate", JNumber NaN)]) = Ok tt /\
  validateConfig (JObject [(lit "siteId", JString (lit "test-site"));
                           (lit "flushInterval", JNumber (Fin 999))]) =
    fail "flushInterval must be a number >= 1000ms" /\
  validateConfig (JObject [(lit "siteId", JString (lit "test-site"));
                           (lit "flushSize", JNumber (Fin 0))]) =
    fail "flushSize must be a positive number".
Proof. repeat split; vm_compute; reflexivity. Qed.

(** C8 as stated fails: [{ siteId: 'site-1', maxRetries: -1 }] has a
    negative [maxRetries] and passes the validation. *)
Lemma negative_maxRetries_accepted :
  ~ (throws (validateConfig negativeRetries) <-> statedInvalid negativeRetries).
Proof.
  intros [_ H].
  assert (Hi : statedInvalid negativeRetries).
  { unfold statedInvalid. do 6 right. exists (-1)%Q. split; reflexivity. }
  destruct (H Hi) as [e He]. vm_compute in He. discriminate He.
Qed.

(** C8, amended.  [validateConfig] returns normally exactly for the
    acceptable configurations and throws for all others: the configuration
    must be an object, [siteId] a string that is not blank, and [sampleRate],
    [flushInterval] and [flushSize], when given, numbers that are not below
    0, 1000 and 1 (nor, for [sampleRate], above 1).  [maxRetries] is not
    looked at. *)
Theorem validateConfig_throws_iff_not_acceptable :
  forall config : JsValue,
    (validateConfig config = Ok tt <-> acceptable config) /\
    (throws (validateConfig config) <-> ~ acceptable config).
Proof.
  intros config. split; [apply validateConfig_ok_iff|].
  rewrite <- validateConfig_ok_iff.
  destruct (validateConfig_cases config) as [H|[e H]]; rewrite H.
  - split; [intros [e' He']; discriminate He'|intros Hn; exfalso; apply Hn; reflexivity].
  - split; [intros _; discriminate|intros _; exists e; reflexivity].
Qed.

End ConfigFacts.

(* ================================================================== *)
(** * Properties: failures of the sanitizer stay inside                *)
(* ================================================================== *)

Module SanitizeFailureFacts.
Import PrivacyEngine InsightLiteSDK SanitizeSpec.

(** C3 as stated fails: with [debug: false] the failure of the sanitizer on
    an object whose property throws is still written to the console. *)
Lemma warning_logged_without_debug :
  ~ (snd (sanitizeFor quiet hostile) <> [] -> debug quiet = true).
Proof.
  intros H.
  assert (Hl : snd (sanitizeFor quiet hostile) <> [])
    by (vm_compute; discriminate).
  specialize (H Hl). discriminate H.
Qed.

(** C3, amended.  [sanitizeData] never throws: it always returns a value.
    For [null] and [undefined] that value is the input and nothing is
    logged; when the traversal throws, the value is the original input and
    one warning carrying the error is logged, whatever the configuration
    (the engine has no debug flag); when the traversal succeeds nothing is
    logged. *)
Theorem sanitizeData_never_throws :
  forall (toLowerCase : jsstring -> jsstring) (numberToString : number -> jsstring)
         (this : PrivacyEngine.t) (data : JsValue),
    exists v logs,
      sanitizeData toLowerCase numberToString this data = (Ok v, logs) /\
      (data = JNull \/ data = JUndefined -> v = data /\ logs = []) /\
      (forall e, _sanitizeValue toLowerCase numberToString data = Throw e ->
                 v = data /\
                 logs = [ConsoleWarn "[PrivacyEngine] Error sanitizing data:" e]) /\
      (forall v', _sanitizeValue toLowerCase numberToString data = Ok v' ->
                  v = v' /\ logs = []).
Proof.
  intros toLowerCase numberToString this data.
  unfold sanitizeData.
  destruct data as [| |b|n|s|items|entries|e0];
    try (eexists; eexists; split; [reflexivity|];
         split; [intros _; split; reflexivity|];
         split; [intros e He; discriminate He|intros v' [= <-]; split; reflexivity]).
  all: destruct (_sanitizeValue toLowerCase numberToString _) as [v|e] eqn:Hs;
    eexists; eexists; (split; [reflexivity|]);
    (split; [intros [H|H]; discriminate H|]);
    (split; [intros e' He'|intros v' Hv']);
    try discriminate; try (injection He' as <-); try (injection Hv' as <-);
    split; reflexivity.
Qed.

End SanitizeFailureFacts.

(* ================================================================== *)
(** * Properties: the matcher                                          *)
(* ================================================================== *)

Module RegexFacts.
Import Regex RegexSpec PrivacyText.

Local Open Scope nat_scope.

(** ** The list of ends and the matching relation agree *)

Lemma run_le p l k :
  k <= run p l <-> forall j, j < k -> exists c, nth_error l j = Some c /\ p c = true.
Proof.
  revert k. induction l as [|c l IH]; intros k.
  - cbn [run]. split.
    + intros Hk j Hj. lia.
    + intros H. destruct k as [|k]; [lia|].
      destruct (H 0 ltac:(lia)) as (c & Hc & _). discriminate Hc.
  - cbn [run]. destruct (p c) eqn:Hp.
    + destruct k as [|k].
      * split; [intros _ j Hj; lia|lia].
      * split.
        -- intros Hk [|j] Hj; [exists c; split; [reflexivity|exact Hp]|].
           cbn [nth_error]. apply (proj1 (IH k)); lia.
        -- intros H. apply le_n_S, IH. intros j Hj.
           apply (H (S j)). lia.
    + split.
      * intros Hk j Hj. lia.
      * intros H. destruct k as [|k]; [lia|].
        destruct (H 0 ltac:(lia)) as (c' & [= <-] & Hc'). congruence.
Qed.

Lemma in_plus_ends i n e :
  In e (map (fun k => i + k) (rev (seq 1 n))) <-> exists k, 1 <= k <= n /\ e = i + k.
Proof.
  rewrite in_map_iff. split.
  - intros (k & <- & Hk). apply in_rev, in_seq in Hk. exists k. split; [lia|reflexivity].
  - intros (k & Hk & ->). exists k. split; [reflexivity|].
    apply in_rev. rewrite rev_involutive. apply in_seq. lia.
Qed.

Section Iterations.

Variable s : jsstring.
Variable r : re.
Hypothesis ends_r : forall i e, In e (ends r s i) <-> Match s r i e.

Lemma iter_iff n : forall i e, In e (iter (ends r s) n i) <-> Match s (Rep n r) i e.
Proof.
  induction n as [|n IH]; intros i e; cbn [iter].
  - split.
    + intros [<-|[]]. constructor.
    + intros H. inversion H; subst. left. reflexivity.
  - rewrite in_flat_map. split.
    + intros (j & Hj & He). apply ends_r in Hj. apply IH in He.
      econstructor; eassumption.
    + intros H. inversion H; subst.
      eexists. split; [apply ends_r; eassumption|apply IH; assumption].
Qed.

Lemma upto_iff x : forall i e,
  In e (upto (ends r s) x i) <-> exists m, m <= x /\ Match s (Rep m r) i e.
Proof.
  induction x as [|x IH]; intros i e; cbn [upto].
  - split.
    + intros [<-|[]]. exists 0. split; [lia|constructor].
    + intros (m & Hm & H). assert (m = 0) by lia. subst m.
      inversion H; subst. left. reflexivity.
  - rewrite in_app_iff, in_flat_map. split.
    + intros [(j & Hj & He)|[<-|[]]].
      * apply ends_r in Hj. apply IH in He as (m & Hm & He).
        exists (S m). split; [lia|]. econstructor; eassumption.
      * exists 0. split; [lia|constructor].
    + intros (m & Hm & H). inversion H; subst.
      * right. left. reflexivity.
      * left. eexists. split; [apply ends_r; eassumption|].
        apply IH. eexists. split; [|eassumption]. lia.
Qed.

End Iterations.

Theorem ends_iff s r : forall i e, In e (ends r s i) <-> Match s r i e.
Proof.
  induction r as [|p|r1 IH1 r2 IH2|r1 IH1|p|n r1 IH1|n extra r1 IH1|]; intros i e; cbn [ends].
  - split.
    + intros [<-|[]]. constructor.
    + intros H. inversion H; subst. left. reflexivity.
  - split.
    + destruct (nth_error s i) as [c|] eqn:Hc; [|intros []].
      destruct (p c) eqn:Hp; [|intros []].
      intros [<-|[]]. econstructor; eassumption.
    + intros H. inversion H; subst.
      match goal with H1 : nth_error s i = Some _, H2 : p _ = true |- _ =>
        rewrite H1, H2 end. left. reflexivity.
  - rewrite in_flat_map. split.
    + intros (j & Hj & He). apply IH1 in Hj. apply IH2 in He.
      econstructor; eassumption.
    + intros H. inversion H; subst.
      eexists. split; [apply IH1; eassumption|apply IH2; assumption].
  - rewrite in_app_iff. split.
    + intros [H|[<-|[]]]; [apply IH1 in H; apply MOptSome; assumption|apply MOptNone].
    + intros H. inversion H; subst; [left; apply IH1; assumption|right; left; reflexivity].
  - rewrite in_plus_ends. split.
    + intros (k & [Hk1 Hk2] & ->). constructor; [exact Hk1|].
      intros j Hj. rewrite <- nth_error_skipn.
      exact (proj1 (run_le _ _ _) Hk2 j Hj).
    + intros H. inversion H; subst.
      eexists. split; [|reflexivity]. split; [assumption|].
      apply run_le. intros j Hj. rewrite nth_error_skipn. auto.
  - apply iter_iff, IH1.
  - rewrite in_flat_map. split.
    + intros (j & Hj & He).
      apply (iter_iff s r1 IH1) in Hj. apply (upto_iff s r1 IH1) in He as (m & Hm & He).
      econstructor; eassumption.
    + intros H. inversion H; subst.
      eexists. split; [apply (iter_iff s r1 IH1); eassumption|].
      apply (upto_iff s r1 IH1). eexists. split; eassumption.
  - split.
    + destruct (isWordBoundary s i) eqn:Hb; [|intros []].
      intros [<-|[]]. constructor. exact Hb.
    + intros H. inversion H; subst.
      match goal with H1 : isWordBoundary s _ = true |- _ => rewrite H1 end.
      left. reflexivity.
Qed.

(** ** Shape of matches *)

Lemma Match_span s r i e :
  Match s r i e -> i <= e /\ (i < e -> e <= length s).
Proof.
  induction 1 as [i|p i c Hc Hp|r1 r2 i j k _ [IH1 IH1'] _ [IH2 IH2']
                 |r1 i j _ IH|r1 i|p i k Hk Hall|r1 i
                 |r1 n i j k _ [IH1 IH1'] _ [IH2 IH2']
                 |r1 n extra m i j k _ [IH1 IH1'] Hm _ [IH2 IH2']|i Hb];
    try (split; lia).
  - assert (i < length s) by (apply nth_error_Some; congruence). lia.
  - destruct (Hall (k - 1) ltac:(lia)) as (c & Hc & _).
    assert (i + (k - 1) < length s) by (apply nth_error_Some; congruence). lia.
Qed.

Lemma Match_range s r i e :
  Match s r i e -> i <= e /\ (i <= length s -> e <= length s).
Proof. intros H. apply Match_span in H. lia. Qed.

Lemma Match_progress s r i e :
  Match s r i e -> nullable r = false -> i < e.
Proof.
  induction 1 as [i|p i c Hc Hp|r1 r2 i j k H1 IH1 H2 IH2
                 |r1 i j _ IH|r1 i|p i k Hk Hall|r1 i
                 |r1 n i j k H1 IH1 H2 IH2
                 |r1 n extra m i j k H1 IH1 Hm H2 IH2|i Hb];
    cbn [nullable]; intros Hn; try discriminate; try lia.
  - apply Match_range in H1 as [? _]. apply Match_range in H2 as [? _].
    apply andb_false_iff in Hn as [Hn|Hn]; [specialize (IH1 Hn)|specialize (IH2 Hn)]; lia.
  - cbn [Nat.eqb orb] in Hn. apply Match_range in H2 as [? _].
    specialize (IH1 Hn). lia.
  - apply Match_range in H2 as [? _]. specialize (IH1 Hn). lia.
Qed.

Lemma Match_clear m s r i e :
  Match s r i e -> avoids m r = true ->
  forall j, i <= j < e -> nth_error s j <> Some m.
Proof.
  induction 1 as [i|p i c Hc Hp|r1 r2 i j k H1 IH1 H2 IH2
                 |r1 i j _ IH|r1 i|p i k Hk Hall|r1 i
                 |r1 n i j k H1 IH1 H2 IH2
                 |r1 n extra x i j k H1 IH1 Hx H2 IH2|i Hb];
    cbn [avoids]; intros Ha q Hq; try lia.
  - assert (q = i) by lia. subst q. rewrite Hc. intros [= ->].
    rewrite Hp in Ha. discriminate Ha.
  - apply andb_true_iff in Ha as [Ha1 Ha2].
    destruct (Nat.lt_ge_cases q j); [apply IH1|apply IH2]; try assumption; lia.
  - apply IH; assumption.
  - destruct (Hall (q - i) ltac:(lia)) as (c & Hc & Hp).
    replace (i + (q - i)) with q in Hc by lia. rewrite Hc. intros [= ->].
    rewrite Hp in Ha. discriminate Ha.
  - destruct (Nat.lt_ge_cases q j); [apply IH1|apply IH2]; try assumption; lia.
  - destruct (Nat.lt_ge_cases q j); [apply IH1|apply IH2]; try assumption; lia.
Qed.

(** A match in a masked string is a match in the original. *)
Lemma Match_masked m t s r i e :
  masked m t s -> Match t r i e -> avoids m r = true -> Match s r i e.
Proof.
  intros (_ & Hpt & Hbd).
  induction 1 as [i|p i c Hc Hp|r1 r2 i j k H1 IH1 H2 IH2
                 |r1 i j _ IH|r1 i|p i k Hk Hall|r1 i
                 |r1 n i j k H1 IH1 H2 IH2
                 |r1 n extra x i j k H1 IH1 Hx H2 IH2|i Hb];
    cbn [avoids]; intros Ha.
  - constructor.
  - destruct (Hpt i c Hc) as [->|Hs].
    + rewrite Hp in Ha. discriminate Ha.
    + econstructor; eassumption.
  - apply andb_true_iff in Ha as [Ha1 Ha2]. econstructor; eauto.
  - apply MOptSome. auto.
  - apply MOptNone.
  - constructor; [exact Hk|]. intros j Hj.
    destruct (Hall j Hj) as (c & Hc & Hp). exists c. split; [|exact Hp].
    destruct (Hpt _ c Hc) as [->|Hs]; [|exact Hs].
    rewrite Hp in Ha. discriminate Ha.
  - constructor.
  - econstructor; eauto.
  - econstructor; eauto.
  - constructor. apply Hbd, Hb.
Qed.

Lemma Match_bounded s body i e :
  Match s (bounded body) i e ->
  isWordBoundary s i = true /\ isWordBoundary s e = true /\ Match s body i e.
Proof.
  unfold bounded. intros H.
  inversion H as [| |r1 r2 i0 j k H1 H2| | | | | | |]; subst.
  inversion H1; subst.
  inversion H2 as [| |r1 r2 i0 j' k H3 H4| | | | | | |]; subst.
  inversion H4; subst.
  repeat split; assumption.
Qed.

Lemma nth_error_repeat_eq {A} (a : A) n i x :
  nth_error (repeat a n) i = Some x -> x = a.
Proof.
  intros H. apply nth_error_In, repeat_spec in H. exact H.
Qed.

(** ** A global replacement by equally long masks *)

Lemma substring_length s i e :
  i <= e <= length s -> length (substring s i e) = e - i.
Proof.
  intros H. unfold substring. rewrite length_firstn, length_skipn. lia.
Qed.

Lemma skipn_substring s i e :
  i <= e -> skipn i s = substring s i e ++ skipn e s.
Proof.
  intros H. unfold substring.
  assert (E : skipn e s = skipn (e - i) (skipn i s))
    by (rewrite skipn_skipn; f_equal; lia).
  rewrite E. symmetry. apply firstn_skipn.
Qed.

Lemma skipn_cons_nth (s : jsstring) i c :
  nth_error s i = Some c -> skipn i s = c :: skipn (S i) s.
Proof.
  revert i. induction s as [|a s IH]; intros [|i] H; try discriminate.
  - injection H as ->. reflexivity.
  - cbn [skipn]. apply IH. exact H.
Qed.

Lemma head_end_range s r i e rest :
  i <= length s -> ends r s i = e :: rest -> i <= e <= length s.
Proof.
  intros Hi He.
  assert (Hm : Match s r i e) by (apply ends_iff; rewrite He; left; reflexivity).
  apply Match_range in Hm. lia.
Qed.

(** The scan keeps the length when the replacement of each match has the
    length of the match. *)
Lemma replaceFrom_length r replacer s :
  (forall m, length (replacer m) = length m) ->
  forall fuel i, i <= length s -> length s - i < fuel ->
    length (replaceFrom fuel r replacer s i) = length s - i.
Proof.
  intros Hrep. induction fuel as [|fuel IH]; intros i Hi Hf; [lia|].
  cbn [replaceFrom].
  assert (Hadv : length (match nth_error s i with
                         | Some c => c :: replaceFrom fuel r replacer s (S i)
                         | None => []
                         end) = length s - i).
  { destruct (nth_error s i) as [c|] eqn:Hc.
    - assert (i < length s) by (apply nth_error_Some; congruence).
      cbn [length]. rewrite IH by lia. lia.
    - apply nth_error_None in Hc. cbn [length]. lia. }
  destruct (ends r s i) as [|e rest] eqn:He; [exact Hadv|].
  pose proof (head_end_range s r i e rest Hi He) as Hr.
  rewrite length_app, Hrep, substring_length by lia.
  destruct (Nat.eqb_spec e i) as [->|Hne].
  - rewrite Hadv. lia.
  - rewrite IH by lia. lia.
Qed.

Lemma replace_length r replacer s :
  (forall m, length (replacer m) = length m) ->
  length (replace r replacer s) = length s.
Proof.
  intros H. unfold replace. rewrite replaceFrom_length; [lia|exact H|lia|lia].
Qed.

(** ** The scan, as the set of spans it masks *)

Lemma maskAt_length m cov l : forall i, length (maskAt m cov i l) = length l.
Proof. induction l as [|c l IH]; intros i; cbn [maskAt length]; [|rewrite IH]; reflexivity. Qed.

Lemma maskAt_app m cov l1 l2 : forall i,
  maskAt m cov i (l1 ++ l2) = maskAt m cov i l1 ++ maskAt m cov (i + length l1) l2.
Proof.
  induction l1 as [|c l1 IH]; intros i; cbn [maskAt app length].
  - rewrite Nat.add_0_r. reflexivity.
  - rewrite IH. replace (S i + length l1) with (i + S (length l1)) by lia. reflexivity.
Qed.

Lemma maskAt_all m cov l : forall i,
  (forall p, i <= p < i + length l -> cov p = true) ->
  maskAt m cov i l = repeat m (length l).
Proof.
  induction l as [|c l IH]; intros i H; cbn [maskAt length repeat]; [reflexivity|].
  rewrite H by (cbn [length]; lia). rewrite IH; [reflexivity|].
  intros p Hp. apply H. cbn [length]. lia.
Qed.

Lemma maskAt_ext m cov cov' l : forall i,
  (forall p, i <= p -> cov p = cov' p) ->
  maskAt m cov i l = maskAt m cov' i l.
Proof.
  induction l as [|c l IH]; intros i H; cbn [maskAt]; [reflexivity|].
  rewrite H by lia. rewrite (IH (S i)); [reflexivity|].
  intros p Hp. apply H. lia.
Qed.

Lemma nth_error_maskAt m cov l : forall i j,
  nth_error (maskAt m cov i l) j =
  option_map (fun c => if cov (i + j) then m else c) (nth_error l j).
Proof.
  induction l as [|c l IH]; intros i [|j]; cbn [maskAt nth_error option_map]; try reflexivity.
  - rewrite Nat.add_0_r. reflexivity.
  - rewrite IH. replace (S i + j) with (i + S j) by lia. reflexivity.
Qed.

Lemma covered_cons a e spans p :
  covered ((a, e) :: spans) p = ((a <=? p) && (p <? e)) || covered spans p.
Proof. reflexivity. Qed.

Lemma covered_true spans p :
  covered spans p = true <-> exists a e, In (a, e) spans /\ a <= p < e.
Proof.
  unfold covered. rewrite existsb_exists. split.
  - intros ([a e] & Hin & H). cbn [fst snd] in H.
    apply andb_true_iff in H as [H1 H2].
    apply Nat.leb_le in H1. apply Nat.ltb_lt in H2. eauto.
  - intros (a & e & Hin & H). exists (a, e). split; [exact Hin|].
    cbn [fst snd]. apply andb_true_iff. split; [apply Nat.leb_le|apply Nat.ltb_lt]; lia.
Qed.

Lemma covered_false_below spans p :
  (forall a e, In (a, e) spans -> p < a) -> covered spans p = false.
Proof.
  intros H. destruct (covered spans p) eqn:E; [|reflexivity].
  apply covered_true in E as (a & e & Hin & Hp). specialize (H a e Hin). lia.
Qed.

Section Scan.

Variable r : re.
Variable s : jsstring.

Lemma spansFrom_lower : forall fuel i a e,
  In (a, e) (spansFrom fuel r s i) -> i <= a.
Proof.
  induction fuel as [|fuel IH]; intros i a e; cbn [spansFrom]; [intros []|].
  assert (Hadv : In (a, e) (match nth_error s i with
                            | Some _ => spansFrom fuel r s (S i)
                            | None => []
                            end) -> i <= a).
  { destruct (nth_error s i); [|intros []]. intros H. apply IH in H. lia. }
  destruct (ends r s i) as [|e0 rest] eqn:He; [exact Hadv|].
  destruct (Nat.eqb_spec e0 i) as [->|Hne]; [exact Hadv|].
  intros [[= <- <-]|H]; [lia|].
  apply IH in H.
  assert (Hm : Match s r i e0) by (apply ends_iff; rewrite He; left; reflexivity).
  apply Match_range in Hm. lia.
Qed.

Lemma spansFrom_sound : forall fuel i a e,
  In (a, e) (spansFrom fuel r s i) -> Match s r a e /\ a < e.
Proof.
  induction fuel as [|fuel IH]; intros i a e; cbn [spansFrom]; [intros []|].
  assert (Hadv : In (a, e) (match nth_error s i with
                            | Some _ => spansFrom fuel r s (S i)
                            | None => []
                            end) -> Match s r a e /\ a < e).
  { destruct (nth_error s i); [|intros []]. apply IH. }
  destruct (ends r s i) as [|e0 rest] eqn:He; [exact Hadv|].
  destruct (Nat.eqb_spec e0 i) as [->|Hne]; [exact Hadv|].
  intros [[= <- <-]|H]; [|apply IH in H; exact H].
  assert (Hm : Match s r i e0) by (apply ends_iff; rewrite He; left; reflexivity).
  split; [exact Hm|]. apply Match_range in Hm. lia.
Qed.

(** A position that the scan leaves alone starts no match, except
    possibly an empty one. *)
Lemma spansFrom_complete : forall fuel i p,
  i <= length s -> length s - i < fuel -> i <= p < length s ->
  covered (spansFrom fuel r s i) p = false ->
  hd_error (ends r s p) = None \/ hd_error (ends r s p) = Some p.
Proof.
  induction fuel as [|fuel IH]; intros i p Hi Hf Hp; [lia|]. cbn [spansFrom].
  assert (Hadv : covered (match nth_error s i with
                          | Some _ => spansFrom fuel r s (S i)
                          | None => []
                          end) p = false ->
                 i < p ->
                 hd_error (ends r s p) = None \/ hd_error (ends r s p) = Some p).
  { destruct (nth_error s i) eqn:Hc.
    - intros Hcov Hlt. apply (IH (S i)); try assumption; lia.
    - apply nth_error_None in Hc. lia. }
  destruct (ends r s i) as [|e0 rest] eqn:He.
  - intros Hcov. destruct (Nat.eq_dec p i) as [->|Hne].
    + rewrite He. left. reflexivity.
    + apply Hadv; [exact Hcov|lia].
  - destruct (Nat.eqb_spec e0 i) as [->|Hne0].
    + intros Hcov. destruct (Nat.eq_dec p i) as [->|Hne].
      * rewrite He. right. reflexivity.
      * apply Hadv; [exact Hcov|lia].
    + rewrite covered_cons. intros Hcov.
      apply orb_false_iff in Hcov as [Hin Hrest].
      pose proof (head_end_range s r i e0 rest Hi He) as Hr.
      assert (e0 <= p).
      { apply andb_false_iff in Hin as [H|H];
          [apply Nat.leb_gt in H|apply Nat.ltb_ge in H]; lia. }
      apply (IH e0); try assumption; lia.
Qed.

(** The output of the scan is the input with the spans overwritten. *)
Lemma replaceFrom_maskAt : forall fuel i,
  i <= length s -> length s - i < fuel ->
  replaceFrom fuel r maskMatch s i =
  maskAt maskChar (covered (spansFrom fuel r s i)) i (skipn i s).
Proof.
  induction fuel as [|fuel IH]; intros i Hi Hf; [lia|].
  cbn [replaceFrom spansFrom].
  assert (Hadv : match nth_error s i with
                 | Some c => c :: replaceFrom fuel r maskMatch s (S i)
                 | None => []
                 end =
                 maskAt maskChar
                   (covered (match nth_error s i with
                             | Some _ => spansFrom fuel r s (S i)
                             | None => []
                             end)) i (skipn i s)).
  { destruct (nth_error s i) as [c|] eqn:Hc.
    - assert (i < length s) by (apply nth_error_Some; congruence).
      rewrite (skipn_cons_nth s i c Hc). cbn [maskAt].
      rewrite covered_false_below.
      + rewrite IH by lia. reflexivity.
      + intros a e Hin. apply spansFrom_lower in Hin. lia.
    - apply nth_error_None in Hc. rewrite skipn_all2 by lia. reflexivity. }
  destruct (ends r s i) as [|e rest] eqn:He; [exact Hadv|].
  pose proof (head_end_range s r i e rest Hi He) as Hr.
  destruct (Nat.eqb_spec e i) as [->|Hne].
  - unfold maskMatch. rewrite substring_length by lia.
    rewrite Nat.sub_diag. cbn [repeat app]. exact Hadv.
  - rewrite IH by lia.
    rewrite (skipn_substring s i e) by lia.
    rewrite maskAt_app, substring_length by lia.
    replace (i + (e - i)) with e by lia.
    f_equal.
    + unfold maskMatch. symmetry. apply maskAt_all.
      intros p Hp. rewrite substring_length in Hp by lia.
      rewrite covered_cons.
      replace (i <=? p) with true by (symmetry; apply Nat.leb_le; lia).
      replace (p <? e) with true by (symmetry; apply Nat.ltb_lt; lia).
      reflexivity.
    + apply maskAt_ext. intros p Hp. rewrite covered_cons.
      replace (p <? e) with false by (symmetry; apply Nat.ltb_ge; lia).
      rewrite andb_false_r. reflexivity.
Qed.

(** The output in terms of the spans of the whole scan. *)
Lemma replace_nth p :
  nth_error (replace r maskMatch s) p =
  option_map (fun c => if covered (spans r s) p then maskChar else c) (nth_error s p).
Proof.
  unfold replace, spans. rewrite replaceFrom_maskAt by lia.
  rewrite nth_error_maskAt. reflexivity.
Qed.

End Scan.

(** ** Masking twice *)

Lemma isWord_maskChar : isWord maskChar = false.
Proof. reflexivity. Qed.

Lemma maskMatch_length m : length (maskMatch m) = length m.
Proof. unfold maskMatch. apply repeat_length. Qed.

Lemma masked_refl m s : masked m s s.
Proof. repeat split; auto. Qed.

Lemma masked_trans m a b c : masked m a b -> masked m b c -> masked m a c.
Proof.
  intros (L1 & P1 & B1) (L2 & P2 & B2). repeat split.
  - congruence.
  - intros i x Hx. destruct (P1 i x Hx) as [->|Hb]; [left; reflexivity|].
    apply P2, Hb.
  - intros i Hi. apply B2, B1, Hi.
Qed.

Lemma replaceFrom_free r replacer t :
  matchFree r t ->
  forall fuel i, replaceFrom fuel r replacer t i = skipn i t.
Proof.
  intros Hfree. induction fuel as [|fuel IH]; intros i; [reflexivity|].
  cbn [replaceFrom]. rewrite Hfree.
  destruct (nth_error t i) as [c|] eqn:Hc.
  - rewrite IH. symmetry. apply skipn_cons_nth, Hc.
  - apply nth_error_None in Hc. rewrite skipn_all2 by lia. reflexivity.
Qed.

Lemma replace_free r replacer t : matchFree r t -> replace r replacer t = t.
Proof. intros H. unfold replace. rewrite replaceFrom_free by exact H. reflexivity. Qed.

Section MaskablePattern.

Variable r : re.
Variable s : jsstring.
Hypothesis Hr : maskable maskChar r.

Lemma maskable_nullable : nullable r = false.
Proof.
  destruct Hr as (body & -> & Hn & _). unfold bounded. cbn [nullable andb]. rewrite Hn.
  reflexivity.
Qed.

Lemma maskable_avoids : avoids maskChar r = true.
Proof.
  destruct Hr as (body & -> & _ & Ha). unfold bounded. cbn [avoids andb]. rewrite Ha.
  reflexivity.
Qed.

Lemma maskable_boundaries u i e :
  Match u r i e -> isWordBoundary u i = true /\ isWordBoundary u e = true.
Proof.
  destruct Hr as (body & -> & _). intros H.
  apply Match_bounded in H as (H1 & H2 & _). split; assumption.
Qed.

Lemma wordAt_replace p :
  wordAt (replace r maskMatch s) p =
  if covered (spans r s) p then false else wordAt s p.
Proof.
  unfold wordAt. rewrite replace_nth.
  destruct (nth_error s p) as [c|]; cbn [option_map].
  - destruct (covered (spans r s) p); [apply isWord_maskChar|reflexivity].
  - destruct (covered (spans r s) p); reflexivity.
Qed.

Lemma span_boundaries a e :
  In (a, e) (spans r s) ->
  isWordBoundary s a = true /\ isWordBoundary s e = true /\ a < e.
Proof.
  intros H. apply spansFrom_sound in H as [Hm Hlt].
  apply maskable_boundaries in Hm as [H1 H2]. repeat split; assumption.
Qed.

Lemma covered_false_spec p :
  covered (spans r s) p = false ->
  forall a e, In (a, e) (spans r s) -> p < a \/ e <= p.
Proof.
  intros Hc a e Hin.
  destruct (Nat.lt_ge_cases p a); [left; assumption|].
  destruct (Nat.lt_ge_cases p e); [|right; assumption].
  assert (covered (spans r s) p = true) by (apply covered_true; exists a, e; split; [exact Hin|lia]).
  congruence.
Qed.

(** The replacement adds no word boundary. *)
Lemma replace_boundary p :
  isWordBoundary (replace r maskMatch s) p = true -> isWordBoundary s p = true.
Proof.
  unfold isWordBoundary. destruct p as [|q].
  - rewrite wordAt_replace. destruct (covered (spans r s) 0); [discriminate|auto].
  - rewrite !wordAt_replace.
    destruct (covered (spans r s) q) eqn:Cq, (covered (spans r s) (S q)) eqn:Cp.
    + discriminate.
    + intros _. apply covered_true in Cq as (a & e & Hin & Ha).
      destruct (covered_false_spec _ Cp a e Hin) as [H|H]; [lia|].
      assert (e = S q) by lia. subst e.
      apply span_boundaries in Hin as (_ & Hb & _). exact Hb.
    + intros _. apply covered_true in Cp as (a & e & Hin & Ha).
      destruct (covered_false_spec _ Cq a e Hin) as [H|H]; [|lia].
      assert (a = S q) by lia. subst a.
      apply span_boundaries in Hin as (Hb & _). exact Hb.
    + auto.
Qed.

Lemma replace_masked : masked maskChar (replace r maskMatch s) s.
Proof.
  split; [apply replace_length, maskMatch_length|]. split.
  - intros i c. rewrite replace_nth.
    destruct (nth_error s i) as [c0|]; cbn [option_map]; [|discriminate].
    destruct (covered (spans r s) i); intros [= <-]; [left|right]; reflexivity.
  - apply replace_boundary.
Qed.

(** After the replacement no match of the pattern is left. *)
Lemma replace_matchFree : matchFree r (replace r maskMatch s).
Proof.
  intros i. destruct (ends r (replace r maskMatch s) i) as [|e rest] eqn:He; [reflexivity|].
  exfalso.
  assert (Ht : Match (replace r maskMatch s) r i e)
    by (apply ends_iff; rewrite He; left; reflexivity).
  pose proof (Match_progress _ _ _ _ Ht maskable_nullable) as Hlt.
  pose proof (Match_clear maskChar _ _ _ _ Ht maskable_avoids i ltac:(lia)) as Hclear.
  pose proof (Match_masked _ _ _ _ _ _ replace_masked Ht maskable_avoids) as Hs.
  pose proof (Match_span _ _ _ _ Hs) as [_ Hlen]. specialize (Hlen Hlt).
  assert (Hcov : covered (spans r s) i = false).
  { rewrite replace_nth in Hclear.
    destruct (nth_error s i) as [c0|] eqn:Hc0.
    - cbn [option_map] in Hclear.
      destruct (covered (spans r s) i); [exfalso; apply Hclear; reflexivity|reflexivity].
    - apply nth_error_None in Hc0. lia. }
  apply ends_iff in Hs.
  destruct (spansFrom_complete r s (S (length s)) 0 i) as [Hn|Hn];
    try lia; try exact Hcov.
  - destruct (ends r s i); [destruct Hs|discriminate Hn].
  - destruct (ends r s i) as [|e0 rest0] eqn:He0; [destruct Hs|].
    injection Hn as ->.
    assert (Hm0 : Match s r i i) by (apply ends_iff; rewrite He0; left; reflexivity).
    pose proof (Match_progress _ _ _ _ Hm0 maskable_nullable). lia.
Qed.

End MaskablePattern.

End RegexFacts.

(* ================================================================== *)
(** * Properties: redaction of text                                    *)
(* ================================================================== *)

Module SanitizeTextFacts.
Import Regex RegexSpec PrivacyText RegexFacts TextSpec.

Local Open Scope nat_scope.

(** ** The patterns at work *)

Example mask_email :
  sanitizeTextPatterns (lit "Contact us at support@example.com for help") =
  lit "Contact us at " ++ repeat maskChar 19 ++ lit " for help".
Proof. vm_compute. reflexivity. Qed.

Example mask_phone :
  sanitizeTextPatterns (lit "Call us at 555-123-4567") = lit "Call us at " ++ repeat maskChar 12 /\
  sanitizeTextPatterns (lit "Call us at 555.123.4567") = lit "Call us at " ++ repeat maskChar 12 /\
  sanitizeTextPatterns (lit "Call us at 5551234567") = lit "Call us at " ++ repeat maskChar 10.
Proof. repeat split; vm_compute; reflexivity. Qed.

(** No word boundary separates a space from an opening parenthesis, so the
    phone pattern starts at the first digit. *)
Example mask_phone_parenthesis :
  sanitizeTextPatterns (lit "Call us at (555) 123-4567") =
  lit "Call us at (" ++ repeat maskChar 13.
Proof. vm_compute. reflexivity. Qed.

Example mask_credit_card :
  sanitizeTextPatterns (lit "Card: 4111-1111-1111-1111") = lit "Card: " ++ repeat maskChar 19 /\
  sanitizeTextPatterns (lit "Card: 4111 1111 1111 1111") = lit "Card: " ++ repeat maskChar 19 /\
  sanitizeTextPatterns (lit "Card: 4111111111111111") = lit "Card: " ++ repeat maskChar 16.
Proof. repeat split; vm_compute; reflexivity. Qed.

Example mask_ssn_ip :
  sanitizeTextPatterns (lit "SSN: 123-45-6789") = lit "SSN: " ++ repeat maskChar 11 /\
  sanitizeTextPatterns (lit "from 192.168.0.1:80") = lit "from " ++ repeat maskChar 11 ++ lit ":80".
Proof. repeat split; vm_compute; reflexivity. Qed.

Example mask_several :
  sanitizeTextPatterns (lit "Email: user@test.com Phone: 555-123-4567") =
  lit "Email: " ++ repeat maskChar 13 ++ lit " Phone: " ++ repeat maskChar 12.
Proof. vm_compute. reflexivity. Qed.

Lemma dataPatterns_maskable :
  Forall (fun pattern => maskable maskChar (snd pattern)) dataPatterns.
Proof.
  unfold dataPatterns.
  repeat (constructor; [eexists; split; [reflexivity|split; vm_compute; reflexivity]|]).
  constructor.
Qed.

Lemma maskAll_cons p ps s :
  maskAll (p :: ps) s = maskAll ps (replace (snd p) maskMatch s).
Proof. reflexivity. Qed.

Lemma maskAll_length ps : forall s, length (maskAll ps s) = length s.
Proof.
  induction ps as [|p ps IH]; intros s; [reflexivity|].
  rewrite maskAll_cons, IH. apply replace_length, maskMatch_length.
Qed.

(** Masking with a list of maskable patterns leaves a string that is a
    masked form of the input and in which none of the patterns matches. *)
Lemma maskAll_masked_free ps :
  Forall (fun pattern => maskable maskChar (snd pattern)) ps ->
  forall s, masked maskChar (maskAll ps s) s /\
            Forall (fun pattern => matchFree (snd pattern) (maskAll ps s)) ps.
Proof.
  induction 1 as [|p ps Hp _ IH]; intros s.
  - split; [apply masked_refl|constructor].
  - rewrite maskAll_cons.
    destruct (IH (replace (snd p) maskMatch s)) as [Hm Hf].
    split.
    + eapply masked_trans; [exact Hm|]. apply replace_masked, Hp.
    + constructor; [|exact Hf].
      intros i.
      destruct (ends (snd p) (maskAll ps (replace (snd p) maskMatch s)) i) as [|e rest] eqn:He;
        [reflexivity|exfalso].
      assert (Ht : Match (maskAll ps (replace (snd p) maskMatch s)) (snd p) i e)
        by (apply ends_iff; rewrite He; left; reflexivity).
      apply (Match_masked _ _ _ _ _ _ Hm) in Ht; [|apply maskable_avoids, Hp].
      apply ends_iff in Ht. rewrite (replace_matchFree _ s Hp i) in Ht. destruct Ht.
Qed.

Lemma maskAll_free ps t :
  Forall (fun pattern => matchFree (snd pattern) t) ps -> maskAll ps t = t.
Proof.
  induction 1 as [|p ps Hp _ IH]; [reflexivity|].
  rewrite maskAll_cons, replace_free by exact Hp. exact IH.
Qed.

Lemma sanitizeTextPatterns_maskAll text :
  sanitizeTextPatterns text = maskAll dataPatterns text.
Proof. unfold sanitizeTextPatterns, maskAll. reflexivity. Qed.

(** The five replacements, written out. *)
Lemma sanitizeTextPatterns_pipeline text :
  sanitizeTextPatterns text =
  replace (bounded ipAddressBody) maskMatch
    (replace (bounded creditCardBody) maskMatch
       (replace (bounded ssnBody) maskMatch
          (replace (bounded phoneBody) maskMatch
             (replace (bounded emailBody) maskMatch text)))).
Proof. unfold sanitizeTextPatterns, dataPatterns. reflexivity. Qed.

Lemma stages_dataPatterns text :
  StageSpec.stages dataPatterns text =
  [(bounded emailBody, text);
   (bounded phoneBody, replace (bounded emailBody) maskMatch text);
   (bounded ssnBody,
    replace (bounded phoneBody) maskMatch (replace (bounded emailBody) maskMatch text));
   (bounded creditCardBody,
    replace (bounded ssnBody) maskMatch
      (replace (bounded phoneBody) maskMatch (replace (bounded emailBody) maskMatch text)));
   (bounded ipAddressBody,
    replace (bounded creditCardBody) maskMatch
      (replace (bounded ssnBody) maskMatch
         (replace (bounded phoneBody) maskMatch
            (replace (bounded emailBody) maskMatch text))))].
Proof. unfold dataPatterns. reflexivity. Qed.

(** Each pattern on a text of its own kind. *)
Lemma each_pattern_masks :
  replace (bounded emailBody) maskMatch (lit "mail support@example.com now") =
    lit "mail " ++ repeat maskChar 19 ++ lit " now" /\
  replace (bounded phoneBody) maskMatch (lit "call (555) 123-4567 now") =
    lit "call (" ++ repeat maskChar 13 ++ lit " now" /\
  replace (bounded ssnBody) maskMatch (lit "ssn 123-45-6789 now") =
    lit "ssn " ++ repeat maskChar 11 ++ lit " now" /\
  replace (bounded creditCardBody) maskMatch (lit "card 4111-1111-1111-1111 now") =
    lit "card " ++ repeat maskChar 19 ++ lit " now" /\
  replace (bounded ipAddressBody) maskMatch (lit "from 192.168.0.1 now") =
    lit "from " ++ repeat maskChar 11 ++ lit " now".
Proof. repeat split; vm_compute; reflexivity. Qed.

#[local] Opaque dataPatterns.

(** Masking a masked string changes nothing. *)
Lemma sanitizeTextPatterns_idempotent text :
  sanitizeTextPatterns (sanitizeTextPatterns text) = sanitizeTextPatterns text.
Proof.
  rewrite !sanitizeTextPatterns_maskAll.
  apply maskAll_free.
  exact (proj2 (maskAll_masked_free dataPatterns dataPatterns_maskable text)).
Qed.

(** ** What the stages of the masking do to the final text *)

Lemma masked_keeps_mask m (t u : jsstring) p :
  masked m t u -> nth_error u p = Some m -> nth_error t p = Some m.
Proof.
  intros (Hlen & Hp & _) Hu.
  destruct (nth_error t p) as [c|] eqn:Ht.
  - destruct (Hp p c Ht) as [->|H]; [reflexivity|congruence].
  - apply nth_error_None in Ht.
    assert (p < length u) by (apply nth_error_Some; congruence). lia.
Qed.

(** The final text is a masked form of the output of every stage. *)
Lemma stages_final ps :
  Forall (fun pattern => maskable maskChar (snd pattern)) ps ->
  forall text r u, In (r, u) (StageSpec.stages ps text) ->
    maskable maskChar r /\ length u = length text /\
    masked maskChar (maskAll ps text) (replace r maskMatch u).
Proof.
  induction 1 as [|p ps Hp Hps IH]; intros text r u Hin; [destruct Hin|].
  cbn [StageSpec.stages] in Hin. rewrite maskAll_cons. destruct Hin as [E|Hin].
  - injection E as <- <-. split; [exact Hp|]. split; [reflexivity|].
    apply (maskAll_masked_free ps Hps).
  - destruct (IH _ _ _ Hin) as (Hr & Hlen & Hm). split; [exact Hr|]. split; [|exact Hm].
    rewrite Hlen. apply replace_length, maskMatch_length.
Qed.

(** A span replaced at some stage is a match of the pattern of the stage,
    and holds nothing but the mask character in the final text. *)
Lemma span_masked ps text r u a e :
  Forall (fun pattern => maskable maskChar (snd pattern)) ps ->
  In (r, u) (StageSpec.stages ps text) -> In (a, e) (spans r u) ->
  Match u r a e /\ a < e <= length text /\
  forall p, a <= p < e -> nth_error (maskAll ps text) p = Some maskChar.
Proof.
  intros Hps Hin Hsp.
  destruct (stages_final ps Hps text r u Hin) as (Hr & Hlen & Hm).
  pose proof Hsp as Hsp'. apply spansFrom_sound in Hsp' as [HM Hlt].
  pose proof (Match_span _ _ _ _ HM) as [_ Hle]. specialize (Hle Hlt).
  split; [exact HM|]. split; [lia|].
  intros p Hp. apply (masked_keeps_mask _ _ _ _ Hm).
  rewrite replace_nth.
  assert (Hc : covered (spans r u) p = true)
    by (apply covered_true; exists a, e; split; [exact Hsp|exact Hp]).
  rewrite Hc.
  destruct (nth_error u p) as [c|] eqn:Hu; [reflexivity|].
  apply nth_error_None in Hu. lia.
Qed.

(** Wherever a match of the pattern of a stage starts in the text of the
    stage, the final text holds the mask character. *)
Lemma match_start_masked ps text r u i e :
  Forall (fun pattern => maskable maskChar (snd pattern)) ps ->
  In (r, u) (StageSpec.stages ps text) -> Match u r i e ->
  nth_error (maskAll ps text) i = Some maskChar.
Proof.
  intros Hps Hin HM.
  destruct (stages_final ps Hps text r u Hin) as (Hr & Hlen & Hm).
  pose proof (Match_progress _ _ _ _ HM (maskable_nullable r Hr)) as Hlt.
  pose proof (Match_span _ _ _ _ HM) as [_ Hle]. specialize (Hle Hlt).
  destruct (covered (spans r u) i) eqn:Hc.
  - apply covered_true in Hc as (a & e' & Hsp & Hrange).
    destruct (span_masked ps text r u a e' Hps Hin Hsp) as (_ & _ & Hall).
    apply Hall, Hrange.
  - exfalso.
    destruct (spansFrom_complete r u (S (length u)) 0 i) as [Hn|Hn];
      [lia|lia|lia|exact Hc| |].
    + apply ends_iff in HM. destruct (ends r u i); [destruct HM|discriminate Hn].
    + assert (Hi : In i (ends r u i)).
      { destruct (ends r u i) as [|x l]; [discriminate Hn|].
        injection Hn as ->. left. reflexivity. }
      apply ends_iff in Hi.
      pose proof (Match_progress _ _ _ _ Hi (maskable_nullable r Hr)). lia.
Qed.

(** A position that no stage replaces keeps the character of the input. *)
Lemma uncovered_kept ps : forall text p,
  (forall r u, In (r, u) (StageSpec.stages ps text) -> covered (spans r u) p = false) ->
  nth_error (maskAll ps text) p = nth_error text p.
Proof.
  induction ps as [|q ps IH]; intros text p H; [reflexivity|].
  rewrite maskAll_cons, IH.
  - rewrite replace_nth, (H (snd q) text) by (left; reflexivity).
    destruct (nth_error text p); reflexivity.
  - intros r u Hin. apply H. right. exact Hin.
Qed.

Lemma all_mask_substring (t : jsstring) m a e :
  a <= e <= length t ->
  (forall p, a <= p < e -> nth_error t p = Some m) ->
  substring t a e = repeat m (e - a).
Proof.
  intros Hr H. apply nth_error_ext. intros n. unfold substring.
  rewrite nth_error_firstn, nth_error_skipn.
  destruct (Nat.ltb_spec n (e - a)) as [Hn|Hn].
  - rewrite H by lia. symmetry. apply nth_error_repeat. lia.
  - symmetry. apply nth_error_None. rewrite repeat_length. lia.
Qed.

(** C2. The replacer of [sanitizeTextPatterns] turns every match into the
    mask character repeated to the length of the match.  The global
    replacement by one pattern therefore keeps the length of the string: its
    result is the input with the spans of the matches found by the scan
    overwritten, position by position, by the mask character.  So does
    [sanitizeTextPatterns]: the sanitized string has the length of the
    input and at every position holds either the character of the input or
    the mask character.

    [sanitizeTextPatterns] is the replacement by the email, phone, SSN,
    credit-card and IP-address patterns, in this order, each applied to
    the output of the one before.  Every match that one of the five scans
    replaces stands in the sanitized string as the mask character repeated
    to the length of the match; wherever a match of a pattern starts in
    the text that the pattern is applied to, the sanitized string holds
    the mask character; a position that no scan replaces keeps the
    character of the input; and in the sanitized string no pattern matches
    any more.  Each pattern masks a text of its own kind, and a text with
    an email address and an IP address leaves with both masked. *)
Theorem sanitizeTextPatterns_preserves_length :
  forall text : jsstring,
    (forall m, maskMatch m = repeat maskChar (length m) /\ length (maskMatch m) = length m) /\
    (forall r,
        length (replace r maskMatch text) = length text /\
        (forall a e, In (a, e) (spans r text) -> Match text r a e /\ a < e <= length text) /\
        (forall p, nth_error (replace r maskMatch text) p =
                   option_map (fun c => if covered (spans r text) p then maskChar else c)
                              (nth_error text p))) /\
    length (sanitizeTextPatterns text) = length text /\
    (forall i c, nth_error (sanitizeTextPatterns text) i = Some c ->
                 c = maskChar \/ nth_error text i = Some c) /\
    sanitizeTextPatterns text =
      replace (bounded ipAddressBody) maskMatch
        (replace (bounded creditCardBody) maskMatch
           (replace (bounded ssnBody) maskMatch
              (replace (bounded phoneBody) maskMatch
                 (replace (bounded emailBody) maskMatch text)))) /\
    StageSpec.stages dataPatterns text =
      [(bounded emailBody, text);
       (bounded phoneBody, replace (bounded emailBody) maskMatch text);
       (bounded ssnBody,
        replace (bounded phoneBody) maskMatch (replace (bounded emailBody) maskMatch text));
       (bounded creditCardBody,
        replace (bounded ssnBody) maskMatch
          (replace (bounded phoneBody) maskMatch
             (replace (bounded emailBody) maskMatch text)));
       (bounded ipAddressBody,
        replace (bounded creditCardBody) maskMatch
          (replace (bounded ssnBody) maskMatch
             (replace (bounded phoneBody) maskMatch
                (replace (bounded emailBody) maskMatch text))))] /\
    (forall r u, In (r, u) (StageSpec.stages dataPatterns text) ->
       (forall a e, In (a, e) (spans r u) ->
          Match u r a e /\ a < e <= length text /\
          substring (sanitizeTextPatterns text) a e = maskMatch (substring u a e)) /\
       (forall i e, Match u r i e ->
          nth_error (sanitizeTextPatterns text) i = Some maskChar)) /\
    (forall p,
       (forall r u, In (r, u) (StageSpec.stages dataPatterns text) ->
                    covered (spans r u) p = false) ->
       nth_error (sanitizeTextPatterns text) p = nth_error text p) /\
    Forall (fun pattern => matchFree (snd pattern) (sanitizeTextPatterns text))
           dataPatterns /\
    (replace (bounded emailBody) maskMatch (lit "mail support@example.com now") =
       lit "mail " ++ repeat maskChar 19 ++ lit " now" /\
     replace (bounded phoneBody) maskMatch (lit "call (555) 123-4567 now") =
       lit "call (" ++ repeat maskChar 13 ++ lit " now" /\
     replace (bounded ssnBody) maskMatch (lit "ssn 123-45-6789 now") =
       lit "ssn " ++ repeat maskChar 11 ++ lit " now" /\
     replace (bounded creditCardBody) maskMatch (lit "card 4111-1111-1111-1111 now") =
       lit "card " ++ repeat maskChar 19 ++ lit " now" /\
     replace (bounded ipAddressBody) maskMatch (lit "from 192.168.0.1 now") =
       lit "from " ++ repeat maskChar 11 ++ lit " now") /\
    sanitizeTextPatterns (lit "mail support@example.com from 192.168.0.1 now") =
      lit "mail " ++ repeat maskChar 19 ++ lit " from " ++ repeat maskChar 11 ++ lit " now".
Proof.
  intros text.
  split; [|split; [|split; [|split; [|split; [|split; [|split; [|split; [|split; [|split]]]]]]]]].
  - intros m. split; [reflexivity|apply maskMatch_length].
  - intros r. split; [apply replace_length, maskMatch_length|]. split.
    + intros a e Hin. apply spansFrom_sound in Hin as [Hm Hlt].
      split; [exact Hm|]. split; [exact Hlt|].
      apply Match_span in Hm as [_ Hlen]. apply Hlen, Hlt.
    + apply replace_nth.
  - rewrite sanitizeTextPatterns_maskAll. apply maskAll_length.
  - rewrite sanitizeTextPatterns_maskAll.
    destruct (maskAll_masked_free dataPatterns dataPatterns_maskable text) as [(_ & Hp & _) _].
    exact Hp.
  - apply sanitizeTextPatterns_pipeline.
  - apply stages_dataPatterns.
  - intros r u Hin. rewrite sanitizeTextPatterns_maskAll. split.
    + intros a e Hsp.
      destruct (span_masked _ _ _ _ _ _ dataPatterns_maskable Hin Hsp) as (HM & Hr & Hall).
      destruct (stages_final _ dataPatterns_maskable _ _ _ Hin) as (_ & Hlen & _).
      split; [exact HM|]. split; [exact Hr|].
      rewrite (all_mask_substring _ maskChar a e).
      * unfold maskMatch. rewrite substring_length by lia. reflexivity.
      * rewrite maskAll_length. lia.
      * exact Hall.
    + intros i e HM. apply (match_start_masked _ _ _ _ _ _ dataPatterns_maskable Hin HM).
  - intros p H. rewrite sanitizeTextPatterns_maskAll. apply uncovered_kept, H.
  - rewrite sanitizeTextPatterns_maskAll.
    exact (proj2 (maskAll_masked_free dataPatterns dataPatterns_maskable text)).
  - exact each_pattern_masks.
  - vm_compute. reflexivity.
Qed.

End SanitizeTextFacts.

(* ================================================================== *)
(** * Properties: sanitizing twice                                     *)
(* ================================================================== *)

Module SanitizeValueFacts.
Import PrivacyEngine PrivacyText ValueSpec ObjectSpec.

(** Induction on values, through arrays and objects. *)
Lemma JsValue_induction (P : JsValue -> Prop) :
  P JUndefined -> P JNull -> (forall b, P (JBool b)) -> (forall n, P (JNumber n)) ->
  (forall s, P (JString s)) ->
  (forall items, Forall P items -> P (JArray items)) ->
  (forall entries, Forall (fun kv => P (snd kv)) entries -> P (JObject entries)) ->
  (forall e, P (JTrap e)) ->
  forall v, P v.
Proof.
  intros Hu Hn Hb Hnum Hs Ha Ho Ht.
  fix IH 1. intros [| |b|n|s|items|entries|e].
  - exact Hu.
  - exact Hn.
  - apply Hb.
  - apply Hnum.
  - apply Hs.
  - apply Ha.
    refine ((fix go (l : list JsValue) : Forall P l :=
               match l with
               | [] => Forall_nil _
               | x :: l' => Forall_cons x (IH x) (go l')
               end) items).
  - apply Ho.
    refine ((fix go (l : list (jsstring * JsValue)) : Forall (fun kv => P (snd kv)) l :=
               match l with
               | [] => Forall_nil _
               | kv :: l' => Forall_cons kv (IH (snd kv)) (go l')
               end) entries).
  - apply Ht.
Qed.

Lemma mapItems_cons f x l :
  mapItems f (x :: l) =
  match f x with
  | Throw e => Throw e
  | Ok x' => match mapItems f l with
             | Throw e => Throw e
             | Ok rest => Ok (x' :: rest)
             end
  end.
Proof. reflexivity. Qed.

Lemma loop_cons sens msk f k v l acc :
  loop sens msk f ((k, v) :: l) acc =
  if sens k
  then loop sens msk f l (setProperty acc k (JString (msk v)))
  else match f v with
       | Throw e => Throw e
       | Ok v' => loop sens msk f l (setProperty acc k v')
       end.
Proof. reflexivity. Qed.

(** ** Assignment to a property *)

Lemma assign_keys_in o k v : In k (keys o) -> keys (assign o k v) = keys o.
Proof.
  induction o as [|[k0 w] o IH]; intros H; [destruct H|].
  cbn [assign]. destruct (list_eq_dec Z.eq_dec k0 k) as [->|Hne]; [reflexivity|].
  cbn [keys map fst] in *. destruct H as [H|H]; [congruence|].
  fold (keys o) in *. fold (keys (assign o k v)). rewrite IH by exact H. reflexivity.
Qed.

Lemma assign_new o k v : ~ In k (keys o) -> assign o k v = o ++ [(k, v)].
Proof.
  induction o as [|[k0 w] o IH]; intros H; [reflexivity|].
  cbn [assign]. cbn [keys map fst In] in H. fold (keys o) in H.
  destruct (list_eq_dec Z.eq_dec k0 k) as [->|Hne]; [exfalso; apply H; left; reflexivity|].
  cbn [app]. rewrite IH; [reflexivity|]. intros Hin. apply H. right. exact Hin.
Qed.

Lemma assign_Forall (Q : jsstring * JsValue -> Prop) o k v :
  Forall Q o -> Q (k, v) -> Forall Q (assign o k v).
Proof.
  intros Ho Hkv. induction Ho as [|[k0 w] o Hx Ho IH]; cbn [assign].
  - constructor; [exact Hkv|constructor].
  - destruct (list_eq_dec Z.eq_dec k0 k) as [->|Hne]; constructor; assumption.
Qed.

Lemma setProperty_wellKept sens f o k v :
  wellKept sens f o -> settled sens f (k, v) -> wellKept sens f (setProperty o k v).
Proof.
  intros (Hnd & Hproto & Hall) Hkv. unfold setProperty.
  destruct (list_eq_dec Z.eq_dec k (lit "__proto__")) as [->|Hne];
    [repeat split; assumption|].
  destruct (in_dec (list_eq_dec Z.eq_dec) k (keys o)) as [Hin|Hout].
  - repeat split; [rewrite assign_keys_in by exact Hin; exact Hnd
                  |rewrite assign_keys_in by exact Hin; exact Hproto
                  |apply assign_Forall; assumption].
  - rewrite assign_new by exact Hout. unfold wellKept, keys. rewrite map_app. cbn [map fst].
    fold (keys o). repeat split.
    + apply NoDup_app; [exact Hnd|constructor; [intros []|constructor]|].
      intros x Hx [<-|[]]. contradiction.
    + rewrite in_app_iff. intros [H|[H|[]]]; [contradiction|congruence].
    + apply Forall_app. split; [exact Hall|constructor; [exact Hkv|constructor]].
Qed.

Section Host.

Variable toLowerCase : jsstring -> jsstring.
Variable numberToString : number -> jsstring.

Let sanitize := _sanitizeValue toLowerCase numberToString.
Let sensitive := isSensitiveField toLowerCase.
Let mask := maskValue numberToString.

Lemma sanitize_array items :
  sanitize (JArray items) =
  match mapItems sanitize items with
  | Throw e => Throw e
  | Ok result => Ok (JArray result)
  end.
Proof. reflexivity. Qed.

Lemma sanitize_object entries :
  sanitize (JObject entries) =
  match loop sensitive mask sanitize entries [] with
  | Throw e => Throw e
  | Ok result => Ok (JObject result)
  end.
Proof. reflexivity. Qed.

Lemma mask_settled v : exists n, JString (mask v) = JString (repeat maskChar n).
Proof.
  unfold mask, maskValue.
  destruct v; try (eexists; reflexivity); exists 0%nat; reflexivity.
Qed.

Lemma mask_of_mask n : mask (JString (repeat maskChar n)) = repeat maskChar n.
Proof.
  unfold mask, maskValue. cbn [toStr]. rewrite repeat_length. reflexivity.
Qed.

(** The value under a property of the result is settled. *)
Lemma loop_wellKept entries :
  Forall (fun kv => forall v', sanitize (snd kv) = Ok v' -> sanitize v' = Ok v') entries ->
  forall acc o,
    wellKept sensitive sanitize acc ->
    loop sensitive mask sanitize entries acc = Ok o ->
    wellKept sensitive sanitize o.
Proof.
  induction 1 as [|[k v] entries Hv _ IH]; intros acc o Hacc Hloop.
  - injection Hloop as <-. exact Hacc.
  - rewrite loop_cons in Hloop. cbn [snd] in Hv.
    destruct (sensitive k) eqn:Hk.
    + apply IH in Hloop; [exact Hloop|].
      apply setProperty_wellKept; [exact Hacc|].
      unfold settled. cbn [fst snd]. rewrite Hk. apply mask_settled.
    + destruct (sanitize v) as [v'|e] eqn:Hs; [|discriminate Hloop].
      apply IH in Hloop; [exact Hloop|].
      apply setProperty_wellKept; [exact Hacc|].
      unfold settled. cbn [fst snd]. rewrite Hk. apply Hv. reflexivity.
Qed.

(** Sanitizing a well-kept object rebuilds it entry by entry. *)
Lemma loop_rebuilds o :
  wellKept sensitive sanitize o ->
  forall acc,
    ~ In (lit "__proto__") (keys o) ->
    NoDup (keys acc ++ keys o) ->
    loop sensitive mask sanitize o acc = Ok (acc ++ o).
Proof.
  intros (_ & _ & Hall).
  induction Hall as [|[k v] o Hkv _ IH]; intros acc Hproto Hnd.
  - rewrite app_nil_r. reflexivity.
  - rewrite loop_cons. cbn [keys map fst In] in Hproto, Hnd. fold (keys o) in Hproto, Hnd.
    assert (Hk : ~ In k (keys acc)).
    { intros Hin. apply NoDup_remove_2 in Hnd. apply Hnd.
      apply in_app_iff. left. exact Hin. }
    assert (Hset : forall w, setProperty acc k w = acc ++ [(k, w)]).
    { intros w. unfold setProperty.
      destruct (list_eq_dec Z.eq_dec k (lit "__proto__")) as [->|_];
        [exfalso; apply Hproto; left; reflexivity|].
      apply assign_new, Hk. }
    assert (Hnext : loop sensitive mask sanitize o (acc ++ [(k, v)]) = Ok (acc ++ (k, v) :: o)).
    { rewrite IH.
      - rewrite <- app_assoc. reflexivity.
      - intros Hin. apply Hproto. right. exact Hin.
      - unfold keys at 1. rewrite map_app. cbn [map fst]. fold (keys acc).
        rewrite <- app_assoc. exact Hnd. }
    unfold settled in Hkv. cbn [fst snd] in Hkv.
    destruct (sensitive k).
    + destruct Hkv as (n & ->). rewrite mask_of_mask, Hset. exact Hnext.
    + rewrite Hkv, Hset. exact Hnext.
Qed.

Lemma mapItems_settled items :
  Forall (fun v => forall v', sanitize v = Ok v' -> sanitize v' = Ok v') items ->
  forall items', mapItems sanitize items = Ok items' ->
                 mapItems sanitize items' = Ok items'.
Proof.
  induction 1 as [|x l Hx _ IH]; intros items' H.
  - injection H as <-. reflexivity.
  - rewrite mapItems_cons in H.
    destruct (sanitize x) as [x'|e] eqn:Hsx; [|discriminate H].
    destruct (mapItems sanitize l) as [rest|e] eqn:Hl; [|discriminate H].
    injection H as <-.
    rewrite mapItems_cons, (Hx x' eq_refl), (IH rest eq_refl). reflexivity.
Qed.

(** A sanitized value sanitizes to itself. *)
Lemma sanitize_settled : forall v v', sanitize v = Ok v' -> sanitize v' = Ok v'.
Proof.
  induction v as [| |b|n|s|items IH|entries IH|e] using JsValue_induction; intros v' H.
  - injection H as <-. reflexivity.
  - injection H as <-. reflexivity.
  - injection H as <-. reflexivity.
  - injection H as <-. reflexivity.
  - injection H as <-. unfold sanitize. cbn [_sanitizeValue].
    rewrite SanitizeTextFacts.sanitizeTextPatterns_idempotent. reflexivity.
  - rewrite sanitize_array in H.
    destruct (mapItems sanitize items) as [items'|e] eqn:Hm; [|discriminate H].
    injection H as <-. rewrite sanitize_array, (mapItems_settled items IH items' Hm).
    reflexivity.
  - rewrite sanitize_object in H.
    destruct (loop sensitive mask sanitize entries []) as [o|e] eqn:Hl; [|discriminate H].
    injection H as <-.
    assert (Hw : wellKept sensitive sanitize o).
    { apply (loop_wellKept entries IH [] o); [|exact Hl].
      repeat split; [constructor|intros []|constructor]. }
    rewrite sanitize_object, (loop_rebuilds o Hw []).
    + reflexivity.
    + apply Hw.
    + apply Hw.
  - discriminate H.
Qed.

(** C6. [sanitizeData] always returns a value, and sanitizing that value
    again returns it unchanged: for strings (masking a masked text changes
    nothing), for arrays and for nested objects alike. *)
Theorem sanitizeData_idempotent :
  forall (this : PrivacyEngine.t) (data : JsValue),
    (exists v,
        returned (sanitizeData toLowerCase numberToString this data) = Some v /\
        returned (sanitizeData toLowerCase numberToString this v) = Some v) /\
    forall text : jsstring,
      sanitizeTextPatterns (sanitizeTextPatterns text) = sanitizeTextPatterns text.
Proof.
  intros this data. split; [|apply SanitizeTextFacts.sanitizeTextPatterns_idempotent].
  unfold returned, sanitizeData. fold sanitize.
  destruct data as [| |b|n|s|items|entries|e];
    try (eexists; split; reflexivity).
  - exists (JString (sanitizeTextPatterns s)). split; [reflexivity|].
    cbn [fst]. unfold sanitize. cbn [_sanitizeValue fst].
    rewrite SanitizeTextFacts.sanitizeTextPatterns_idempotent. reflexivity.
  - destruct (sanitize (JArray items)) as [v|e] eqn:Hs.
    + exists v. split; [reflexivity|].
      pose proof (sanitize_settled _ _ Hs) as Hv.
      rewrite sanitize_array in Hs.
      destruct (mapItems sanitize items); [|discriminate Hs]. injection Hs as <-.
      rewrite Hv. reflexivity.
    + exists (JArray items). split; [reflexivity|]. rewrite Hs. reflexivity.
  - destruct (sanitize (JObject entries)) as [v|e] eqn:Hs.
    + exists v. split; [reflexivity|].
      pose proof (sanitize_settled _ _ Hs) as Hv.
      rewrite sanitize_object in Hs.
      destruct (loop sensitive mask sanitize entries []); [|discriminate Hs]. injection Hs as <-.
      rewrite Hv. reflexivity.
    + exists (JObject entries). split; [reflexivity|]. rewrite Hs. reflexivity.
Qed.

End Host.

(** ** A payload, sanitized once and twice *)

Example sanitize_payload :
  let payload :=
    JObject [(lit "email", JString (lit "ann@example.com"));
             (lit "note", JString (lit "call 555-123-4567"));
             (lit "user_id", JNumber (Fin 12345));
             (lit "tags", JArray [JString (lit "vip"); JNull; JBool true]);
             (lit "__proto__", JObject [(lit "polluted", JBool true)])] in
  let clean :=
    JObject [(lit "email", JString (repeat maskChar 15));
             (lit "note", JString (lit "call " ++ repeat maskChar 12));
             (lit "user_id", JString (repeat maskChar 5));
             (lit "tags", JArray [JString (lit "vip"); JNull; JBool true])] in
  SanitizeSpec.sanitizeFor SanitizeSpec.quiet payload = (Ok clean, []) /\
  SanitizeSpec.sanitizeFor SanitizeSpec.quiet clean = (Ok clean, []).
Proof. split; vm_compute; reflexivity. Qed.

End SanitizeValueFacts.

(* ================================================================== *)
(** * Properties: load metrics and adaptive sampling                   *)
(* ================================================================== *)

Module PerformanceLoadFacts.
Import PerformanceLoad NumberFacts.

Local Open Scope Q_scope.

Lemma Qltb_trans_const a b x : a <= b -> Qltb b x = true -> Qltb a x = true.
Proof.
  intros Hab H. apply Qltb_true_iff in H. apply Qltb_true_iff. lra.
Qed.

(** X1. The thresholds of [shouldReduceActivity] lie above those of
    [shouldThrottleEvents] metric by metric: whenever the monitor asks to
    reduce activity it also asks to throttle events. *)
Theorem reduce_activity_implies_throttle :
  forall m : metrics,
    shouldReduceActivity m = true -> shouldThrottleEvents m = true.
Proof.
  intros m H. unfold shouldReduceActivity in H. unfold shouldThrottleEvents.
  apply orb_true_iff in H as [H|H]; [apply orb_true_iff in H as [H|H]|].
  - rewrite (Qltb_trans_const 0.6 0.8 _ ltac:(lra) H). reflexivity.
  - rewrite (Qltb_trans_const (20 * 1024 * 1024) (50 * 1024 * 1024) _ ltac:(lra) H).
    rewrite orb_true_r. reflexivity.
  - rewrite (Qltb_trans_const 500 1000 _ ltac:(lra) H).
    rewrite orb_true_r. reflexivity.
Qed.

(** Without a reason to throttle there is none to reduce activity. *)
Lemma no_throttle_no_reduce m :
  shouldThrottleEvents m = false -> shouldReduceActivity m = false.
Proof.
  unfold shouldThrottleEvents, shouldReduceActivity. intros H.
  apply orb_false_iff in H as [H Hl]. apply orb_false_iff in H as [Hc Hm].
  apply Qltb_false_iff in Hc, Hm, Hl.
  repeat (apply orb_false_iff; split); apply Qltb_false_iff; lra.
Qed.

Lemma reduce_activity_implies_throttle_witness :
  shouldThrottleEvents (mkMetrics 0.9 0 0 0) = true.
Proof.
  apply (reduce_activity_implies_throttle (mkMetrics 0.9 0 0 0)).
  vm_compute. reflexivity.
Defined.

Lemma blocking_total_nonneg entries : forall total,
  0 <= total ->
  0 <= fold_left (fun total duration =>
                    if Qltb 50 duration then total + (duration - 50) else total)
                 entries total.
Proof.
  induction entries as [|d entries IH]; intros total Ht; [exact Ht|].
  rewrite HashFacts.fold_left_step. apply IH.
  destruct (Qltb 50 d) eqn:Hd; [|exact Ht].
  apply Qltb_true_iff in Hd. lra.
Qed.

Lemma processLayoutShifts_cpuUsage entries : forall m,
  cpuUsage (processLayoutShifts entries m) = cpuUsage m.
Proof.
  unfold processLayoutShifts.
  induction entries as [|e entries IH]; intros m; [reflexivity|].
  rewrite HashFacts.fold_left_step, IH. destruct e; reflexivity.
Qed.

Lemma processPaintTiming_cpuUsage entries : forall m,
  cpuUsage (processPaintTiming entries m) = cpuUsage m.
Proof.
  unfold processPaintTiming.
  induction entries as [|e entries IH]; intros m; [reflexivity|].
  rewrite HashFacts.fold_left_step, IH.
  match goal with
  | |- context [list_eq_dec ?d ?a ?b] => destruct (list_eq_dec d a b); reflexivity
  end.
Qed.

Lemma Qmin_fraction x : 0 <= x -> 0 <= Qmin x 1.0 <= 1.
Proof.
  intros Hx. pose proof (Q.le_min_r x 1.0) as Hr.
  split; [apply Q.min_glb; lra|lra].
Qed.

Lemma apply_cpuUsage m u :
  0 <= cpuUsage m <= 1 -> 0 <= cpuUsage (apply m u) <= 1.
Proof.
  intros Hm. destruct u as [entries|t|h|rtt|el|ls|ps|]; cbn [apply].
  - unfold processlongTasks. cbn [cpuUsage].
    pose proof (blocking_total_nonneg entries 0 ltac:(lra)) as Ht.
    apply Qmin_fraction. apply Qle_shift_div_l; lra.
  - unfold measureBlockingTime. destruct (Qltb 50 t) eqn:Ht; [|exact Hm].
    apply Qltb_true_iff in Ht. cbn [cpuUsage].
    apply Qmin_fraction.
    assert (0 <= t / 1000) by (apply Qle_shift_div_l; lra). lra.
  - exact Hm.
  - unfold updateNetworkLatency. destruct (Qeq_bool rtt 0); exact Hm.
  - exact Hm.
  - rewrite processLayoutShifts_cpuUsage. exact Hm.
  - rewrite processPaintTiming_cpuUsage. exact Hm.
  - exact Hm.
Qed.

(** X2. Whatever long tasks, blocking times, memory and latency readings,
    layout shifts and paint entries the monitor processes, in any order,
    the CPU usage it keeps stays a fraction between 0 and 1. *)
Theorem cpuUsage_stays_fraction :
  forall us : list update, 0 <= cpuUsage (run us) <= 1.
Proof.
  intros us. unfold run.
  assert (H : 0 <= cpuUsage init <= 1) by (cbn; lra).
  revert H. generalize init.
  induction us as [|u us IH]; intros m Hm; [exact Hm|].
  rewrite HashFacts.fold_left_step. apply IH, apply_cpuUsage, Hm.
Qed.

Lemma penalty_range x cap :
  0 <= cap -> 0 <= x -> 0 <= Qmin x cap <= cap.
Proof.
  intros Hc Hx. split; [apply Q.min_glb; assumption|apply Q.le_min_r].
Qed.

(** The performance score is never negative, and it is at most 1 when no
    metric is negative. *)
Lemma score_bounds m :
  0 <= calculatePerformanceScore m /\
  (0 <= cpuUsage m -> 0 <= memoryUsage m -> 0 <= networkLatency m ->
   0 <= renderTime m -> calculatePerformanceScore m <= 1).
Proof.
  unfold calculatePerformanceScore. split; [apply Q.le_max_r|].
  intros Hc Hm Hl Hr.
  pose proof (penalty_range (cpuUsage m * 0.4) 0.4 ltac:(lra) ltac:(lra)).
  pose proof (penalty_range (memoryUsage m / (100 * 1024 * 1024)) 1.0 ltac:(lra)
                ltac:(apply Qle_shift_div_l; lra)).
  pose proof (penalty_range (networkLatency m / 2000) 1.0 ltac:(lra)
                ltac:(apply Qle_shift_div_l; lra)).
  pose proof (penalty_range (renderTime m / 3000) 1.0 ltac:(lra)
                ltac:(apply Qle_shift_div_l; lra)).
  apply Q.max_lub; lra.
Qed.

(** X3. The adaptive sample rate never exceeds the configured rate and
    never falls below half of it: for a configured rate that is not
    negative, [getAdaptiveSampleRate] returns the rate itself, three
    quarters of it or half of it, and the rate itself exactly when the
    performance score is at least 0.7. *)
Theorem adaptive_rate_between_half_and_base :
  forall (m : metrics) (baseSampleRate : Q),
    0 <= baseSampleRate ->
    baseSampleRate * 0.5 <= getAdaptiveSampleRate m baseSampleRate <= baseSampleRate /\
    (0.7 <= calculatePerformanceScore m ->
     getAdaptiveSampleRate m baseSampleRate = baseSampleRate).
Proof.
  intros m base Hb. unfold getAdaptiveSampleRate.
  destruct (Qltb (calculatePerformanceScore m) 0.5) eqn:H5.
  - apply Qltb_true_iff in H5. split; [lra|]. intros H7. lra.
  - destruct (Qltb (calculatePerformanceScore m) 0.7) eqn:H7.
    + apply Qltb_true_iff in H7. split; [lra|]. intros H. lra.
    + split; [lra|]. reflexivity.
Qed.

Lemma adaptive_rate_between_half_and_base_witness :
  0.2 * 0.5 <= getAdaptiveSampleRate (mkMetrics 1 0 2000 0) 0.2 <= 0.2 /\
  (0.7 <= calculatePerformanceScore (mkMetrics 1 0 2000 0) ->
   getAdaptiveSampleRate (mkMetrics 1 0 2000 0) 0.2 = 0.2).
Proof.
  apply (adaptive_rate_between_half_and_base (mkMetrics 1 0 2000 0) 0.2).
  vm_compute. discriminate.
Defined.

(** X4. When no metric is negative the performance score lies between 0
    and 1; the grade is A exactly when the score is at least 0.9 and F
    exactly when it is below 0.6. *)
Theorem performance_score_in_unit_interval :
  forall m : metrics,
    0 <= cpuUsage m -> 0 <= memoryUsage m -> 0 <= networkLatency m ->
    0 <= renderTime m ->
    0 <= calculatePerformanceScore m <= 1 /\
    (getPerformanceGrade m = A <-> 0.9 <= calculatePerformanceScore m) /\
    (getPerformanceGrade m = F <-> calculatePerformanceScore m < 0.6).
Proof.
  intros m Hc Hm Hl Hr.
  destruct (score_bounds m) as [H0 H1]. specialize (H1 Hc Hm Hl Hr).
  split; [split; assumption|].
  unfold getPerformanceGrade.
  set (score := calculatePerformanceScore m) in *.
  destruct (Qle_bool 0.9 score) eqn:E9.
  { apply Qle_bool_iff in E9. split; split; intros H; try reflexivity;
      try discriminate; try lra. }
  assert (N9 : ~ 0.9 <= score) by (intros H; apply Qle_bool_iff in H; congruence).
  destruct (Qle_bool 0.8 score) eqn:E8.
  { apply Qle_bool_iff in E8. split; split; intros H; try discriminate; try lra. }
  destruct (Qle_bool 0.7 score) eqn:E7.
  { apply Qle_bool_iff in E7. split; split; intros H; try discriminate; try lra. }
  destruct (Qle_bool 0.6 score) eqn:E6.
  { apply Qle_bool_iff in E6. split; split; intros H; try discriminate; try lra. }
  assert (N6 : ~ 0.6 <= score) by (intros H; apply Qle_bool_iff in H; congruence).
  split; split; intros H; try discriminate; try reflexivity; try lra.
Qed.

Lemma performance_score_in_unit_interval_witness :
  0 <= calculatePerformanceScore init <= 1 /\
  (getPerformanceGrade init = A <-> 0.9 <= calculatePerformanceScore init) /\
  (getPerformanceGrade init = F <-> calculatePerformanceScore init < 0.6).
Proof.
  apply (performance_score_in_unit_interval init); vm_compute; discriminate.
Defined.

End PerformanceLoadFacts.

(* ================================================================== *)
(** * Properties: coordinates, form events, masks and blocks           *)
(* ================================================================== *)

Module PrivacyEventsFacts.
Import Regex PrivacyText PrivacyEngine PrivacyEvents RegexSpec RegexFacts.

Lemma floor_grid q :
  let t := (inject_Z (Qfloor (q / 10)) * 10)%Q in
  (t <= q)%Q /\ (q < t + 10)%Q /\ (inject_Z (Qfloor (t / 10)) * 10 == t)%Q.
Proof.
  cbv zeta.
  pose proof (Qfloor_le (q / 10)) as Hl.
  pose proof (Qlt_floor (q / 10)) as Hu.
  rewrite inject_Z_plus in Hu.
  assert (Hq : (q == q / 10 * 10)%Q) by (field).
  split; [|split].
  - rewrite Hq at 2. apply Qmult_le_compat_r; [exact Hl|discriminate].
  - change (inject_Z 1) with 1%Q in Hu.
    assert (q / 10 * 10 < (inject_Z (Qfloor (q / 10)) + 1) * 10)%Q
      by (apply Qmult_lt_compat_r; [reflexivity|exact Hu]).
    lra.
  - assert (E : (inject_Z (Qfloor (q / 10)) * 10 / 10 == inject_Z (Qfloor (q / 10)))%Q)
      by (field).
    rewrite (Qfloor_comp _ _ E), Qfloor_Z. reflexivity.
Qed.

(** A multiple of 10 not above [q] is not above the truncation of [q]. *)
Lemma floor_greatest q (k : Z) :
  (inject_Z k * 10 <= q)%Q -> (inject_Z k * 10 <= inject_Z (Qfloor (q / 10)) * 10)%Q.
Proof.
  intros H.
  assert (Hk : (inject_Z k <= q / 10)%Q) by (apply Qle_shift_div_l; [reflexivity|exact H]).
  apply Qfloor_resp_le in Hk. rewrite Qfloor_Z in Hk.
  apply Qmult_le_compat_r; [|discriminate].
  rewrite <- Zle_Qle. exact Hk.
Qed.

(** X5. [truncateCoordinates] moves each finite coordinate down to the
    grid of step 10: each coordinate of the result is an integer multiple
    of 10, at most the coordinate of the input and less than 10 below it,
    which makes it the greatest multiple of 10 not above the coordinate.
    Truncating a truncated point changes nothing.  The point (123, 789)
    goes to (120, 780) and the point (-5, 10) to (-10, 10). *)
Theorem truncateCoordinates_floor_to_grid :
  forall c : coords,
    let t := truncateCoordinates c in
    (x t <= x c < x t + 10)%Q /\ (y t <= y c < y t + 10)%Q /\
    (x (truncateCoordinates t) == x t)%Q /\ (y (truncateCoordinates t) == y t)%Q /\
    (exists k : Z, x t == inject_Z k * 10)%Q /\
    (exists l : Z, y t == inject_Z l * 10)%Q /\
    (forall k : Z, (inject_Z k * 10 <= x c)%Q -> (inject_Z k * 10 <= x t)%Q) /\
    (forall l : Z, (inject_Z l * 10 <= y c)%Q -> (inject_Z l * 10 <= y t)%Q) /\
    (x (truncateCoordinates (mkCoords 123 789)) == 120)%Q /\
    (y (truncateCoordinates (mkCoords 123 789)) == 780)%Q /\
    (x (truncateCoordinates (mkCoords (-5) 10)) == -10)%Q /\
    (y (truncateCoordinates (mkCoords (-5) 10)) == 10)%Q.
Proof.
  intros c. cbv zeta. unfold truncateCoordinates. cbn [x y].
  destruct (floor_grid (x c)) as (Hx1 & Hx2 & Hx3).
  destruct (floor_grid (y c)) as (Hy1 & Hy2 & Hy3).
  split; [split; assumption|]. split; [split; assumption|].
  split; [assumption|]. split; [assumption|].
  split; [exists (Qfloor (x c / 10)); reflexivity|].
  split; [exists (Qfloor (y c / 10)); reflexivity|].
  split; [apply floor_greatest|]. split; [apply floor_greatest|].
  repeat split.
Qed.

Section Host.

Variable toLowerCase : jsstring -> jsstring.
Variable numberToString : number -> jsstring.

Lemma attribute_selector_listed (el : element) (attr : string) :
  In (lit "[" ++ lit attr ++ lit "]") sensitiveInputSelectors ->
  startsWith (lit "[") (lit "[" ++ lit attr ++ lit "]") &&
  endsWith (lit "]") (lit "[" ++ lit attr ++ lit "]") = true ->
  splitHead 61 (slice 1 (-1) (lit "[" ++ lit attr ++ lit "]")) = lit attr ->
  hasAttribute el (lit attr) = true ->
  existsb (fun selector =>
             startsWith (lit "[") selector && endsWith (lit "]") selector &&
             let attrName := splitHead 61 (slice 1 (-1) selector) in
             hasAttribute el attrName)
          sensitiveInputSelectors = true.
Proof.
  intros Hin Hse Hname Hel. apply existsb_exists.
  exists (lit "[" ++ lit attr ++ lit "]"). split; [exact Hin|].
  rewrite Hse. cbv zeta. rewrite Hname. exact Hel.
Qed.

Lemma password_is_sensitive_input t el :
  type t = lit "password" -> isSensitiveInput toLowerCase t el = true.
Proof.
  intros E. unfold isSensitiveInput. rewrite E. reflexivity.
Qed.

(** X6. The three privacy modes are ordered: a form value that the
    permissive mode masks is masked by the balanced mode, and a value that
    the balanced mode masks is masked by the strict mode. *)
Theorem masking_grows_with_strictness :
  forall (target : option FormTarget) (element : option element),
    (shouldMaskInput toLowerCase (PrivacyEngine.mk permissive) target element = true ->
     shouldMaskInput toLowerCase (PrivacyEngine.mk balanced) target element = true) /\
    (shouldMaskInput toLowerCase (PrivacyEngine.mk balanced) target element = true ->
     shouldMaskInput toLowerCase (PrivacyEngine.mk strict) target element = true).
Proof.
  intros [t|] el; [|split; intros H; exact H].
  unfold shouldMaskInput. cbn [mode]. split; [|reflexivity].
  intros H.
  assert (Hp : (if list_eq_dec Z.eq_dec (type t) (lit "password") then true else false) = true ->
               isSensitiveInput toLowerCase t el = true).
  { destruct (list_eq_dec Z.eq_dec (type t) (lit "password")) as [E|]; [|discriminate].
    intros _. apply password_is_sensitive_input, E. }
  destruct el as [el|]; [|apply Hp, H].
  apply orb_true_iff in H as [H|H]; [|apply Hp, H].
  unfold isSensitiveInput.
  do 2 match goal with
       | |- (if ?c then _ else _) = true => destruct c; [reflexivity|]
       end.
  apply orb_true_iff in H as [H|H].
  - apply (attribute_selector_listed el "data-sensitive"); try exact H.
    + do 23 right. left. reflexivity.
    + vm_compute. reflexivity.
    + vm_compute. reflexivity.
  - apply (attribute_selector_listed el "data-private"); try exact H.
    + do 24 right. left. reflexivity.
    + vm_compute. reflexivity.
    + vm_compute. reflexivity.
Qed.

Lemma maskValue_shape v :
  exists n, maskValue numberToString v = repeat maskChar n /\
            (v = JNull \/ v = JUndefined -> n = 0%nat) /\
            (v <> JNull -> v <> JUndefined ->
             n = length (toStr numberToString v)).
Proof.
  destruct v; cbn [maskValue];
    try (eexists; split; [reflexivity|];
         split; [intros [H|H]; discriminate H|intros; reflexivity]);
    exists 0%nat;
    (split; [reflexivity|split; [reflexivity|intros H1 H2; congruence]]).
Qed.

(** X7. Whatever the mode, the value of a password input never leaves
    [sanitizeFormEvent] in the clear, and in strict mode no value does:
    the event keeps its type and the tag, type, name and placeholder of the
    target, and carries as value the mask character repeated to the length
    of the value written as a string, and the empty string when the value
    is null or undefined. *)
Theorem password_and_strict_values_masked :
  forall (this : PrivacyEngine.t) (formEvent : FormEvent) (element : option element)
         (t : FormTarget),
    target formEvent = Some t ->
    mode this = strict \/ type t = lit "password" ->
    exists n,
      sanitizeFormEvent toLowerCase numberToString this formEvent element =
      mkFormEvent (Some (mkTarget (tagName t) (type t) (name t)
                                  (JString (repeat maskChar n)) (placeholder t)))
                  (eventType formEvent) /\
      (value t = JNull \/ value t = JUndefined -> n = 0%nat) /\
      (value t <> JNull -> value t <> JUndefined ->
       n = length (toStr numberToString (value t))).
Proof.
  intros this ev el t Ht Hm.
  destruct (maskValue_shape (value t)) as (n & Hn & Hlen).
  exists n. split; [|exact Hlen].
  unfold sanitizeFormEvent. rewrite Ht.
  assert (Hs : shouldMaskInput toLowerCase this (Some t) el = true).
  { unfold shouldMaskInput. destruct Hm as [->|Hp]; [reflexivity|].
    destruct (mode this); [reflexivity| |].
    - apply password_is_sensitive_input, Hp.
    - rewrite Hp. destruct el as [el|]; [|reflexivity].
      rewrite orb_true_r. reflexivity. }
  rewrite Hs, Hn. reflexivity.
Qed.

End Host.

Lemma password_and_strict_values_masked_witness :
  exists n,
    sanitizeFormEvent HostSamples.asciiLowerCase HostSamples.integerToString
      (PrivacyEngine.mk permissive)
      (mkFormEvent (Some (mkTarget (lit "INPUT") (lit "password") (lit "pw")
                                   (JString (lit "hunter2")) []))
                   (lit "input"))
      None =
    mkFormEvent (Some (mkTarget (lit "INPUT") (lit "password") (lit "pw")
                                (JString (repeat maskChar n)) []))
                (lit "input") /\
    (JString (lit "hunter2") = JNull \/ JString (lit "hunter2") = JUndefined ->
     n = 0%nat) /\
    (JString (lit "hunter2") <> JNull -> JString (lit "hunter2") <> JUndefined ->
     n = length (toStr HostSamples.integerToString (JString (lit "hunter2")))).
Proof.
  apply (password_and_strict_values_masked HostSamples.asciiLowerCase
           HostSamples.integerToString (PrivacyEngine.mk permissive)
           (mkFormEvent (Some (mkTarget (lit "INPUT") (lit "password") (lit "pw")
                                        (JString (lit "hunter2")) []))
                        (lit "input"))
           None
           (mkTarget (lit "INPUT") (lit "password") (lit "pw")
                     (JString (lit "hunter2")) [])).
  - reflexivity.
  - right. reflexivity.
Defined.

(** A string made of one character that no class of the pattern contains
    has no match of the pattern. *)
Lemma repeat_matchFree m r n :
  maskable m r -> matchFree r (repeat m n).
Proof.
  intros (body & -> & Hnull & Hav) i.
  destruct (ends (bounded body) (repeat m n) i) as [|e rest] eqn:He; [reflexivity|].
  exfalso.
  assert (Hm : Match (repeat m n) (bounded body) i e)
    by (apply ends_iff; rewrite He; left; reflexivity).
  apply Match_bounded in Hm as (_ & _ & Hm).
  pose proof (Match_progress _ _ _ _ Hm Hnull) as Hlt.
  pose proof (Match_span _ _ _ _ Hm) as [_ Hlen]. specialize (Hlen Hlt).
  rewrite repeat_length in Hlen.
  apply (Match_clear m _ _ _ _ Hm Hav i); [lia|].
  apply nth_error_repeat. lia.
Qed.

Lemma dataPatterns_avoid_blockChar :
  Forall (fun pattern => maskable blockChar (snd pattern)) dataPatterns.
Proof.
  unfold dataPatterns.
  repeat (constructor; [eexists; split; [reflexivity|split; vm_compute; reflexivity]|]).
  constructor.
Qed.

Lemma repeat_survives m n :
  Forall (fun pattern => maskable m (snd pattern)) dataPatterns ->
  sanitizeTextPatterns (repeat m n) = repeat m n.
Proof.
  intros H. rewrite SanitizeTextFacts.sanitizeTextPatterns_maskAll.
  apply SanitizeTextFacts.maskAll_free.
  eapply Forall_impl; [|exact H].
  intros p Hp. apply repeat_matchFree, Hp.
Qed.

(** X8. What the engine writes in place of a form value (the mask) or of
    the text of a click target (the block) holds no match of any data
    pattern: when [track] later passes the event through [sanitizeData],
    these strings come out as they went in. *)
Theorem masks_and_blocks_survive_sanitizing :
  forall (toLowerCase : jsstring -> jsstring) (numberToString : number -> jsstring)
         (v : JsValue) (text : jsstring),
    sanitizeTextPatterns (maskValue numberToString v) = maskValue numberToString v /\
    sanitizeTextPatterns (PrivacyText.anonymizeText text) = PrivacyText.anonymizeText text /\
    _sanitizeValue toLowerCase numberToString (anonymizeText (JString text)) =
    Ok (anonymizeText (JString text)).
Proof.
  intros toLowerCase numberToString v text.
  assert (Hb : sanitizeTextPatterns (PrivacyText.anonymizeText text) =
               PrivacyText.anonymizeText text)
    by (apply repeat_survives, dataPatterns_avoid_blockChar).
  split; [|split; [exact Hb|]].
  - destruct (maskValue_shape numberToString v) as (n & -> & _).
    apply repeat_survives, SanitizeTextFacts.dataPatterns_maskable.
  - cbn [anonymizeText _sanitizeValue]. rewrite Hb. reflexivity.
Qed.

End PrivacyEventsFacts.

(* ================================================================== *)
(** * Properties: substrings                                           *)
(* ================================================================== *)

Module StringFacts.

Lemma startsWith_iff needle : forall hay,
  startsWith needle hay = true <-> exists post, hay = needle ++ post.
Proof.
  induction needle as [|a needle IH]; intros hay.
  - split; [intros _; exists hay; reflexivity|intros _; destruct hay; reflexivity].
  - destruct hay as [|b hay]; cbn [startsWith].
    + split; [discriminate|intros [post H]; discriminate H].
    + rewrite andb_true_iff, Z.eqb_eq, IH. split.
      * intros [-> [post ->]]. exists post. reflexivity.
      * intros [post H]. injection H as -> ->. split; [reflexivity|exists post; reflexivity].
Qed.

Lemma includes_unfold needle hay :
  includes needle hay =
  startsWith needle hay ||
  match hay with [] => false | _ :: hay' => includes needle hay' end.
Proof. destruct hay; reflexivity. Qed.

Lemma includes_iff needle : forall hay,
  includes needle hay = true <-> exists pre post, hay = pre ++ needle ++ post.
Proof.
  induction hay as [|c hay IH]; rewrite includes_unfold, orb_true_iff, startsWith_iff.
  - split.
    + intros [[post H]|H]; [|discriminate H]. exists [], post. exact H.
    + intros (pre & post & H). left.
      destruct pre as [|p pre]; [exists post; exact H|discriminate H].
  - rewrite IH. split.
    + intros [[post H]|(pre & post & H)].
      * exists [], post. exact H.
      * exists (c :: pre), post. rewrite H. reflexivity.
    + intros (pre & post & H). destruct pre as [|p pre].
      * left. exists post. exact H.
      * right. injection H as _ H. exists pre, post. exact H.
Qed.

(** A string that contains [b] contains every string that [b] contains. *)
Lemma includes_trans a b hay :
  includes a b = true -> includes b hay = true -> includes a hay = true.
Proof.
  rewrite !includes_iff. intros (p1 & q1 & ->) (p2 & q2 & ->).
  exists (p2 ++ p1), (q1 ++ q2). rewrite <- !app_assoc. reflexivity.
Qed.

End StringFacts.

(* ================================================================== *)
(** * Properties: session quality, rate limit and bot detection        *)
(* ================================================================== *)

Module SessionActivityFacts.
Import SessionManager SessionActivity SessionSpec NumberFacts.

(** X9. The two anonymizing hashes of the SDK agree: the identifier that
    [SessionManager.getAnonymizedSessionId] returns for a session is the
    one that [PrivacyEngine.hashSessionId] computes from the session and
    site identifiers. *)
Theorem anonymized_session_ids_agree :
  forall m : SessionManager.t,
    getAnonymizedSessionId m = PrivacyEngine.hashSessionId (sessionId m) (siteId m).
Proof.
  intros m. rewrite HashFacts.hashSessionId_hashString.
  unfold getAnonymizedSessionId. reflexivity.
Qed.

Section Quality.

Local Open Scope Q_scope.

Lemma duration_step_mono (threshold d d' score score' : Q) :
  d <= d' -> score <= score' ->
  (if Qltb threshold d then score + 0.1 else score) <=
  (if Qltb threshold d' then score' + 0.1 else score').
Proof.
  intros Hd Hs.
  destruct (Qltb threshold d) eqn:E; destruct (Qltb threshold d') eqn:E'; try lra.
  apply Qltb_true_iff in E. apply Qltb_false_iff in E'. lra.
Qed.

Lemma duration_step_range (threshold d score lo hi : Q) :
  lo <= score <= hi ->
  lo <= (if Qltb threshold d then score + 0.1 else score) <= hi + 0.1.
Proof. intros H. destruct (Qltb threshold d); lra. Qed.

(** X10. The quality score of a session never exceeds 1 and is not
    negative when the two counters are not; it does not decrease when the
    session gets longer or when a counter grows. *)
Theorem session_quality_bounded_and_monotone :
  forall duration pageCount eventCount : Q,
    getSessionQuality duration pageCount eventCount <= 1 /\
    (0 <= pageCount -> 0 <= eventCount ->
     0 <= getSessionQuality duration pageCount eventCount) /\
    (forall duration' pageCount' eventCount',
        duration <= duration' -> pageCount <= pageCount' -> eventCount <= eventCount' ->
        getSessionQuality duration pageCount eventCount <=
        getSessionQuality duration' pageCount' eventCount').
Proof.
  intros d p e. unfold getSessionQuality. split; [|split].
  - cbv zeta. apply (Qle_trans _ 1.0); [apply Q.le_min_r|lra].
  - intros Hp He. cbv zeta.
    assert (H1 : 0 <= Qmin (p * 0.1) 0.3) by (apply Q.min_glb; lra).
    assert (H2 : 0 <= Qmin (e * 0.01) 0.3) by (apply Q.min_glb; lra).
    apply Q.min_glb; [|lra].
    destruct (Qltb 30000 d), (Qltb 120000 d), (Qltb 300000 d), (Qltb 600000 d); lra.
  - intros d' p' e' Hd Hp He. cbv zeta.
    apply Q.min_le_compat_r.
    apply Qplus_le_compat; [apply Qplus_le_compat|].
    + repeat (apply duration_step_mono; [exact Hd|]). lra.
    + apply Q.min_le_compat_r. lra.
    + apply Q.min_le_compat_r. lra.
Qed.

End Quality.

(** ** The rate limit *)

Lemma rate_run_snoc clock now : run (clock ++ [now]) = step (run clock) now.
Proof. unfold run. rewrite fold_left_app. reflexivity. Qed.

Lemma shouldRateLimit_bounded now this :
  Z.of_nat (length (eventTimestamps this)) <= maxEventsPerMinute ->
  Z.of_nat (length (eventTimestamps (snd (shouldRateLimit now this)))) <= maxEventsPerMinute.
Proof.
  intros Hb. unfold shouldRateLimit. cbn [eventTimestamps].
  pose proof (filter_length_le (fun ts => ts >? now - 60000) (eventTimestamps this)) as Hf.
  destruct (Z.of_nat (length (filter (fun ts => ts >? now - 60000) (eventTimestamps this)))
            >=? maxEventsPerMinute) eqn:E; cbn [snd eventTimestamps].
  - lia.
  - rewrite length_app. cbn [length]. lia.
Qed.

Lemma run_stamps_bounded clock :
  Z.of_nat (length (eventTimestamps (fst (run clock)))) <= maxEventsPerMinute.
Proof.
  induction clock as [|now clock IH] using rev_ind.
  - unfold maxEventsPerMinute. cbn. lia.
  - rewrite rate_run_snoc. unfold step.
    pose proof (shouldRateLimit_bounded now (fst (run clock)) IH) as H.
    destruct (shouldRateLimit now (fst (run clock))) as [limited this].
    exact H.
Qed.

(** X11. However the calls of [shouldRateLimit] are spread in time, and
    even if the clock jumps, the manager never keeps more than
    [maxEventsPerMinute] time stamps, and every call that is refused
    leaves exactly that many. *)
Theorem rate_limit_window_never_exceeds_limit :
  forall (clock : list Z) (now : Z),
    Z.of_nat (length (eventTimestamps (fst (run clock)))) <= maxEventsPerMinute /\
    (fst (shouldRateLimit now (fst (run clock))) = true ->
     Z.of_nat (length (eventTimestamps (snd (shouldRateLimit now (fst (run clock))))))
     = maxEventsPerMinute).
Proof.
  intros clock now. pose proof (run_stamps_bounded clock) as Hb.
  split; [exact Hb|].
  unfold shouldRateLimit. cbn [eventTimestamps].
  pose proof (filter_length_le (fun ts => ts >? now - 60000)
                (eventTimestamps (fst (run clock)))) as Hf.
  destruct (Z.of_nat (length (filter (fun ts => ts >? now - 60000)
                                     (eventTimestamps (fst (run clock)))))
            >=? maxEventsPerMinute) eqn:E; cbn [fst snd eventTimestamps].
  - intros _. lia.
  - discriminate.
Qed.

Lemma filter_narrow (a b : Z) l :
  a <= b -> filter (fun ts => ts >? b) (filter (fun ts => ts >? a) l) =
            filter (fun ts => ts >? b) l.
Proof.
  intros Hab. induction l as [|c l IH]; [reflexivity|].
  cbn [filter]. destruct (c >? a) eqn:Ea.
  - cbn [filter]. rewrite IH. reflexivity.
  - rewrite IH. destruct (c >? b) eqn:Eb; [lia|reflexivity].
Qed.

Lemma StronglySorted_snoc_inv l : forall t : Z,
  StronglySorted Z.le (l ++ [t]) ->
  StronglySorted Z.le l /\ Forall (fun u => u <= t) l.
Proof.
  induction l as [|a l IH]; intros t H.
  - split; constructor.
  - inversion H as [|a' l' Hs Hall]; subst.
    destruct (IH t Hs) as [Hl Hle].
    apply Forall_app in Hall as [Hall Hat].
    split; constructor; try assumption.
    inversion Hat; subst. assumption.
Qed.

Lemma admitted_snoc log now limited :
  admitted (log ++ [(now, limited)]) =
  admitted log ++ (if limited then [] else [now]).
Proof.
  unfold admitted. rewrite filter_app, map_app. destruct limited; reflexivity.
Qed.

(** With a clock that does not go back, the time stamps kept are the
    admitted calls, as far as any later minute is concerned. *)
Lemma run_keeps_admitted clock :
  StronglySorted Z.le clock ->
  forall now, Forall (fun t => t <= now) clock ->
    filter (fun ts => ts >? now - 60000) (eventTimestamps (fst (run clock))) =
    filter (fun ts => ts >? now - 60000) (admitted (snd (run clock))).
Proof.
  induction clock as [|t clock IH] using rev_ind; intros Hs now Hnow; [reflexivity|].
  apply StronglySorted_snoc_inv in Hs as [Hs Hle].
  apply Forall_app in Hnow as [Hclock Ht]. inversion Ht as [|? ? Htn _]; subst.
  specialize (IH Hs).
  rewrite rate_run_snoc. unfold step, shouldRateLimit. cbn [eventTimestamps].
  destruct (Z.of_nat (length (filter (fun ts => ts >? t - 60000)
                                     (eventTimestamps (fst (run clock)))))
            >=? maxEventsPerMinute); cbn [fst snd eventTimestamps];
    rewrite admitted_snoc.
  - rewrite app_nil_r, filter_narrow by lia. apply IH, Hclock.
  - rewrite !filter_app, filter_narrow by lia. rewrite (IH now Hclock). reflexivity.
Qed.

(** X12. With a clock that does not go back, a call of [shouldRateLimit]
    is refused exactly when [maxEventsPerMinute] of the calls admitted
    before fall in the minute that ends now; and after the call, admitted
    or not, at most [maxEventsPerMinute] admitted calls fall in that
    minute. *)
Theorem rate_limit_counts_last_minute :
  forall (clock : list Z) (now : Z),
    StronglySorted Z.le (clock ++ [now]) ->
    fst (shouldRateLimit now (fst (run clock))) =
    (inLastMinute now (admitted (snd (run clock))) >=? maxEventsPerMinute) /\
    inLastMinute now (admitted (snd (run (clock ++ [now])))) <= maxEventsPerMinute.
Proof.
  intros clock now Hs.
  apply StronglySorted_snoc_inv in Hs as [Hs Hle].
  pose proof (run_keeps_admitted clock Hs now Hle) as Hk.
  pose proof (run_stamps_bounded clock) as Hb.
  pose proof (filter_length_le (fun ts => ts >? now - 60000)
                (eventTimestamps (fst (run clock)))) as Hf.
  rewrite rate_run_snoc. unfold step, shouldRateLimit, inLastMinute. cbn [eventTimestamps].
  rewrite <- Hk.
  destruct (Z.of_nat (length (filter (fun ts => ts >? now - 60000)
                                     (eventTimestamps (fst (run clock)))))
            >=? maxEventsPerMinute) eqn:E; cbn [fst snd]; rewrite admitted_snoc.
  - split; [reflexivity|]. rewrite app_nil_r, <- Hk. lia.
  - split; [reflexivity|].
    rewrite filter_app, length_app, <- Hk. cbn [filter].
    destruct (now >? now - 60000); cbn [length]; lia.
Qed.

Lemma rate_limit_counts_last_minute_witness :
  fst (shouldRateLimit 61000 (fst (run [0; 1000]))) =
  (inLastMinute 61000 (admitted (snd (run [0; 1000]))) >=? maxEventsPerMinute) /\
  inLastMinute 61000 (admitted (snd (run ([0; 1000] ++ [61000])))) <= maxEventsPerMinute.
Proof.
  apply (rate_limit_counts_last_minute [0; 1000] 61000).
  repeat constructor; lia.
Defined.

(** ** Bots *)

Lemma botPatterns_covered :
  forallb (fun pattern =>
             existsb (fun minimal => includes minimal pattern) minimalBotPatterns)
          botPatterns = true.
Proof. vm_compute. reflexivity. Qed.

Lemma minimalBotPatterns_listed :
  forallb (fun minimal =>
             existsb (fun pattern => if list_eq_dec Z.eq_dec pattern minimal
                                     then true else false) botPatterns)
          minimalBotPatterns = true.
Proof. vm_compute. reflexivity. Qed.

(** X13. A user agent is taken for a bot exactly when its lower-cased
    form contains one of [bot], [crawl], [spider], [scrape], [curl],
    [wget], [facebookexternalhit] and [whatsapp]: each of the nine other
    names of [botPatterns] contains one of these. *)
Theorem isProbablyBot_minimal_patterns :
  forall (toLowerCase : jsstring -> jsstring) (userAgent : jsstring),
    isProbablyBot toLowerCase userAgent =
    existsb (fun pattern => includes pattern (toLowerCase userAgent)) minimalBotPatterns.
Proof.
  intros toLowerCase ua. unfold isProbablyBot.
  apply eq_true_iff_eq. rewrite !existsb_exists. split.
  - intros (p & Hp & Hin).
    pose proof (proj1 (forallb_forall _ _) botPatterns_covered p Hp) as Hc.
    apply existsb_exists in Hc as (q & Hq & Hqp).
    exists q. split; [exact Hq|]. eapply StringFacts.includes_trans; eassumption.
  - intros (q & Hq & Hin).
    pose proof (proj1 (forallb_forall _ _) minimalBotPatterns_listed q Hq) as Hc.
    apply existsb_exists in Hc as (p & Hp & Hpq).
    destruct (list_eq_dec Z.eq_dec p q) as [->|]; [|discriminate Hpq].
    exists q. split; assumption.
Qed.

End SessionActivityFacts.

(* ================================================================== *)
(** * Properties: the fallback compression                             *)
(* ================================================================== *)

Module CompressionFacts.
Import Compression CompressionSpec.

Lemma emitRun_length_any count c :
  length (emitRun count (Some c)) = length (emitRun count (Some 0)).
Proof.
  unfold emitRun. destruct (count >? 1); [|reflexivity].
  rewrite !length_app. reflexivity.
Qed.

Lemma emitRun_short_table :
  forallb (fun k => Nat.leb (length (emitRun (Z.of_nat k) (Some 0))) k) (seq 1 255) = true.
Proof. vm_compute. reflexivity. Qed.

(** A run of [count] equal code units is written with at most [count]
    code units. *)
Lemma emitRun_short count c :
  1 <= count <= 255 -> (length (emitRun count (Some c)) <= Z.to_nat count)%nat.
Proof.
  intros H. rewrite emitRun_length_any.
  pose proof (proj1 (forallb_forall _ _) emitRun_short_table (Z.to_nat count)) as Ht.
  cbv beta in Ht. rewrite Z2Nat.id in Ht by lia.
  apply Nat.leb_le, Ht, in_seq. lia.
Qed.

Lemma loop_short data : forall compressed count c,
  1 <= count <= 255 ->
  (length (loop data compressed count (Some c)) <=
   length compressed + Z.to_nat count + length data)%nat.
Proof.
  induction data as [|d data IH]; intros compressed count c Hc; cbn [loop].
  - rewrite length_app. pose proof (emitRun_short count c Hc). cbn [length]. lia.
  - destruct ((d =? c) && (count <? 255)) eqn:E.
    + apply andb_true_iff in E as [_ E]. apply Z.ltb_lt in E.
      specialize (IH compressed (count + 1) c ltac:(lia)). cbn [length]. lia.
    + specialize (IH (compressed ++ emitRun count (Some c)) 1 d ltac:(lia)).
      rewrite length_app in IH. pose proof (emitRun_short count c Hc). cbn [length]. lia.
Qed.

(** X14. The run-length fallback never makes a string longer: for every
    non-empty input the compressed string has at most as many code units
    as the input.  (For the empty string, whose first character is
    [undefined], it is the nine characters of that word.) *)
Theorem simpleCompress_never_longer :
  simpleCompress [] = lit "undefined" /\
  forall data : jsstring,
    data <> [] -> (length (simpleCompress data) <= length data)%nat.
Proof.
  split; [reflexivity|].
  intros [|c data] H; [congruence|].
  unfold simpleCompress. cbn [hd_error tl].
  pose proof (loop_short data [] 1 c ltac:(lia)) as Hl. cbn [length] in *. lia.
Qed.

Lemma loop_noRepeat data : forall compressed c,
  noRepeat (c :: data) = true ->
  loop data compressed 1 (Some c) = compressed ++ c :: data.
Proof.
  induction data as [|d data IH]; intros compressed c H.
  - reflexivity.
  - cbn [noRepeat] in H. apply andb_true_iff in H as [Hcd Hrest].
    apply negb_true_iff, Z.eqb_neq in Hcd.
    cbn [loop]. destruct (Z.eqb_spec d c) as [->|_]; [congruence|].
    cbn [andb]. rewrite (IH _ d Hrest).
    change (emitRun 1 (Some c)) with [c]. rewrite <- app_assoc. reflexivity.
Qed.

(** A non-empty string in which no two neighbours are equal is
    returned as it is: the fallback only ever rewrites runs. *)
Theorem simpleCompress_keeps_strings_without_runs :
  forall data : jsstring,
    data <> [] -> noRepeat data = true -> simpleCompress data = data.
Proof.
  intros [|c data] Hne H; [congruence|].
  unfold simpleCompress. cbn [hd_error tl].
  rewrite (loop_noRepeat data [] c H). reflexivity.
Qed.

Lemma simpleCompress_keeps_strings_without_runs_witness :
  simpleCompress (lit "[{}]") = lit "[{}]".
Proof.
  apply (simpleCompress_keeps_strings_without_runs (lit "[{}]")).
  - discriminate.
  - vm_compute. reflexivity.
Defined.

(** X15. The compressed string does not determine the input: a digit 2
    followed by a character other than 2 is written exactly like that
    character twice, so no decoder can undo [simpleCompress]. *)
Theorem simpleCompress_not_invertible :
  forall c : char,
    c <> 50 ->
    [50; c] <> [c; c] /\ simpleCompress [50; c] = simpleCompress [c; c].
Proof.
  intros c Hc. split; [intros E; injection E as E; congruence|].
  unfold simpleCompress. cbn [hd_error tl loop].
  destruct (Z.eqb_spec c 50) as [E|_]; [congruence|].
  rewrite Z.eqb_refl. reflexivity.
Qed.

Lemma simpleCompress_not_invertible_witness :
  [50; 97] <> [97; 97] /\ simpleCompress [50; 97] = simpleCompress [97; 97].
Proof.
  apply (simpleCompress_not_invertible 97). discriminate.
Defined.

End CompressionFacts.

(* ================================================================== *)
(** * Properties: the batch queue                                      *)
(* ================================================================== *)

Module BatchQueueFacts.
Import EventCollector BatchQueue BatchSpec.

Lemma batch_run_snoc cs c : run (cs ++ [c]) = step (run cs) c.
Proof. unfold run. rewrite fold_left_app. reflexivity. Qed.

Lemma dropTimer_fields w :
  batchQueue (dropTimer w) = batchQueue w /\
  dispatched (dropTimer w) = dispatched w /\
  batchTimer (dropTimer w) = None.
Proof.
  unfold dropTimer. destruct (batchTimer w) eqn:E; cbn; auto.
Qed.

Lemma processBatch_flow w :
  concat (dispatched (processBatch w)) ++ batchQueue (processBatch w) =
  concat (dispatched w) ++ batchQueue w.
Proof.
  unfold processBatch. destruct (batchQueue w) as [|e q] eqn:Eq.
  - rewrite Eq. reflexivity.
  - cbn [batchQueue dispatched].
    match goal with
    | |- context [dropTimer ?v] => destruct (dropTimer_fields v) as (Hq & Hd & _)
    end.
    rewrite Hq, Hd. cbn [batchQueue dispatched].
    rewrite concat_app. cbn [concat]. rewrite !app_nil_r. reflexivity.
Qed.

Lemma step_flow w c :
  concat (dispatched (step w c)) ++ batchQueue (step w c) =
  (concat (dispatched w) ++ batchQueue w) ++ submitted [c].
Proof.
  destruct c as [events|handle|]; cbn [step submitted flat_map app]; rewrite ?app_nil_r.
  - unfold send. destruct events as [|e events]; [rewrite ?app_nil_r; reflexivity|].
    cbn [batchQueue batchTimer timers nextHandle dispatched].
    destruct (Z.of_nat (length (batchQueue w ++ e :: events)) >=? batchSize).
    + rewrite processBatch_flow. cbn [batchQueue dispatched].
      rewrite app_assoc. reflexivity.
    + destruct (batchTimer w); cbn [batchQueue dispatched]; rewrite app_assoc; reflexivity.
  - unfold fire.
    destruct (existsb _ (timers w)); [|reflexivity].
    rewrite processBatch_flow. reflexivity.
  - unfold disconnect.
    destruct (dropTimer_fields w) as (Hq & Hd & _). rewrite Hq, Hd. reflexivity.
Qed.

Lemma submitted_app a b : submitted (a ++ b) = submitted a ++ submitted b.
Proof. unfold submitted. apply flat_map_app. Qed.

(** X16. Batching loses nothing, repeats nothing and keeps the order:
    after any sequence of sends, timer callbacks and disconnections, the
    batches handed to [sendBatch], put end to end and followed by the
    events still queued, are the events handed to [send]. *)
Theorem batching_conserves_events :
  forall cs : list call,
    concat (dispatched (run cs)) ++ batchQueue (run cs) = submitted cs.
Proof.
  induction cs as [|c cs IH] using rev_ind; [reflexivity|].
  rewrite batch_run_snoc, step_flow, IH, submitted_app. reflexivity.
Qed.

Lemma steady_timers w :
  steady w ->
  timers w = [] \/ exists h d, timers w = [(h, d)] /\ batchTimer w = Some h.
Proof.
  intros (Hh & _). unfold handles in Hh.
  destruct (timers w) as [|[h d] [|x l]] eqn:E.
  - left. reflexivity.
  - right. exists h, d. split; [reflexivity|].
    destruct (batchTimer w); [injection Hh as ->; reflexivity|discriminate Hh].
  - destruct (batchTimer w); discriminate Hh.
Qed.

(** With at most the timer that [batchTimer] names set, dropping the
    timer leaves none. *)
Lemma dropTimer_clears w :
  timers w = [] \/ (exists h d, timers w = [(h, d)] /\ batchTimer w = Some h) ->
  dropTimer w = mk (batchQueue w) None [] (nextHandle w) (dispatched w).
Proof.
  unfold dropTimer, clearTimeout. destruct w as [q bt ts nh ds].
  cbn [batchQueue batchTimer timers nextHandle dispatched].
  intros [->|(h & d & -> & ->)].
  - destruct bt; reflexivity.
  - cbn [filter fst]. rewrite Pos.eqb_refl. reflexivity.
Qed.

Lemma processBatch_sends w x l :
  batchQueue w = x :: l ->
  timers w = [] \/ (exists h d, timers w = [(h, d)] /\ batchTimer w = Some h) ->
  processBatch w = mk [] None [] (nextHandle w) (dispatched w ++ [x :: l]).
Proof.
  intros Hq Ht. unfold processBatch. rewrite Hq.
  rewrite dropTimer_clears by exact Ht. reflexivity.
Qed.

Lemma steady_sent nh ds batch :
  Forall (fun batch : list EventData => batch <> []) ds -> batch <> [] ->
  steady (mk [] None [] nh (ds ++ [batch])).
Proof.
  intros Hd Hb. unfold steady, handles, batchSize. cbn.
  repeat split; [congruence|].
  apply Forall_app. split; [exact Hd|]. constructor; [exact Hb|constructor].
Qed.

Lemma steady_step w c : steady w -> steady (step w c).
Proof.
  intros Hw. pose proof (steady_timers w Hw) as Ht.
  destruct Hw as (Hh & Hq & Hlen & Hd). unfold handles in Hh.
  destruct c as [events|handle|]; cbn [step].
  - unfold send. destruct events as [|e events]; [repeat split; assumption|].
    cbn [batchQueue batchTimer timers nextHandle dispatched].
    destruct (Z.geb_spec (Z.of_nat (length (batchQueue w ++ e :: events))) batchSize)
      as [E|E].
    + destruct (batchQueue w ++ e :: events) as [|x l] eqn:Eq;
        [destruct (batchQueue w); discriminate Eq|].
      rewrite (processBatch_sends _ x l) by (cbn; first [reflexivity|exact Ht]).
      apply steady_sent; [exact Hd|discriminate].
    + assert (Hne : batchQueue w ++ e :: events <> [])
        by (destruct (batchQueue w); discriminate).
      destruct (batchTimer w) as [h|] eqn:Eb; unfold steady, handles;
        cbn [batchQueue batchTimer timers nextHandle dispatched].
      * repeat split; try assumption. intros _. exact Hne.
      * destruct Ht as [Et|(h & d & _ & Hbt)]; [|discriminate Hbt].
        rewrite Et. repeat split; try assumption. intros _. exact Hne.
  - unfold fire.
    destruct (existsb (fun timer => (fst timer =? handle)%positive) (timers w)) eqn:E;
      [|repeat split; assumption].
    destruct Ht as [Et|(h & d & Et & Eb)]; [rewrite Et in E; discriminate E|].
    destruct (batchQueue w) as [|x l] eqn:Eq;
      [exfalso; apply Hq; [rewrite Eb; discriminate|reflexivity]|].
    rewrite (processBatch_sends _ x l).
    + apply steady_sent; [exact Hd|discriminate].
    + exact Eq.
    + unfold clearTimeout. cbn [timers batchTimer]. rewrite Et. cbn [filter fst].
      destruct (negb (h =? handle)%positive); [right; exists h, d; split; [reflexivity|exact Eb]|
                                               left; reflexivity].
  - unfold disconnect. rewrite dropTimer_clears by exact Ht.
    unfold steady, handles. cbn. repeat split; try assumption; congruence.
Qed.

Lemma steady_run cs : steady (run cs).
Proof.
  induction cs as [|c cs IH] using rev_ind.
  - unfold steady, handles, batchSize. cbn. repeat split; try congruence; try lia. constructor.
  - rewrite batch_run_snoc. apply steady_step, IH.
Qed.

(** X17. At every moment at most one batch timer is set, and it is the one
    that [batchTimer] names; a timer is only ever set while events are
    queued; fewer than [batchSize] events are queued; and no empty batch
    is handed to [sendBatch]. *)
Theorem batch_timer_and_queue_invariant :
  forall cs : list call,
    let w := run cs in
    handles w = match batchTimer w with Some h => [h] | None => [] end /\
    (batchTimer w <> None -> batchQueue w <> []) /\
    Z.of_nat (length (batchQueue w)) < batchSize /\
    Forall (fun batch => batch <> []) (dispatched w).
Proof.
  intros cs. cbv zeta. change (steady (run cs)).
  induction cs as [|c cs IH] using rev_ind.
  - unfold steady, handles, batchSize. cbn. repeat split; try congruence. constructor.
  - rewrite batch_run_snoc. apply steady_step, IH.
Qed.

Lemma armed_step w c :
  isDisconnect c = false -> steady w ->
  (batchQueue w <> [] -> batchTimer w <> None) ->
  (batchQueue (step w c) <> [] -> batchTimer (step w c) <> None).
Proof.
  intros Hc Hw Ha. pose proof (steady_timers w Hw) as Ht.
  destruct Hw as (Hh & Hq & Hlen & Hd).
  destruct c as [events|handle|]; [| |discriminate Hc]; cbn [step].
  - unfold send. destruct events as [|e events]; [exact Ha|].
    cbn [batchQueue batchTimer timers nextHandle dispatched].
    destruct (Z.of_nat (length (batchQueue w ++ e :: events)) >=? batchSize).
    + destruct (batchQueue w ++ e :: events) as [|x l] eqn:Eq;
        [destruct (batchQueue w); discriminate Eq|].
      rewrite (processBatch_sends _ x l) by (cbn; first [reflexivity|exact Ht]).
      cbn [batchQueue]. congruence.
    + destruct (batchTimer w); cbn [batchTimer]; discriminate.
  - unfold fire.
    destruct (existsb (fun timer => (fst timer =? handle)%positive) (timers w)) eqn:E;
      [|exact Ha].
    destruct Ht as [Et|(h & d & Et & Eb)]; [rewrite Et in E; discriminate E|].
    destruct (batchQueue w) as [|x l] eqn:Eq;
      [exfalso; apply Hq; [rewrite Eb; discriminate|reflexivity]|].
    rewrite (processBatch_sends _ x l).
    + cbn [batchQueue]. congruence.
    + exact Eq.
    + unfold clearTimeout. cbn [timers batchTimer]. rewrite Et. cbn [filter fst].
      destruct (negb (h =? handle)%positive); [right; exists h, d; split; [reflexivity|exact Eb]|
                                               left; reflexivity].
Qed.

(** X18. As long as the transport is not disconnected, queued events are
    never left without a timer: whenever the queue is not empty, the
    timer that will flush it is set. *)
Theorem queued_events_have_a_timer :
  forall cs : list call,
    forallb (fun c => negb (isDisconnect c)) cs = true ->
    batchQueue (run cs) <> [] ->
    exists h, batchTimer (run cs) = Some h /\ handles (run cs) = [h].
Proof.
  intros cs Hcs Hq.
  assert (Ha : batchQueue (run cs) <> [] -> batchTimer (run cs) <> None).
  { clear Hq. induction cs as [|c cs IH] using rev_ind;
      [intros H; exfalso; apply H; reflexivity|].
    rewrite forallb_app in Hcs. apply andb_true_iff in Hcs as [Hcs Hc].
    cbn [forallb] in Hc. rewrite andb_true_r in Hc. apply negb_true_iff in Hc.
    rewrite batch_run_snoc. apply armed_step; [exact Hc|apply steady_run|apply IH, Hcs]. }
  specialize (Ha Hq). destruct (steady_run cs) as (Hh & _).
  destruct (batchTimer (run cs)) as [h|]; [|congruence].
  exists h. split; [reflexivity|exact Hh].
Qed.

Lemma queued_events_have_a_timer_witness :
  exists h, batchTimer (run [Send [Samples.sampleEvent 1]]) = Some h /\
            handles (run [Send [Samples.sampleEvent 1]]) = [h].
Proof.
  apply (queued_events_have_a_timer [Send [Samples.sampleEvent 1]]).
  - reflexivity.
  - discriminate.
Defined.

(** X19. A disconnection clears the batch timer and leaves the queue as
    it is.  Events handed to [send] just before [disconnect] (fewer than
    would fill a batch) are therefore handed to no [sendBatch], and no
    timer is left that would do it: they stay queued until a later [send]. *)
Theorem disconnect_strands_queued_events :
  forall (cs : list call) (events : list EventData),
    events <> [] ->
    Z.of_nat (length (batchQueue (run cs)) + length events) < batchSize ->
    let w := run (cs ++ [Send events; Disconnect]) in
    batchQueue w = batchQueue (run cs) ++ events /\
    dispatched w = dispatched (run cs) /\
    batchTimer w = None /\ timers w = [] /\
    forall handle, fire handle w = w.
Proof.
  intros cs events Hne Hlen w.
  assert (Hw : steady w) by apply steady_run.
  assert (E : batchQueue w = batchQueue (run cs) ++ events /\
              dispatched w = dispatched (run cs) /\ batchTimer w = None).
  { subst w. replace (cs ++ [Send events; Disconnect])
      with ((cs ++ [Send events]) ++ [Disconnect]) by (rewrite <- app_assoc; reflexivity).
    rewrite !batch_run_snoc. cbn [step]. unfold disconnect.
    match goal with
    | |- context [dropTimer ?v] => destruct (dropTimer_fields v) as (Hq & Hd & Hb)
    end.
    rewrite Hq, Hd, Hb. unfold send.
    destruct events as [|e events]; [congruence|].
    cbn [batchQueue batchTimer timers nextHandle dispatched].
    destruct (Z.geb_spec (Z.of_nat (length (batchQueue (run cs) ++ e :: events))) batchSize)
      as [Hge|_]; [rewrite length_app in Hge; lia|].
    destruct (batchTimer (run cs)); cbn [batchQueue dispatched]; repeat split. }
  destruct E as (Eq & Ed & Eb).
  assert (Et : timers w = []).
  { destruct Hw as (Hh & _). unfold handles in Hh. rewrite Eb in Hh.
    destruct (timers w); [reflexivity|discriminate Hh]. }
  repeat split; try assumption.
  intros handle. unfold fire. rewrite Et. reflexivity.
Qed.

Lemma disconnect_strands_queued_events_witness :
  let w := run ([] ++ [Send [Samples.sampleEvent 1]; Disconnect]) in
  batchQueue w = batchQueue (run []) ++ [Samples.sampleEvent 1] /\
  dispatched w = dispatched (run []) /\
  batchTimer w = None /\ timers w = [] /\
  forall handle, fire handle w = w.
Proof.
  apply (disconnect_strands_queued_events [] [Samples.sampleEvent 1]).
  - discriminate.
  - vm_compute. reflexivity.
Defined.

End BatchQueueFacts.

(* ================================================================== *)
(** * Properties: reconnection                                         *)
(* ================================================================== *)

Module ReconnectFacts.
Import Reconnect ReconnectSpec.

Lemma delays_snoc tr a :
  delays (tr ++ [a]) = delays tr ++ match a with SetTimeout d => [d] | _ => [] end.
Proof.
  induction tr as [|x tr IH]; [destruct a; reflexivity|].
  destruct x; cbn [app delays]; rewrite IH; reflexivity.
Qed.

Lemma withinLimits_step w e : withinLimits w -> withinLimits (step w e).
Proof.
  intros [Ha Hd]. unfold withinLimits, maxReconnectAttempts in *.
  destruct e as [|code| | |]; cbn [step].
  - unfold handleWebSocketOpen, emit. cbn [reconnectAttempts trace isConnected].
    rewrite delays_snoc, app_nil_r. split; [lia|exact Hd].
  - unfold handleWebSocketClose, emit, scheduleReconnect, maxReconnectAttempts.
    cbn [reconnectAttempts trace isConnected].
    destruct (negb (code =? 1000) && (reconnectAttempts w <? 5)) eqn:E;
      cbn [reconnectAttempts trace isConnected].
    + apply andb_true_iff in E as [_ E]. apply Z.ltb_lt in E.
      rewrite !delays_snoc, app_nil_r. split; [lia|].
      apply Forall_app. split; [exact Hd|]. constructor; [|constructor].
      exists (reconnectAttempts w + 1). split; [lia|].
      assert (Hk : reconnectAttempts w = 0 \/ reconnectAttempts w = 1 \/
                   reconnectAttempts w = 2 \/ reconnectAttempts w = 3 \/
                   reconnectAttempts w = 4) by lia.
      destruct Hk as [-> | [-> | [-> | [-> | ->]]]]; vm_compute; split;
        try reflexivity; discriminate.
    + rewrite delays_snoc, app_nil_r. split; [lia|exact Hd].
  - unfold handleWebSocketError, emit. cbn [reconnectAttempts trace isConnected].
    rewrite !delays_snoc, !app_nil_r. split; [lia|exact Hd].
  - unfold disconnect. cbn [reconnectAttempts trace]. split; [lia|exact Hd].
  - unfold connectFailed, fallbackToHttp. cbn [reconnectAttempts trace isConnected].
    rewrite delays_snoc, app_nil_r. split; [lia|exact Hd].
Qed.

(** X20. Whatever the socket does, the transport never counts more than
    [maxReconnectAttempts] reconnections in a row, and every reconnection
    timer it sets waits 1000, 2000, 4000, 8000 or 16000 ms: the cap of
    30000 ms in [scheduleReconnect] is never reached. *)
Theorem reconnect_attempts_and_delays_bounded :
  forall es : list event,
    0 <= reconnectAttempts (run es) <= maxReconnectAttempts /\
    Forall (fun d => exists k, 1 <= k <= maxReconnectAttempts /\
                               d = reconnectDelay * 2 ^ (k - 1) /\ d <= 16000)
           (delays (trace (run es))).
Proof.
  intros es. unfold run.
  assert (H : withinLimits init) by (split; [unfold maxReconnectAttempts; cbn; lia|constructor]).
  revert H. generalize init.
  induction es as [|e es IH]; intros w Hw; [exact Hw|].
  rewrite HashFacts.fold_left_step. apply IH, withinLimits_step, Hw.
Qed.

End ReconnectFacts.

(* ================================================================== *)
(** * Properties: a batch that goes through after some failures        *)
(* ================================================================== *)

Module TransportRecoveryFacts.
Import EventTransport TransportSpec TransportSamples.

Section WithNetwork.

Variable network : nat -> option error.

(** After a retryable failure, with [n] more failures to come and then a
    success, and enough retries left, the [n + 1] retries are made and the
    batch is reported as sent. *)
Lemma retries_until_sent :
  forall n fuel k q e w,
    isRetryableError e = true ->
    retryCount q = Z.of_nat k ->
    Z.of_nat (k + n) < maxRetries w ->
    (forall i, (i < n)%nat ->
               exists e', network (attempts w + i) = Some e' /\ isRetryableError e' = true) ->
    network (attempts w + n) = None ->
    (n < fuel)%nat ->
    handleSendError network fuel q e w =
    Some (mk (maxRetries w) 0 (attempts w + S n)
             (trace w ++ retryRounds (S k) (S n) ++ [Emit "success" None])).
Proof.
  induction n as [|n IH]; intros fuel k q e w He Hq Hm Hfail Hok Hfuel.
  - destruct fuel as [|fuel]; [lia|].
    rewrite TransportFacts.handleSendError_unfold, He.
    destruct (Z.ltb_spec (retryCount q) (maxRetries w)) as [_|Hge]; [|lia].
    cbn [andb]. rewrite Nat.add_0_r in Hok.
    rewrite (TransportFacts.retryWithBackoff_sent _ _ _ _ Hok).
    f_equal. f_equal; [lia|].
    unfold retryRounds. cbn [seq flat_map app]. rewrite Hq.
    replace (Z.of_nat k + 1) with (Z.of_nat (S k)) by lia. reflexivity.
  - destruct fuel as [|fuel]; [lia|].
    rewrite TransportFacts.handleSendError_unfold, He.
    destruct (Z.ltb_spec (retryCount q) (maxRetries w)) as [_|Hge]; [|lia].
    cbn [andb].
    destruct (Hfail 0%nat ltac:(lia)) as (e1 & Hn1 & He1).
    rewrite Nat.add_0_r in Hn1.
    rewrite (TransportFacts.retryWithBackoff_failed _ _ _ _ _ Hn1).
    rewrite (IH fuel (S k)); cbn [retryCount maxRetries attempts trace transportRetryCount].
    + f_equal. f_equal; [lia|].
      rewrite <- app_assoc. f_equal.
      unfold retryRounds. cbn [seq flat_map]. rewrite Hq.
      replace (Z.of_nat k + 1) with (Z.of_nat (S k)) by lia.
      rewrite <- !app_assoc. reflexivity.
    + exact He1.
    + lia.
    + lia.
    + intros i Hi. destruct (Hfail (S i) ltac:(lia)) as (e' & Hn & He').
      exists e'. split; [|exact He'].
      replace (S (attempts w) + i)%nat with (attempts w + S i)%nat by lia. exact Hn.
    + replace (S (attempts w) + n)%nat with (attempts w + S n)%nat by lia. exact Hok.
    + lia.
Qed.

(** X21. When the first [k] sends of a batch fail with retryable errors,
    the next one succeeds and [k] does not exceed [maxRetries], [sendBatch]
    terminates with exactly [k + 1] attempts: the [k] retries wait
    [min(1000 * 2^(j-1), 30000)] ms each, then ['success'] is emitted,
    the retry counter of the transport is back at 0, and neither an
    ['error'] is emitted nor anything written to the console. *)
Theorem retry_recovers_after_failures :
  forall (limit : Z) (fuel k : nat),
    (forall i, (i < k)%nat ->
               exists e, network i = Some e /\ isRetryableError e = true) ->
    network k = None ->
    Z.of_nat k <= limit ->
    (k <= fuel)%nat ->
    exists w,
      sendBatch network fuel (init limit) = Some w /\
      trace w = AttemptSend :: retryRounds 1 k ++ [Emit "success" None] /\
      attempts w = S k /\
      transportRetryCount w = 0 /\
      delays (trace w) = map (fun j => backoff (Z.of_nat j)) (seq 1 k) /\
      filter (isEmit "error") (trace w) = [].
Proof.
  intros limit fuel k Hfail Hok Hk Hfuel.
  unfold sendBatch, _attemptSend, init.
  cbn [maxRetries transportRetryCount attempts trace app].
  destruct k as [|k].
  - rewrite Hok. eexists. split; [reflexivity|].
    unfold record, setRetryCount. cbn. repeat split; reflexivity.
  - destruct (Hfail 0%nat ltac:(lia)) as (e0 & Hn0 & He0). rewrite Hn0.
    rewrite (retries_until_sent k fuel 0 (mkQueued 0) e0 (mk limit 0 1 [AttemptSend]) He0);
      cbn [retryCount maxRetries attempts trace transportRetryCount].
    + eexists. split; [reflexivity|]. cbn [trace attempts transportRetryCount app].
      split; [reflexivity|]. split; [reflexivity|]. split; [reflexivity|]. split.
      * cbn [delays]. rewrite TransportFacts.delays_app, TransportFacts.delays_retryRounds.
        cbn [delays]. rewrite app_nil_r. reflexivity.
      * cbn [filter isEmit]. rewrite filter_app, TransportFacts.filter_retryRounds_emit.
        reflexivity.
    + reflexivity.
    + lia.
    + intros i Hi. apply (Hfail (S i)). lia.
    + exact Hok.
    + lia.
Qed.

End WithNetwork.

Lemma retry_recovers_after_failures_witness :
  exists w,
    sendBatch RecoverySamples.flaky 2 (init 3) = Some w /\
    trace w = AttemptSend :: retryRounds 1 2 ++ [Emit "success" None] /\
    attempts w = 3%nat /\
    transportRetryCount w = 0 /\
    delays (trace w) = map (fun j => backoff (Z.of_nat j)) (seq 1 2) /\
    filter (isEmit "error") (trace w) = [].
Proof.
  apply (retry_recovers_after_failures RecoverySamples.flaky 3 2 2).
  - intros i Hi. exists (errorOf serverError).
    destruct i as [|[|i]]; [split; vm_compute; reflexivity..|lia].
  - reflexivity.
  - lia.
  - lia.
Defined.

End TransportRecoveryFacts.

(* ================================================================== *)
(** * Properties: clicks, mouse moves and scrolling                    *)
(* ================================================================== *)

Module EventCollectionFacts.
Import PrivacyEngine PrivacyEvents EventCollection EventSpec NumberFacts.

Lemma filter_implied {A : Type} (p q : A -> bool) l :
  (forall a, p a = true -> q a = true) ->
  filter p (filter q l) = filter p l.
Proof.
  intros H. induction l as [|a l IH]; [reflexivity|].
  cbn [filter]. destruct (q a) eqn:Eq.
  - cbn [filter]. rewrite IH. reflexivity.
  - rewrite IH. destruct (p a) eqn:Ep; [|reflexivity].
    rewrite (H a Ep) in Eq. discriminate Eq.
Qed.

Lemma clicks_snoc cs c this :
  clicks (cs ++ [c]) this = clickStep (clicks cs this) c.
Proof. unfold clicks. rewrite fold_left_app. reflexivity. Qed.

Lemma collectClickEvent_buffer env event this :
  buffer (snd (collectClickEvent env event this)) = buffer this.
Proof.
  unfold collectClickEvent. destruct (target event); [|reflexivity].
  destruct (negb (shouldCollectEvent this env "click")); reflexivity.
Qed.

Lemma clicks_buffer cs this : buffer (fst (clicks cs this)) = buffer this.
Proof.
  induction cs as [|c cs IH] using rev_ind; [reflexivity|].
  rewrite clicks_snoc. unfold clickStep.
  pose proof (collectClickEvent_buffer (fst c) (snd c) (fst (clicks cs this))) as Hb.
  destruct (collectClickEvent (fst c) (snd c) (fst (clicks cs this))) as [r this'].
  cbn [fst snd] in *. rewrite Hb. exact IH.
Qed.

Lemma accepted_buffer this this' c :
  buffer this' = buffer this -> accepted this' c = accepted this c.
Proof.
  intros H. unfold accepted, shouldCollectEvent. rewrite H. reflexivity.
Qed.

Lemma recorded_snoc cs c this :
  recorded (cs ++ [c]) this =
  recorded cs this ++ (if accepted this c then [clickOf c] else []).
Proof.
  unfold recorded. rewrite filter_app, map_app. cbn [filter].
  destruct (accepted this c); reflexivity.
Qed.

(** What a call of [collectClickEvent] does to the history. *)
Lemma collectClickEvent_history c this :
  clickHistory (snd (collectClickEvent (fst c) (snd c) this)) =
  if accepted this c
  then filter (fun click => now (fst c) - timestamp click <? 2000)
              (clickHistory this ++ [clickOf c])
  else clickHistory this.
Proof.
  unfold collectClickEvent, accepted. destruct (target (snd c)); [|reflexivity].
  destruct (shouldCollectEvent this (fst c) "click"); reflexivity.
Qed.

(** With a clock that does not go back, the history holds the recorded
    clicks, as far as any later two seconds are concerned. *)
Lemma history_keeps_recorded cs this :
  clickHistory this = [] ->
  StronglySorted Z.le (map (fun c => now (fst c)) cs) ->
  forall t, Forall (fun c => now (fst c) <= t) cs ->
    filter (fun click => t - timestamp click <? 2000) (clickHistory (fst (clicks cs this))) =
    filter (fun click => t - timestamp click <? 2000) (recorded cs this).
Proof.
  intros H0. induction cs as [|c cs IH] using rev_ind; intros Hs t Ht.
  - cbn. rewrite H0. reflexivity.
  - rewrite map_app in Hs. cbn [map] in Hs.
    apply SessionActivityFacts.StronglySorted_snoc_inv in Hs as [Hs Hle].
    apply Forall_app in Ht as [Hcs Hc]. inversion Hc as [|? ? Hct _]; subst.
    assert (Hcs' : Forall (fun c' => now (fst c') <= now (fst c)) cs).
    { apply Forall_forall. intros c' Hin.
      rewrite Forall_forall in Hle. apply Hle, in_map_iff. exists c'. split; [reflexivity|exact Hin]. }
    rewrite clicks_snoc. unfold clickStep.
    pose proof (collectClickEvent_history c (fst (clicks cs this))) as Hh.
    destruct (collectClickEvent (fst c) (snd c) (fst (clicks cs this))) as [r this'].
    cbn [fst snd] in *. rewrite Hh, recorded_snoc.
    rewrite (accepted_buffer this _ c (clicks_buffer cs this)).
    destruct (accepted this c).
    + rewrite filter_implied by (intros a Ha; lia).
      rewrite !filter_app, (IH Hs t Hcs). reflexivity.
    + rewrite app_nil_r. apply IH; assumption.
Qed.

Lemma near_recent clickData click :
  near clickData click = true -> (timestamp clickData - timestamp click <? 2000) = true.
Proof.
  unfold near. intros H. apply andb_true_iff in H as [H _].
  apply andb_true_iff in H as [H _]. lia.
Qed.

Lemma sanitizeClickEvent_isRageClick ev el :
  isRageClick (sanitizeClickEvent ev el) = isRageClick ev.
Proof. unfold sanitizeClickEvent. destruct (clickTarget ev); reflexivity. Qed.

(** X22. With a clock that does not go back, a click is reported as a
    rage click exactly when, counting itself, at least three of all the
    clicks recorded so far lie within one second and 50 pixels of it:
    pruning the history to two seconds loses none of them. *)
Theorem rage_click_counts_recorded_clicks :
  forall (cs : list (environment * MouseEvent)) (c : environment * MouseEvent)
         (this : t) (ev : ClickEvent),
    clickHistory this = [] ->
    StronglySorted Z.le (map (fun c => now (fst c)) (cs ++ [c])) ->
    fst (collectClickEvent (fst c) (snd c) (fst (clicks cs this))) = Some ev ->
    isRageClick ev =
    (3 <=? length (filter (near (clickOf c)) (recorded (cs ++ [c]) this)))%nat.
Proof.
  intros cs c this ev H0 Hs Hev.
  rewrite map_app in Hs. cbn [map] in Hs.
  apply SessionActivityFacts.StronglySorted_snoc_inv in Hs as [Hs Hle].
  assert (Hcs : Forall (fun c' => now (fst c') <= now (fst c)) cs).
  { apply Forall_forall. intros c' Hin.
    rewrite Forall_forall in Hle. apply Hle, in_map_iff. exists c'. split; [reflexivity|exact Hin]. }
  pose proof (history_keeps_recorded cs this H0 Hs (now (fst c)) Hcs) as Hk.
  rewrite recorded_snoc.
  rewrite <- (accepted_buffer this _ c (clicks_buffer cs this)).
  unfold collectClickEvent, accepted in *.
  destruct (target (snd c)) as [el|]; [|discriminate Hev].
  destruct (shouldCollectEvent (fst (clicks cs this)) (fst c) "click");
    [|discriminate Hev].
  cbn [negb clickHistory fst] in Hev. injection Hev as <-.
  rewrite sanitizeClickEvent_isRageClick. cbn [isRageClick].
  unfold detectRageClick.
  change (fun click : click =>
            (timestamp (mkClick (clientX (snd c)) (clientY (snd c)) (now (fst c))) -
             timestamp click <? 1000) &&
            Qltb (Qabs (x click - x (mkClick (clientX (snd c)) (clientY (snd c)) (now (fst c))))) 50 &&
            Qltb (Qabs (y click - y (mkClick (clientX (snd c)) (clientY (snd c)) (now (fst c))))) 50)
    with (near (clickOf c)).
  rewrite filter_implied by (intros a Ha; apply near_recent in Ha; exact Ha).
  change (mkClick (clientX (snd c)) (clientY (snd c)) (now (fst c))) with (clickOf c).
  rewrite !filter_app.
  rewrite <- (filter_implied (near (clickOf c))
                (fun click => now (fst c) - timestamp click <? 2000)
                (clickHistory (fst (clicks cs this))))
    by (intros a Ha; apply near_recent in Ha; exact Ha).
  rewrite Hk.
  rewrite filter_implied by (intros a Ha; apply near_recent in Ha; exact Ha).
  reflexivity.
Qed.

Lemma rage_click_counts_recorded_clicks_witness :
  isRageClick thirdClick =
  (3 <=? length (filter (near (clickOf (clickAt 200)))
                        (recorded ([clickAt 0; clickAt 100] ++ [clickAt 200])
                                  (init 50 1 true))))%nat.
Proof.
  apply (rage_click_counts_recorded_clicks [clickAt 0; clickAt 100] (clickAt 200)
           (init 50 1 true) thirdClick).
  - reflexivity.
  - repeat constructor; cbn; lia.
  - vm_compute. reflexivity.
Defined.

(** ** The target of a click *)

Lemma deleteProperty_absent o key :
  ~ In key (map fst o) -> deleteProperty o key = o.
Proof.
  unfold deleteProperty. induction o as [|[k v] o IH]; intros H; [reflexivity|].
  cbn [filter fst]. cbn [map fst In] in H.
  destruct (list_eq_dec Z.eq_dec k key) as [E|_]; [exfalso; apply H; left; exact E|].
  rewrite IH; [reflexivity|]. intros Hin. apply H. right. exact Hin.
Qed.

(** When no property of the target bears a sensitive attribute name,
    [removeSensitiveAttributes] has nothing to remove. *)
Lemma removeSensitiveAttributes_nothing o el :
  forallb (fun k => negb (isSensitiveAttribute k)) (map fst o) = true ->
  removeSensitiveAttributes o el = o.
Proof.
  intros H. unfold removeSensitiveAttributes.
  destruct (attributes el) as [names|]; [|reflexivity].
  induction names as [|a names IH]; [reflexivity|].
  cbn [fold_left]. destruct (isSensitiveAttribute a) eqn:Ea; [|exact IH].
  rewrite deleteProperty_absent; [exact IH|].
  intros Hin. apply (proj1 (forallb_forall _ _) H) in Hin.
  rewrite Ea in Hin. discriminate Hin.
Qed.

Lemma substring_prefix (s : jsstring) n :
  length (Regex.substring s 0 n) = Nat.min (length s) n.
Proof.
  unfold Regex.substring. rewrite Nat.sub_0_r. cbn [skipn].
  rewrite length_firstn. apply Nat.min_comm.
Qed.

(** X23. The target of a collected click keeps its tag name, class, id
    and the six listed attributes as [extractElementInfo] read them, and
    its text leaves as block characters, one for each of the first hundred
    code units.  None of the five properties of the target bears a name
    that [isSensitiveAttribute] accepts, so [removeSensitiveAttributes]
    removes nothing, whatever attributes the element has. *)
Theorem click_target_text_blocked_rest_kept :
  forall (env : environment) (event : MouseEvent) (this : t) (el : element),
    target event = Some el ->
    shouldCollectEvent this env "click" = true ->
    exists ev,
      fst (collectClickEvent env event this) = Some ev /\
      clickTarget ev =
      Some [(lit "tagName", JString (elTagName el));
            (lit "className", JString (elClassName el));
            (lit "id", JString (elId el));
            (lit "textContent", blockedText el);
            (lit "attributes", JObject (extractRelevantAttributes el))] /\
      clickX ev = clientX event /\ clickY ev = clientY event.
Proof.
  intros env event this el Ht Hs.
  unfold collectClickEvent. rewrite Ht, Hs. cbn [negb fst].
  eexists. split; [reflexivity|].
  unfold sanitizeClickEvent, extractElementInfo.
  cbn [clickTarget clickX clickY].
  rewrite removeSensitiveAttributes_nothing by (vm_compute; reflexivity).
  split; [|split; reflexivity].
  unfold blockedText.
  destruct (elTextContent el) as [[|c text]|].
  - reflexivity.
  - change (InsightLiteSDK.getProp _ "textContent")
      with (JString (Regex.substring (c :: text) 0 100)).
    assert (Hlen : length (Regex.substring (c :: text) 0 100) =
                   Nat.min (length (c :: text)) 100) by apply substring_prefix.
    destruct (Regex.substring (c :: text) 0 100) as [|d rest] eqn:Es.
    + cbn [length] in Hlen. lia.
    + cbn [InsightLiteSDK.truthy anonymizeText]. unfold PrivacyText.anonymizeText.
      rewrite Hlen. reflexivity.
  - reflexivity.
Qed.

Lemma click_target_text_blocked_rest_kept_witness :
  exists ev,
    fst (collectClickEvent (fst (clickAt 0)) (snd (clickAt 0)) (init 50 1 true)) = Some ev /\
    clickTarget ev =
    Some [(lit "tagName", JString (elTagName someButton));
          (lit "className", JString (elClassName someButton));
          (lit "id", JString (elId someButton));
          (lit "textContent", blockedText someButton);
          (lit "attributes", JObject (extractRelevantAttributes someButton))] /\
    clickX ev = clientX (snd (clickAt 0)) /\ clickY ev = clientY (snd (clickAt 0)).
Proof.
  apply (click_target_text_blocked_rest_kept (fst (clickAt 0)) (snd (clickAt 0))
           (init 50 1 true) someButton).
  - reflexivity.
  - vm_compute. reflexivity.
Defined.

(** ** Throttled handlers *)

Lemma collectMouseMoveEventInternal_buffer env event this :
  buffer (snd (collectMouseMoveEventInternal env event this)) = buffer this.
Proof.
  unfold collectMouseMoveEventInternal.
  destruct (now env - lastMouseMoveTime this <? 100); [reflexivity|].
  cbn [mouseMoveCounter]. destruct (negb _); reflexivity.
Qed.

Lemma collectScrollEventInternal_buffer env this :
  buffer (snd (collectScrollEventInternal env this)) = buffer this.
Proof.
  unfold collectScrollEventInternal.
  destruct (now env - lastScrollTime this <? 150); reflexivity.
Qed.

Lemma mouse_move_outcome env event this :
  (fst (collectMouseMoveEvent env event this) = Null \/
   fst (collectMouseMoveEvent env event this) = Undefined) /\
  buffer (snd (collectMouseMoveEvent env event this)) = buffer this.
Proof.
  unfold collectMouseMoveEvent, callThrottledMouseMove.
  destruct (negb (enableHeatmaps this) || negb (shouldCollectEvent this env "mousemove"));
    [split; [left|]; reflexivity|].
  destruct (negb (inThrottle (throttledMouseMoveHandler this)));
    [|split; [right|]; reflexivity].
  pose proof (collectMouseMoveEventInternal_buffer env event this) as Hb.
  destruct (collectMouseMoveEventInternal env event this) as [r this'].
  split; [right; reflexivity|exact Hb].
Qed.

Lemma scroll_outcome env this :
  (fst (collectScrollEvent env this) = Null \/
   fst (collectScrollEvent env this) = Undefined) /\
  buffer (snd (collectScrollEvent env this)) = buffer this.
Proof.
  unfold collectScrollEvent, callThrottledScroll.
  destruct (negb (shouldCollectEvent this env "scroll")); [split; [left|]; reflexivity|].
  destruct (negb (inThrottle (throttledScrollHandler this)));
    [|split; [right|]; reflexivity].
  pose proof (collectScrollEventInternal_buffer env this) as Hb.
  destruct (collectScrollEventInternal env this) as [r this'].
  split; [right; reflexivity|exact Hb].
Qed.

(** X24. [collectMouseMoveEvent] and [collectScrollEvent] never return an
    event: they return [null] when the event is not to be collected, and
    otherwise the value of the throttled handler, which calls the internal
    collector and returns nothing. *)
Theorem throttled_collectors_return_no_event :
  forall (env : environment) (event : MouseEvent) (this : t),
    (fst (collectMouseMoveEvent env event this) = Null \/
     fst (collectMouseMoveEvent env event this) = Undefined) /\
    (fst (collectScrollEvent env this) = Null \/
     fst (collectScrollEvent env this) = Undefined).
Proof.
  intros env event this. split.
  - apply mouse_move_outcome.
  - apply scroll_outcome.
Qed.

(** The fifth mouse move, a second after the previous one: the internal
    collector returns the event and counts the move, the public one
    returns nothing. *)
Example fifth_move_collected_and_dropped :
  fst (collectMouseMoveEventInternal lateMove (moveAt 3 4) fourMoves) =
    Some (mkMouseMove 3 4 1000) /\
  fst (collectMouseMoveEvent lateMove (moveAt 3 4) fourMoves) = Undefined /\
  mouseMoveCounter (snd (collectMouseMoveEvent lateMove (moveAt 3 4) fourMoves)) = 5.
Proof. repeat split; vm_compute; reflexivity. Qed.

(** X25. Mouse moves are sampled one in ten when the monitor asks to
    throttle events and one in five otherwise; the rate of one in twenty
    is never used, since [shouldReduceActivity] implies
    [shouldThrottleEvents]. *)
Theorem mouse_move_sample_rate_five_or_ten :
  forall env : environment,
    getMouseMoveSampleRate env =
    if PerformanceLoad.shouldThrottleEvents (metrics env) then 10 else 5.
Proof.
  intros env. unfold getMouseMoveSampleRate.
  destruct (PerformanceLoad.shouldThrottleEvents (metrics env)) eqn:Et; [reflexivity|].
  rewrite (PerformanceLoadFacts.no_throttle_no_reduce _ Et). reflexivity.
Qed.

(** ** Scrolling *)


End EventCollectionFacts.

(* ================================================================== *)
(** * Properties: tracking, flushing and the life cycle of the SDK     *)
(* ================================================================== *)

Module TrackingFacts.
Import PrivacyEngine EventCollection Tracking TrackingSpec.

Lemma flush_running this :
  isInitialized this = true -> isDestroyed this = false ->
  flush this =
  let this' :=
    setBuffer (EventCollector.mk (flushSize this)
                 (EventCollector.effectiveSampleRate (buffer (eventCollector this))) [])
              this in
  match buffered this with
  | [] => this'
  | _ :: _ => setTransport (BatchQueue.send (buffered this) (transport this)) this'
  end.
Proof.
  intros Hi Hd. unfold flush, buffered, flushSize. rewrite Hi, Hd. cbn [negb orb].
  unfold EventCollector.getAndClearEvents.
  destruct (EventCollector.events (buffer (eventCollector this))); reflexivity.
Qed.

Lemma flush_stopped this :
  isInitialized this = false \/ isDestroyed this = true -> flush this = this.
Proof.
  intros [H|H]; unfold flush; rewrite H; [reflexivity|].
  rewrite orb_true_r. reflexivity.
Qed.

Lemma send_takenOver events w :
  takenOver (BatchQueue.send events w) = takenOver w ++ events.
Proof.
  pose proof (BatchQueueFacts.step_flow w (BatchQueue.Send events)) as H.
  cbn [BatchQueue.step BatchSpec.submitted flat_map] in H. rewrite app_nil_r in H.
  exact H.
Qed.

(** After a flush of a running SDK the buffer is empty and its events have
    gone to the transport. *)
Lemma flush_hands_over this :
  isInitialized this = true -> isDestroyed this = false ->
  buffered (flush this) = [] /\
  takenOver (transport (flush this)) = takenOver (transport this) ++ buffered this /\
  eventCount (flush this) = eventCount this /\
  flushSize (flush this) = flushSize this.
Proof.
  intros Hi Hd. rewrite (flush_running this Hi Hd). cbv zeta.
  destruct (buffered this) as [|e l] eqn:Eb.
  - repeat split. cbn. rewrite app_nil_r. reflexivity.
  - repeat split. cbn [transport setTransport]. apply send_takenOver.
Qed.

Section Host.

Variable toLowerCase : jsstring -> jsstring.
Variable numberToString : number -> jsstring.

Lemma track_stopped env eventType data this :
  shouldTrackEvent this = false ->
  track toLowerCase numberToString env eventType data this = this.
Proof. intros H. unfold track. rewrite H. reflexivity. Qed.

(** X27. The page view that [initialize] tracks is lost: [trackPageView]
    runs before [isInitialized] is set, so [track] returns at its first
    test.  Initialising an SDK leaves the buffer, the transport and the
    event counter as they were, and counts one page. *)
Theorem first_page_view_is_not_tracked :
  forall (env : environment) (pageData : JsValue) (this : t),
    isInitialized this = false -> isDestroyed this = false ->
    let this' := initialize toLowerCase numberToString env pageData this in
    isInitialized this' = true /\
    eventCollector this' = eventCollector this /\
    transport this' = transport this /\
    eventCount this' = eventCount this /\
    pageCount this' = pageCount this + 1.
Proof.
  intros env pageData this Hi Hd. cbv zeta.
  unfold initialize, trackPageView. rewrite Hi, Hd. cbn [orb].
  rewrite track_stopped by (unfold shouldTrackEvent; rewrite Hi; reflexivity).
  unfold debugLog. cbn [debug]. destruct (debug this); repeat split.
Qed.

Lemma last_kept (e : EventCollector.EventData) l dropped kept :
  l ++ [e] = dropped ++ kept -> kept <> [] -> exists older, kept = older ++ [e].
Proof.
  intros H Hk. destruct (exists_last Hk) as (older & e' & ->).
  exists older. rewrite app_assoc in H. apply app_inj_tail in H as [_ ->]. reflexivity.
Qed.

(** X28. A call of [track] on a running SDK of a sampled session leaves
    fewer than [flushSize] events in the buffer: when the buffer has
    filled up, all of it goes to the transport.  Nothing is lost on the
    way: what the transport has taken over, followed by the buffer, is
    what it had taken over before, followed by the buffer as [addEvent]
    left it.  An event of type [error] is always added, whatever the load
    and the random draw. *)
Theorem track_flushes_full_buffer :
  forall (env : environment) (eventType : string) (data : JsValue) (this : t),
    shouldTrackEvent this = true ->
    1 <= flushSize this ->
    let this' := track toLowerCase numberToString env eventType data this in
    let added :=
      EventCollector.addEvent (collectorEnv env) (eventOf env eventType this)
                              (buffer (eventCollector this)) in
    Z.of_nat (length (buffered this')) < flushSize this /\
    takenOver (transport this') ++ buffered this' =
      takenOver (transport this) ++ EventCollector.events added /\
    eventCount this' = eventCount this + 1 /\
    (eventType = "error"%string ->
     exists older, EventCollector.events added = older ++ [eventOf env eventType this]).
Proof.
  intros env eventType data this Hs Hf. cbv zeta.
  assert (Hrun : isInitialized this = true /\ isDestroyed this = false).
  { unfold shouldTrackEvent in Hs. apply andb_true_iff in Hs as [Hs _].
    apply andb_true_iff in Hs as [Hi Hd]. apply negb_true_iff in Hd. split; assumption. }
  destruct Hrun as [Hi Hd].
  unfold track. rewrite Hs. cbn [negb].
  fold (collectorEnv env).
  change (EventCollector.mkEvent _ (now env) (lit eventType)) with (eventOf env eventType this).
  set (added := EventCollector.addEvent (collectorEnv env) (eventOf env eventType this)
                                        (buffer (eventCollector this))).
  set (logged := debugLog _ _).
  assert (Hl : isInitialized logged = true /\ isDestroyed logged = false /\
               buffer (eventCollector logged) = added /\
               transport logged = transport this /\
               eventCount logged = eventCount this + 1).
  { subst logged. unfold debugLog, setBuffer, setCollector, log.
    cbn [debug eventCollector]. destruct (debug this); cbn; repeat split; assumption. }
  destruct Hl as (Hli & Hld & Hlb & Hlt & Hlc).
  assert (Hfs : flushSize logged = flushSize this).
  { unfold flushSize. rewrite Hlb. apply EventCollectorFacts.addEvent_flushSize. }
  assert (Hbl : buffered logged = EventCollector.events added)
    by (unfold buffered; rewrite Hlb; reflexivity).
  split; [|split; [|split]].
  - destruct (Z.geb_spec (EventCollector.getEventCount (buffer (eventCollector logged)))
                         (flushSize logged)) as [Hge|Hless].
    + destruct (flush_hands_over logged Hli Hld) as (He & _). rewrite He. cbn [length]. lia.
    + unfold EventCollector.getEventCount in Hless. unfold buffered. lia.
  - destruct (EventCollector.getEventCount (buffer (eventCollector logged)) >=?
              flushSize logged).
    + destruct (flush_hands_over logged Hli Hld) as (He & Ht & _).
      rewrite He, Ht, Hlt, Hbl, app_nil_r. reflexivity.
    + rewrite Hlt, Hbl. reflexivity.
  - destruct (EventCollector.getEventCount (buffer (eventCollector logged)) >=?
              flushSize logged).
    + destruct (flush_hands_over logged Hli Hld) as (_ & _ & Hc & _).
      rewrite Hc. exact Hlc.
    + exact Hlc.
  - intros ->. subst added. unfold EventCollector.addEvent, EventCollector.shouldCollectEvent.
    cbn [eventOf EventCollector.evType].
    destruct (list_eq_dec Z.eq_dec (lit "error") (lit "error")) as [_|N]; [|congruence].
    cbn [negb].
    fold (flushSize this).
    destruct (Z.gtb_spec
                (Z.of_nat (length (EventCollector.events (buffer (eventCollector this)) ++
                                   [eventOf env "error" this])))
                (flushSize this * 2)) as [Hgt|_]; cbn [EventCollector.events].
    + destruct (EventCollectorFacts.slice_negative (flushSize this)
                  (EventCollector.events (buffer (eventCollector this)) ++
                   [eventOf env "error" this]) ltac:(lia)) as (dropped & Hsplit & Hlen).
      apply (last_kept _ _ _ _ Hsplit). intros E. rewrite E in Hlen. cbn in Hlen. lia.
    + eexists. reflexivity.
Qed.

(** X30. No mouse move and no scroll is ever tracked: whatever the event
    and the surroundings, [handleMouseMove] and [handleScroll] leave the
    buffer, the transport and the event counter as they were. *)
Theorem mouse_moves_and_scrolls_are_never_tracked :
  forall (env : environment) (event : MouseEvent) (this : t),
    (let this' := handleMouseMove toLowerCase numberToString env event this in
     buffered this' = buffered this /\ transport this' = transport this /\
     eventCount this' = eventCount this) /\
    (let this' := handleScroll toLowerCase numberToString env this in
     buffered this' = buffered this /\ transport this' = transport this /\
     eventCount this' = eventCount this).
Proof.
  intros env event this. cbv zeta. split.
  - unfold handleMouseMove.
    destruct (negb (shouldTrackEvent this) || negb (enableHeatmaps (eventCollector this)));
      [repeat split|].
    destruct (EventCollectionFacts.mouse_move_outcome env event (eventCollector this))
      as [Ho Hb].
    destruct (collectMouseMoveEvent env event (eventCollector this)) as [r c].
    cbn [fst snd] in Ho, Hb.
    destruct Ho as [-> | ->]; unfold buffered; cbn; rewrite Hb; repeat split.
  - unfold handleScroll.
    destruct (negb (shouldTrackEvent this)); [repeat split|].
    destruct (EventCollectionFacts.scroll_outcome env (eventCollector this)) as [Ho Hb].
    destruct (collectScrollEvent env (eventCollector this)) as [r c].
    cbn [fst snd] in Ho, Hb.
    destruct Ho as [-> | ->]; unfold buffered; cbn; rewrite Hb; repeat split.
Qed.

(** X29. [destroy] flushes the buffer into the transport and disconnects
    it at once.  When the flushed events do not fill a batch, they are
    handed to no [sendBatch]: they are left in the batch queue, the timer
    that would have sent them is cleared, and the destroyed SDK neither
    tracks nor flushes any more. *)
Theorem destroy_strands_buffered_events :
  forall this : t,
    isInitialized this = true -> isDestroyed this = false ->
    BatchSpec.steady (transport this) ->
    buffered this <> [] ->
    Z.of_nat (length (BatchQueue.batchQueue (transport this)) + length (buffered this))
      < BatchQueue.batchSize ->
    let this' := destroy this in
    BatchQueue.batchQueue (transport this') =
      BatchQueue.batchQueue (transport this) ++ buffered this /\
    BatchQueue.dispatched (transport this') = BatchQueue.dispatched (transport this) /\
    BatchQueue.timers (transport this') = [] /\
    buffered this' = [] /\
    flush this' = this' /\
    forall env eventType data,
      track toLowerCase numberToString env eventType data this' = this'.
Proof.
  intros this Hi Hd Hst Hne Hlen. cbv zeta.
  unfold destroy. rewrite Hd.
  rewrite (flush_running this Hi Hd). cbv zeta.
  destruct (buffered this) as [|e l] eqn:Eb; [congruence|].
  set (sent := BatchQueue.send (e :: l) (transport this)).
  assert (Hsent : BatchSpec.steady sent)
    by (apply (BatchQueueFacts.steady_step _ (BatchQueue.Send (e :: l))), Hst).
  assert (Hq : BatchQueue.batchQueue sent = BatchQueue.batchQueue (transport this) ++ e :: l /\
               BatchQueue.dispatched sent = BatchQueue.dispatched (transport this)).
  { subst sent. unfold BatchQueue.send.
    cbn [BatchQueue.batchQueue BatchQueue.batchTimer BatchQueue.timers
         BatchQueue.nextHandle BatchQueue.dispatched].
    destruct (Z.geb_spec
                (Z.of_nat (length (BatchQueue.batchQueue (transport this) ++ e :: l)))
                BatchQueue.batchSize) as [Hge|_]; [rewrite length_app in Hge; lia|].
    destruct (BatchQueue.batchTimer (transport this)); split; reflexivity. }
  destruct Hq as [Hq Hdis].
  unfold BatchQueue.disconnect.
  cbn [transport setTransport setBuffer setCollector eventCollector].
  rewrite (BatchQueueFacts.dropTimer_clears sent (BatchQueueFacts.steady_timers sent Hsent)).
  unfold debugLog. cbn [debug setTransport setCollector setBuffer].
  destruct (debug this);
    (split; [cbn; exact Hq|];
     split; [cbn; exact Hdis|];
     split; [reflexivity|];
     split; [reflexivity|];
     split; [apply flush_stopped; right; reflexivity|];
     intros env eventType data; apply track_stopped; reflexivity).
Qed.

End Host.

Lemma track_flushes_full_buffer_witness :
  let this' := track HostSamples.asciiLowerCase HostSamples.integerToString
                     quietEnv "click" JNull running in
  let added :=
    EventCollector.addEvent (collectorEnv quietEnv) (eventOf quietEnv "click" running)
                            (buffer (eventCollector running)) in
  Z.of_nat (length (buffered this')) < flushSize running /\
  takenOver (transport this') ++ buffered this' =
    takenOver (transport running) ++ EventCollector.events added /\
  eventCount this' = eventCount running + 1 /\
  ("click"%string = "error"%string ->
   exists older, EventCollector.events added = older ++ [eventOf quietEnv "click" running]).
Proof.
  apply (track_flushes_full_buffer HostSamples.asciiLowerCase HostSamples.integerToString
           quietEnv "click" JNull running).
  - reflexivity.
  - vm_compute. discriminate.
Defined.

Lemma first_page_view_is_not_tracked_witness :
  let fresh := construct 50 1 true false balanced (lit "site-1") (lit "s") in
  let this' := initialize HostSamples.asciiLowerCase HostSamples.integerToString
                          quietEnv JNull fresh in
  isInitialized this' = true /\
  eventCollector this' = eventCollector fresh /\
  transport this' = transport fresh /\
  eventCount this' = eventCount fresh /\
  pageCount this' = pageCount fresh + 1.
Proof.
  apply (first_page_view_is_not_tracked HostSamples.asciiLowerCase
           HostSamples.integerToString quietEnv JNull
           (construct 50 1 true false balanced (lit "site-1") (lit "s")));
    reflexivity.
Defined.

Lemma destroy_strands_buffered_events_witness :
  let this' := destroy running in
  BatchQueue.batchQueue (transport this') =
    BatchQueue.batchQueue (transport running) ++ buffered running /\
  BatchQueue.dispatched (transport this') = BatchQueue.dispatched (transport running) /\
  BatchQueue.timers (transport this') = [] /\
  buffered this' = [] /\
  flush this' = this' /\
  forall env eventType data,
    track HostSamples.asciiLowerCase HostSamples.integerToString env eventType data this'
    = this'.
Proof.
  apply (destroy_strands_buffered_events HostSamples.asciiLowerCase
           HostSamples.integerToString running).
  - reflexivity.
  - reflexivity.
  - exact (BatchQueueFacts.steady_run []).
  - discriminate.
  - vm_compute. reflexivity.
Defined.

End TrackingFacts.
